(** * GAM sensitivity stage of gp-gam-optimisation-pipeline

    A shallow embedding of [scripts/gam/baseline/GAM_baseline.py] and of
    [scripts/utils/path_shim.py].

    Conventions of the model.
    - A Python [float] is a value of [fval]: an exact rational, or one of
      the three non-finite values.  Arithmetic on finite values is exact
      (rounding, overflow and the sign of zero are not modelled); every
      operation involving a non-finite value follows IEEE 754.
    - Text is [string] over ASCII.
    - The file system is a finite map from directory paths to listings;
      the listing keeps the order in which [glob] enumerates a directory.
      Paths are taken as resolved: symbolic links and [..] are not
      modelled, and a listing holds files only.
    - What the scripts print to standard output is not modelled.
    - Names are compared as on POSIX, case by case.
    - numpy, pygam and the formatting of floats with [repr] and ['%.8e']
      are not part of the repository; what the scripts use of them is
      either modelled from their documentation (and says so) or taken as
      a member of the class [Runtime]. *)

From Stdlib Require Import QArith Qabs ZArith Lia Lqa String Ascii
  DecimalString DecimalN.
From stdpp Require Import base option list gmap strings.

Local Open Scope Q_scope.

(* ================================================================== *)
(** * Floating-point values *)
(* ================================================================== *)

Inductive fval : Type :=
| Fin (q : Q)
| PInf
| NInf
| NaN.

(** Finite results are kept in lowest terms, so that a value has one
    representation, as a float has. *)
Definition fnum (q : Q) : fval := Fin (Qred q).

Definition fzero : fval := Fin 0.
Definition fone : fval := Fin 1.
Definition fmone : fval := Fin (-1).

(** [np.isfinite] *)
Definition isfinite (v : fval) : bool :=
  match v with Fin _ => true | _ => false end.

(** [np.isnan] *)
Definition isnan (v : fval) : bool :=
  match v with NaN => true | _ => false end.

Definition fneg (a : fval) : fval :=
  match a with
  | Fin x => fnum (- x)
  | PInf => NInf
  | NInf => PInf
  | NaN => NaN
  end.

Definition fadd (a b : fval) : fval :=
  match a, b with
  | NaN, _ | _, NaN => NaN
  | Fin x, Fin y => fnum (x + y)
  | PInf, NInf | NInf, PInf => NaN
  | PInf, _ | _, PInf => PInf
  | NInf, _ | _, NInf => NInf
  end.

Definition fsub (a b : fval) : fval := fadd a (fneg b).

(** The infinity of the sign of [x], or [NaN] for a zero [x]. *)
Definition inf_signed (x : Q) (pos : bool) : fval :=
  match x ?= 0 with
  | Eq => NaN
  | Gt => if pos then PInf else NInf
  | Lt => if pos then NInf else PInf
  end.

Definition fmul (a b : fval) : fval :=
  match a, b with
  | NaN, _ | _, NaN => NaN
  | Fin x, Fin y => fnum (x * y)
  | Fin x, PInf | PInf, Fin x => inf_signed x true
  | Fin x, NInf | NInf, Fin x => inf_signed x false
  | PInf, PInf | NInf, NInf => PInf
  | PInf, NInf | NInf, PInf => NInf
  end.

(** Division as numpy's [true_divide]: a division by zero is not an
    error, it gives an infinity (or [NaN] for 0/0). *)
Definition fdiv (a b : fval) : fval :=
  match a, b with
  | NaN, _ | _, NaN => NaN
  | Fin x, Fin y =>
      match y ?= 0 with
      | Eq => inf_signed x true
      | _ => fnum (x / y)
      end
  | Fin _, _ => fzero
  | PInf, Fin y => match y ?= 0 with Lt => NInf | _ => PInf end
  | NInf, Fin y => match y ?= 0 with Lt => PInf | _ => NInf end
  | _, _ => NaN
  end.

(** [a < b]; a comparison with [NaN] is false. *)
Definition flt (a b : fval) : bool :=
  match a, b with
  | NaN, _ | _, NaN => false
  | Fin x, Fin y => match x ?= y with Lt => true | _ => false end
  | NInf, NInf => false
  | NInf, _ => true
  | Fin _, PInf => true
  | _, _ => false
  end.

Definition fgt (a b : fval) : bool := flt b a.

(** [a <= b], the order [np.sort] uses on values that are not [NaN]. *)
Definition fle (a b : fval) : bool :=
  match a, b with
  | NaN, _ | _, NaN => false
  | Fin x, Fin y => match x ?= y with Gt => false | _ => true end
  | NInf, _ => true
  | _, PInf => true
  | _, _ => false
  end.

Definition of_nat (n : nat) : fval := Fin (inject_Z (Z.of_nat n)).

(** ** The numpy reductions the script calls

    Modelled from numpy's documentation and [numpy/_core/_methods.py]. *)

(** [np.sum] of a vector *)
Definition np_sum (xs : list fval) : fval := fold_left fadd xs fzero.

(** [np.mean] *)
Definition np_mean (xs : list fval) : fval :=
  fdiv (np_sum xs) (of_nat (length xs)).

(** [xs - m], elementwise *)
Definition center (xs : list fval) : list fval :=
  let m := np_mean xs in List.map (fun x => fsub x m) xs.

(** [np.var(xs, ddof=ddof)]: the mean of the squared deviations from the
    mean, with divisor [max (n - ddof) 0]. *)
Definition np_var (ddof : nat) (xs : list fval) : fval :=
  let d := center xs in
  fdiv (np_sum (List.map (fun x => fmul x x) d)) (of_nat (length xs - ddof)).

(** [np.cov(xs, ys, ddof=ddof)[0, 1]]: both rows are centred, and their
    dot product is multiplied by [1 / (n - ddof)]. *)
Definition np_cov01 (ddof : nat) (xs ys : list fval) : fval :=
  let dx := center xs in
  let dy := center ys in
  fmul (np_sum (zip_with fmul dx dy))
       (fdiv fone (of_nat (length xs - ddof))).

(** [np.nanvar(xs)]: the variance (ddof = 0) of the entries that are not
    [NaN]; [NaN] when none is left. *)
Definition np_nanvar (xs : list fval) : fval :=
  np_var 0 (List.filter (fun x => negb (isnan x)) xs).

(** [np.sqrt(v) < t] for a positive rational [t].  The square root is
    not rational; on the exact values of the model [sqrt v < t] holds
    iff [0 <= v < t * t], and the square root of a negative number or of
    [NaN] is [NaN], which compares false. *)
Definition sqrt_lt (v : fval) (t : Q) : bool :=
  match v with
  | Fin q => match q ?= 0 with
             | Lt => false
             | _ => match q ?= t * t with Lt => true | _ => false end
             end
  | _ => false
  end.

(** [np.nanstd(xs) < t] *)
Definition nanstd_lt (xs : list fval) (t : Q) : bool :=
  sqrt_lt (np_nanvar xs) t.

(** Insertion into an ascending list, after the entries that are equal. *)
Fixpoint insert_asc (x : fval) (l : list fval) : list fval :=
  match l with
  | [] => [x]
  | y :: l' => if fle y x then y :: insert_asc x l' else x :: l
  end.

Definition sort_asc (l : list fval) : list fval :=
  fold_right insert_asc [] l.

(** [np.median] of a vector: [NaN] if the vector is empty or holds a
    [NaN]; otherwise the mean of the middle element(s) of the sorted
    vector. *)
Definition np_median (xs : list fval) : fval :=
  if existsb isnan xs then NaN
  else
    let s := sort_asc xs in
    let n := length xs in
    match n with
    | O => NaN
    | _ =>
        if Nat.even n
        then np_mean [nth (n / 2 - 1) s NaN; nth (n / 2) s NaN]
        else np_mean [nth (n / 2) s NaN]
    end.

(* ================================================================== *)
(** * Text: formatting, searching, patterns *)
(* ================================================================== *)

Local Close Scope Q_scope.
Local Open Scope string_scope.
Local Open Scope list_scope.

Definition chars (s : string) : list ascii := list_ascii_of_string s.
Definition text (l : list ascii) : string := string_of_list_ascii l.

Definition newline : ascii := ascii_of_nat 10.

Definition is_digit (c : ascii) : bool :=
  let n := nat_of_ascii c in Nat.leb 48 n && Nat.leb n 57.

(** [str.isspace] on ASCII: space, tab, line feed, vertical tab, form
    feed, carriage return and the four separators 28..31. *)
Definition is_space (c : ascii) : bool :=
  let n := nat_of_ascii c in
  Nat.eqb n 32 || (Nat.leb 9 n && Nat.leb n 13) || (Nat.leb 28 n && Nat.leb n 31).

Fixpoint has_prefix (p s : list ascii) : bool :=
  match p, s with
  | [], _ => true
  | c :: p', d :: s' => Ascii.eqb c d && has_prefix p' s'
  | _ :: _, [] => false
  end.

(** [s.startswith(p)] and [s.endswith(p)] *)
Definition startswith (p s : string) : bool := has_prefix (chars p) (chars s).
Definition endswith (p s : string) : bool :=
  has_prefix (rev (chars p)) (rev (chars s)).

Fixpoint occurs (p s : list ascii) : bool :=
  has_prefix p s || match s with [] => false | _ :: s' => occurs p s' end.

(** [p in s] *)
Definition contains (p s : string) : bool := occurs (chars p) (chars s).

(** ** Decimal output *)

(** [str(n)] for a natural number given as an integer. *)
Definition dec (n : Z) : string :=
  NilZero.string_of_uint (N.to_uint (Z.to_N n)).

(** The integer nearest to a non-negative rational, ties to even. *)
Definition round_half_even (q : Q) : Z :=
  let n := Qnum q in
  let m := Zpos (Qden q) in
  let f := (n / m)%Z in
  match (2 * (n mod m) ?= m)%Z with
  | Lt => f
  | Gt => (f + 1)%Z
  | Eq => if Z.even f then f else (f + 1)%Z
  end.

Definition pad0 (w : nat) (s : string) : string :=
  text (replicate (w - String.length s) "0"%char) +:+ s.

(** [f"{v:.<d>f}"], which is also ["%.<d>f" % v]: the exact value
    rounded to [d] decimals, ties to even; the sign is printed for every
    negative value, also when it rounds to zero. *)
Definition format_f (d : nat) (v : fval) : string :=
  match v with
  | NaN => "nan"
  | PInf => "inf"
  | NInf => "-inf"
  | Fin q =>
      let p := (10 ^ Z.of_nat d)%Z in
      let n := round_half_even (Qabs q * inject_Z p)%Q in
      (match (q ?= 0)%Q with Lt => "-" | _ => "" end)
        +:+ dec (n / p)
        +:+ (match d with O => "" | _ => "." +:+ pad0 d (dec (n mod p)) end)
  end.

(** ** The regular expressions of [find_gp_file]

    The patterns the script builds are sequences of single-character
    atoms, some of them repeated by [+].  They are matched with
    [Pattern.match] against a whole name: anchored at the start by
    [match] (and [^]), at the end by [$]. *)

Inductive atom : Type :=
| Lit (c : ascii)      (** the character itself *)
| AnyChar              (** [.]: any character but a line feed *)
| Digit.               (** [\d] *)

Inductive item : Type :=
| One (a : atom)
| Plus (a : atom)      (** [a+] *)
| Star (a : atom).     (** what is left of [a+] after its first character *)

Definition atom_matches (a : atom) (c : ascii) : bool :=
  match a with
  | Lit d => Ascii.eqb d c
  | AnyChar => negb (Ascii.eqb c newline)
  | Digit => is_digit c
  end.

(** The patterns that remain to be matched after reading [c]. *)
Fixpoint re_step (c : ascii) (p : list item) : list (list item) :=
  match p with
  | [] => []
  | One a :: r => if atom_matches a c then [r] else []
  | Plus a :: r => if atom_matches a c then [Star a :: r] else []
  | Star a :: r =>
      (if atom_matches a c then [Star a :: r] else []) ++ re_step c r
  end.

Fixpoint re_nullable (p : list item) : bool :=
  match p with
  | [] => true
  | Star _ :: r => re_nullable r
  | _ => false
  end.

Fixpoint re_run (ps : list (list item)) (s : list ascii) : bool :=
  match s with
  | [] => existsb re_nullable ps
  | c :: s' => re_run (flat_map (re_step c) ps) s'
  end.

(** [re.compile("^" + p + "$").match(s)]: [$] holds at the end of [s]
    and also just before a line feed that ends [s]. *)
Definition re_match (p : list item) (s : string) : bool :=
  re_run [p] (chars s)
  || match rev (chars s) with
     | c :: r => Ascii.eqb c newline && re_run [p] (rev r)
     | [] => false
     end.

(** Text that [re.escape] has escaped: every character stands for
    itself. *)
Definition lits (s : string) : list item :=
  List.map (fun c => One (Lit c)) (chars s).

(** Formatted numbers are pasted into the pattern as they are, so their
    characters are read as pattern syntax: [.] is any character and [+]
    (as in the [repr] 1e+16) repeats what precedes it.  [acc] is the
    pattern so far, last item first; [None] is [re.error]. *)
Fixpoint re_raw (acc : list item) (s : list ascii) : option (list item) :=
  match s with
  | [] => Some acc
  | c :: s' =>
      if Ascii.eqb c "."%char then re_raw (One AnyChar :: acc) s'
      else if Ascii.eqb c "+"%char then
        match acc with
        | One a :: acc' => re_raw (Plus a :: acc') s'
        | _ => None
        end
      else re_raw (One (Lit c) :: acc) s'
  end.

(** [^emulated_mean_values_H2SO4_<month>_ilat_<lat>_ilon_<lon>_(\d+)_w_o_carb\.dat$]
    with [month] escaped and [lat], [lon] pasted. *)
Definition gp_pattern (month lat lon : string) : option (list item) :=
  acc ← re_raw (rev (lits "emulated_mean_values_H2SO4_" ++ lits month
                       ++ lits "_ilat_")) (chars lat);
  acc ← re_raw (rev (lits "_ilon_") ++ acc) (chars lon);
  Some (rev acc ++ [One (Lit "_"%char); Plus Digit] ++ lits "_w_o_carb.dat").

(** [fnmatch] with the pattern [<pre>*<suf>] *)
Definition glob_match (pre suf name : string) : bool :=
  startswith pre name && endswith suf name
  && Nat.leb (String.length pre + String.length suf) (String.length name).

(** The longest prefix of digits. *)
Fixpoint leading_digits (s : list ascii) : list ascii :=
  match s with
  | c :: s' => if is_digit c then c :: leading_digits s' else []
  | [] => []
  end.

(** [int(ds)] for a run of digits *)
Definition digits_value (ds : list ascii) : N :=
  fold_left (fun n c => 10 * n + (N_of_ascii c - 48))%N ds 0%N.

(** [m = re.search(r"_(\d+)_w_o_carb\.dat$", name)] followed by
    [int(m.group(1)) if m else None].  The pattern is anchored at the end
    only: it matches when the name (less a final line feed) ends with
    [_w_o_carb.dat] and the longest run of digits before that suffix is
    not empty and is preceded by an underscore. *)
Definition sample_count_of_name (name : string) : option N :=
  let try (r : list ascii) : option N :=
    let suf := rev (chars "_w_o_carb.dat") in
    if has_prefix suf r then
      let rest := drop (length suf) r in
      let ds := leading_digits rest in
      match ds, drop (length ds) rest with
      | _ :: _, c :: _ =>
          if Ascii.eqb c "_"%char then Some (digits_value (rev ds)) else None
      | _, _ => None
      end
    else None in
  match try (rev (chars name)) with
  | Some n => Some n
  | None =>
      match rev (chars name) with
      | c :: r => if Ascii.eqb c newline then try r else None
      | [] => None
      end
  end.

(* ================================================================== *)
(** * Files *)
(* ================================================================== *)

(** A regular file: its name in its directory, its modification time
    ([stat().st_mtime], in seconds) and its text, line by line. *)
Record file : Type := File {
  fname : string;
  st_mtime : Q;
  flines : list string
}.

(** A [pathlib.Path] to a file: the components of its directory, and
    its name. *)
Record path : Type := Path {
  pdir : list string;
  pname : string
}.

(** The file system: the directories that exist, each with the files it
    holds in the order in which the directory is enumerated. *)
Abbreviation fsys := (gmap (list string) (list file)).

(** What a run can raise. *)
Inductive exn : Type :=
| IndexError                  (** [repo_root]: [parents[3]] does not exist *)
| ReError                     (** [re.compile] refuses a pattern *)
| GPFileNotFound              (** [FileNotFoundError]: no GP emulation file found *)
| SampleNotFound              (** [FileNotFoundError]: missing LHC sample file *)
| NoSuchFile                  (** [FileNotFoundError] from opening a file *)
| LoadError                   (** [ValueError] of [np.loadtxt]: a bad field, ragged rows *)
| ShapeError                  (** [ValueError]: LHC must be [[n,>=55]] *)
| TooFewRows                  (** [ValueError]: LHC has only k rows *)
| NoFiniteRows                (** [ValueError]: no finite rows remain *)
| FitError.                   (** whatever [LinearGAM().fit] raises *)

(** The outcome of a call that may raise. *)
Inductive result (A : Type) : Type :=
| Ok (a : A)
| Raise (e : exn).
Arguments Ok {A} a.
Arguments Raise {A} e.

#[global] Instance result_ret : MRet result := fun A a => Ok a.
#[global] Instance result_bind : MBind result := fun A B k m =>
  match m with Ok a => k a | Raise e => Raise e end.

Definition lookup_file (l : list file) (name : string) : option file :=
  List.find (fun f => String.eqb (fname f) name) l.

(** [p.exists()] for a file path, and the file behind it *)
Definition stat (fs : fsys) (p : path) : option file :=
  l ← fs !! pdir p; lookup_file l (pname p).

Definition file_exists (fs : fsys) (p : path) : bool :=
  bool_decide (is_Some (stat fs p)).

(** [d.mkdir(parents=True, exist_ok=True)] *)
Definition mkdir (d : list string) (fs : fsys) : fsys :=
  match fs !! d with
  | Some _ => fs
  | None => <[d := []]> fs
  end.

(** The listing after [f] is written: an existing file of that name is
    replaced where it stands, a new one is added at the end. *)
Fixpoint put_file (f : file) (l : list file) : list file :=
  match l with
  | [] => [f]
  | g :: l' =>
      if String.eqb (fname g) (fname f) then f :: l' else g :: put_file f l'
  end.

(** [open(p, "w")], the text written, and [close]: at time [now]. *)
Definition write_file (now : Q) (p : path) (lines : list string) (fs : fsys)
  : result fsys :=
  match fs !! pdir p with
  | None => Raise NoSuchFile
  | Some l => Ok (<[pdir p := put_file (File (pname p) now lines) l]> fs)
  end.

(** ** numpy arrays read from text *)

(** A float array of dimension 0, 1 or 2. *)
Inductive ndarray : Type :=
| Arr0 (v : fval)
| Arr1 (v : list fval)
| Arr2 (rows : list (list fval)).

Definition ndim (a : ndarray) : nat :=
  match a with Arr0 _ => 0 | Arr1 _ => 1 | Arr2 _ => 2 end.

(** [len(m)] and [m.shape[1]] of a matrix given by its rows *)
Definition shape0 (m : list (list fval)) : nat := length m.
Definition shape1 (m : list (list fval)) : nat :=
  match m with r :: _ => length r | [] => 0 end.

(** [m[:, j]] *)
Definition col (j : nat) (m : list (list fval)) : list fval :=
  List.map (fun r => nth j r NaN) m.

(** [a.ravel()] *)
Definition ravel (a : ndarray) : list fval :=
  match a with
  | Arr0 v => [v]
  | Arr1 v => v
  | Arr2 rows => concat rows
  end.

(** The fields of a line of text: what precedes a [#] is split at white
    space. *)
Fixpoint split_fields (cur : list ascii) (s : list ascii) : list string :=
  let flush := match cur with [] => [] | _ => [text (rev cur)] end in
  match s with
  | [] => flush
  | c :: s' =>
      if Ascii.eqb c "#"%char then flush
      else if is_space c then flush ++ split_fields [] s'
      else split_fields (c :: cur) s'
  end.

(** All of the options, or [None] if one of them is. *)
Definition all_some {A} (l : list (option A)) : option (list A) :=
  foldr (fun o acc => x ← o; xs ← acc; Some (x :: xs)) (Some []) l.

(** With the default [ndmin=0], [np.loadtxt] squeezes the axes of
    length one: a file with one row (or one column) of several numbers
    gives a vector, a single number gives a 0-dimensional array, and a
    file without data gives an empty vector. *)
Definition squeeze (rows : list (list fval)) : ndarray :=
  match rows with
  | [] => Arr1 []
  | [[v]] => Arr0 v
  | [r] => Arr1 r
  | [_] :: _ => Arr1 (col 0 rows)
  | _ => Arr2 rows
  end.

Definition rectangular (rows : list (list fval)) : bool :=
  forallb (fun r => Nat.eqb (length r) (shape1 rows)) rows.

(* ================================================================== *)
(** * What the scripts take from outside the repository *)
(* ================================================================== *)

(** A fitted [LinearGAM]: [gam.predict(X)] gives one prediction per row
    of [X]. *)
Record surface : Type := Surface {
  predict : list (list fval) → list fval;
  predict_length : ∀ X, length (predict X) = length X
}.

Class Runtime : Type := {
  (** [float(field)], as [np.loadtxt] converts a field; [None] when it
      raises *)
  py_float : string → option fval;
  (** [f"{x}"], the [repr] of a float *)
  py_repr : fval → string;
  (** ["%.8e" % x] *)
  fmt_e8 : fval → string;
  (** [LinearGAM().fit(X, y)]; [None] when it raises *)
  LinearGAM_fit : list (list fval) → list fval → option surface
}.

Section Pipeline.
Context {RT : Runtime}.

(** The rows of numbers in the text of a file, as [np.loadtxt] reads
    them: a line without fields is skipped; [None] when a field is not a
    number or the rows differ in length. *)
Definition parsed_rows (f : file) : option (list (list fval)) :=
  let fields :=
    List.filter (fun r => negb (Nat.eqb (length r) 0))
      (List.map (fun l => split_fields [] (chars l)) (flines f)) in
  rows ← all_some (List.map (fun r => all_some (List.map py_float r)) fields);
  if rectangular rows then Some rows else None.

(** [np.loadtxt(p)] *)
Definition np_loadtxt (fs : fsys) (p : path) : result ndarray :=
  match stat fs p with
  | None => Raise NoSuchFile
  | Some f =>
      match parsed_rows f with
      | None => Raise LoadError
      | Some rows => Ok (squeeze rows)
      end
  end.

(* ================================================================== *)
(** * [scripts/utils/path_shim.py] *)
(* ================================================================== *)

(** [repo_root(from_file)]: [Path(from_file).resolve().parents[3]], on
    the components of the resolved path below the root directory. *)
Definition repo_root (from_file : list string) : result (list string) :=
  if Nat.leb 4 (length from_file)
  then Ok (take (length from_file - 4) from_file)
  else Raise IndexError.

Definition tiny_input_dir (repo : list string) : list string :=
  repo ++ ["examples"; "tiny_sample_inputs"; "H2SO4"; "jan"].

Definition tiny_gp_out_dir (repo : list string) : list string :=
  repo ++ ["examples"; "tiny_sample_outputs"; "gp_emulation"].

Definition tiny_gam_out_dir (repo : list string) : list string :=
  repo ++ ["examples"; "tiny_sample_outputs"; "gam_variance"].

(** A candidate: the search root it was found in, and the file. *)
Definition candidate : Type := list string * file.

(** [root.glob(<pre>*<suf>)] *)
Definition glob (pre suf : string) (l : list file) : list file :=
  List.filter (fun f => glob_match pre suf (fname f)) l.

Definition emu_prefix : string := "emulated_mean_values_H2SO4_".

(** The files of a listing that [root.glob("emulated_mean_values_H2SO4_*.dat")]
    yields and whose name [pat] matches. *)
Definition pattern_tier (pat : list item) (l : list file) : list file :=
  List.filter (fun f => re_match pat (fname f)) (glob emu_prefix ".dat" l).

(** [for p in root.glob("emulated_mean_values_H2SO4_*.dat"):
       if pat.match(p.name): candidates.append(p)] *)
Definition append_matches (pat : list item) (root : list string)
    (l : list file) (candidates : list candidate) : list candidate :=
  candidates ++ List.map (pair root) (pattern_tier pat l).

(** The loop over [relaxed_patterns], left at the first pattern after
    which there are candidates. *)
Fixpoint scan_relaxed (pats : list (list item)) (root : list string)
    (l : list file) (candidates : list candidate) : list candidate :=
  match pats with
  | [] => candidates
  | pat :: rest =>
      let candidates := append_matches pat root l candidates in
      match candidates with
      | _ :: _ => candidates
      | [] => scan_relaxed rest root l candidates
      end
  end.

(** The third tier: the tokens occur somewhere in the name. *)
Definition token_match (month lat_key3 lon_key3 name : string) : bool :=
  contains emu_prefix name && contains month name
  && contains lat_key3 name && contains lon_key3 name.

(** The files of a listing that [root.glob("*.dat")] yields and whose
    name holds the tokens. *)
Definition token_tier (month lat_key3 lon_key3 : string) (l : list file)
  : list file :=
  List.filter (fun f => token_match month lat_key3 lon_key3 (fname f))
    (glob "" ".dat" l).

(** The body of the loop over [search_roots] for a root that exists,
    [l] being its listing. *)
Definition scan_root (precise : list item) (relaxed : list (list item))
    (month lat_key3 lon_key3 : string) (root : list string) (l : list file)
    (candidates : list candidate) : list candidate :=
  let candidates := append_matches precise root l candidates in
  match candidates with
  | _ :: _ => candidates
  | [] =>
      let candidates := scan_relaxed relaxed root l candidates in
      match candidates with
      | _ :: _ => candidates
      | [] =>
          candidates ++
          List.map (pair root) (token_tier month lat_key3 lon_key3 l)
      end
  end.

(** The loop over [search_roots]: a root that does not exist is skipped,
    and the loop is left at the first root with candidates. *)
Fixpoint search (fs : fsys) (precise : list item) (relaxed : list (list item))
    (month lat_key3 lon_key3 : string) (roots : list (list string))
    (candidates : list candidate) : list candidate :=
  match roots with
  | [] => candidates
  | root :: rest =>
      match fs !! root with
      | None => search fs precise relaxed month lat_key3 lon_key3 rest candidates
      | Some l =>
          let candidates :=
            scan_root precise relaxed month lat_key3 lon_key3 root l candidates in
          match candidates with
          | _ :: _ => candidates
          | [] => search fs precise relaxed month lat_key3 lon_key3 rest candidates
          end
      end
  end.

(** [candidates.sort(key=lambda q: q.stat().st_mtime, reverse=True)]:
    the sort is stable, so among equal times the order of the list is
    kept. *)
Fixpoint insert_newest (c : candidate) (l : list candidate) : list candidate :=
  match l with
  | [] => [c]
  | d :: l' =>
      match (st_mtime (snd c) ?= st_mtime (snd d))%Q with
      | Lt => d :: insert_newest c l'
      | _ => c :: l
      end
  end.

Definition sort_newest_first (l : list candidate) : list candidate :=
  foldr insert_newest [] l.

Definition compiled (p : option (list item)) : result (list item) :=
  match p with Some p => Ok p | None => Raise ReError end.

Definition search_roots (repo : list string) (ilat : fval) : list (list string) :=
  let base := tiny_gp_out_dir repo in
  let lat_folder := "lat" +:+ format_f 3 ilat in
  [ base ++ ["baseline"; lat_folder];
    base ++ ["optimised"; lat_folder];
    base ++ [lat_folder] ].

Definition raw_input (repo : list string) (ilat ilon : fval) : path :=
  Path (tiny_input_dir repo)
       ("lat_" +:+ format_f 3 ilat +:+ "_lon_" +:+ format_f 3 ilon +:+ ".dat").

Definition find_gp_file (fs : fsys) (repo : list string) (ilat ilon : fval)
    (month : string) : result path :=
  precise ← compiled (gp_pattern month (format_f 3 ilat) (format_f 4 ilon));
  relaxed1 ← compiled (gp_pattern month (format_f 3 ilat) (format_f 3 ilon));
  relaxed2 ← compiled (gp_pattern month (py_repr ilat) (py_repr ilon));
  let candidates :=
    search fs precise [relaxed1; relaxed2] month
      (format_f 3 ilat) (format_f 3 ilon) (search_roots repo ilat) [] in
  match candidates with
  | [] =>
      let raw := raw_input repo ilat ilon in
      if file_exists fs raw then Ok raw else Raise GPFileNotFound
  | _ :: _ =>
      match sort_newest_first candidates with
      | (root, f) :: _ => Ok (Path root (fname f))
      | [] => Raise IndexError
      end
  end.

End Pipeline.

(* ================================================================== *)
(** * [scripts/gam/baseline/GAM_baseline.py] *)
(* ================================================================== *)

Definition VAR : string := "H2SO4".

(** The 37-feature subset of the 55 columns. *)
Definition PAR_INDEX : list nat :=
  [ 0; 1; 2; 20; 21; 22; 23; 24; 25; 26; 27; 28; 29; 30; 31; 32;
    33; 34; 35; 36; 37; 38; 39; 40; 41; 43; 44; 45; 46; 47; 48;
    49; 50; 51; 52; 53; 54 ].

(** [a[mask]] for a boolean mask as long as [a] *)
Fixpoint select {A} (mask : list bool) (a : list A) : list A :=
  match mask, a with
  | b :: mask', x :: a' => if b then x :: select mask' a' else select mask' a'
  | _, _ => []
  end.

(** [m[:, idx]] for a list of column indices *)
Definition index_columns (idx : list nat) (m : list (list fval))
  : list (list fval) :=
  List.map (fun r => List.map (fun j => nth j r NaN) idx) m.

(** [np.count_nonzero] and [np.any] of a boolean vector *)
Definition count_nonzero (mask : list bool) : nat :=
  length (List.filter id mask).
Definition np_any (mask : list bool) : bool := existsb id mask.

(** [mask = np.isfinite(y)] followed by
    [for j in range(X.shape[1]): mask &= np.isfinite(X[:, j])].
    (Of a matrix without rows the model does not know the width; the
    mask is empty then, whatever the width.) *)
Definition clean_mask (X : list (list fval)) (y : list fval) : list bool :=
  fold_left
    (fun mask j => zip_with andb mask (List.map isfinite (col j X)))
    (seq 0 (shape1 X))
    (List.map isfinite y).

(** [1e-12] and [eps_var = 1e-15] *)
Definition std_floor : Q := 1 # 1000000000000.
Definition eps_var : Q := 1 # 1000000000000000.

(** [1.0 if slope > 0 else (-1.0 if slope < 0 else 0.0)] *)
Definition sign_of (slope : fval) : fval :=
  if fgt slope fzero then fone
  else if flt slope fzero then fmone
  else fzero.

(** The variables the sweep loop assigns to, and a ghost record of the
    calls of [gam.predict]: the column swept and the matrix passed,
    oldest call first. *)
Record sweep_state : Type := SweepState {
  variances : list fval;
  grad_sign : list fval;
  X_med : list (list fval);
  evals : list (nat * list (list fval))
}.

(** [X_med[:, :] = med] *)
Definition assign_all (X_med : list (list fval)) (med : list fval)
  : list (list fval) :=
  List.map (fun _ => med) X_med.

(** [X_med[:, i] = xcol] *)
Definition assign_col (X_med : list (list fval)) (i : nat) (xcol : list fval)
  : list (list fval) :=
  zip_with (fun row x => <[i := x]> row) X_med xcol.

(** The importance and the slope of one column from the values it was
    swept through and the predictions, both already masked. *)
Definition importance (yv : list fval) : fval :=
  if Nat.ltb 1 (length yv) then np_var 1 yv else fzero.

Definition slope (xv yv : list fval) : fval :=
  let vx := if Nat.ltb 1 (length xv) then np_var 1 xv else fzero in
  if flt vx (Fin eps_var) then fzero
  else fdiv (np_cov01 1 xv yv) vx.

(** One turn of [for i in range(Xn.shape[1])]. *)
Definition sweep_step (gam : surface) (Xn : list (list fval)) (med : list fval)
    (st : sweep_state) (i : nat) : sweep_state :=
  let xcol := col i Xn in
  if nanstd_lt xcol std_floor then
    {| variances := <[i := fzero]> (variances st);
       grad_sign := <[i := fzero]> (grad_sign st);
       X_med := X_med st;
       evals := evals st |}
  else
    let X_med := assign_col (assign_all (X_med st) med) i xcol in
    let y_pred := predict gam X_med in
    let evals := evals st ++ [(i, X_med)] in
    let finite := zip_with andb (List.map isfinite xcol) (List.map isfinite y_pred) in
    if Nat.ltb (count_nonzero finite) 2 then
      {| variances := <[i := fzero]> (variances st);
         grad_sign := <[i := fzero]> (grad_sign st);
         X_med := X_med;
         evals := evals |}
    else
      let yv := select finite y_pred in
      let xv := select finite xcol in
      {| variances := <[i := importance yv]> (variances st);
         grad_sign := <[i := sign_of (slope xv yv)]> (grad_sign st);
         X_med := X_med;
         evals := evals |}.

(** [np.median(Xn, axis=0)] *)
Definition column_medians (Xn : list (list fval)) : list fval :=
  List.map (fun j => np_median (col j Xn)) (seq 0 (shape1 Xn)).

(** The state before the loop: two vectors of zeros, and [X_med]
    allocated once as [np.tile(med, (N, 1))]. *)
Definition sweep_init (Xn : list (list fval)) (N_used : nat) : sweep_state :=
  {| variances := replicate (shape1 Xn) fzero;
     grad_sign := replicate (shape1 Xn) fzero;
     X_med := replicate N_used (column_medians Xn);
     evals := [] |}.

(** The whole loop. *)
Definition sweep (gam : surface) (Xn : list (list fval)) (N_used : nat)
  : sweep_state :=
  fold_left (sweep_step gam Xn (column_medians Xn))
    (seq 0 (shape1 Xn)) (sweep_init Xn N_used).

(** [int(N_gp) if (N_gp == len(y)) else int(N)] *)
Definition N_out_of (N_gp : option N) (len_y N_used : nat) : N :=
  match N_gp with
  | Some n => if N.eqb n (N.of_nat len_y) then n else N.of_nat N_used
  | None => N.of_nat N_used
  end.

(** [f"<kind>_{VAR}_{month}_{N_out}_ilat_{ilat:.3f}_ilon_{ilon:.4f}.dat"] *)
Definition out_name (kind month : string) (N_out : N) (ilat ilon : fval)
  : string :=
  kind +:+ "_" +:+ VAR +:+ "_" +:+ month +:+ "_" +:+ dec (Z.of_N N_out)
    +:+ "_ilat_" +:+ format_f 3 ilat +:+ "_ilon_" +:+ format_f 4 ilon +:+ ".dat".

(** The command line after [argparse]; [samples] is [Path(args.samples)],
    or [None] for the empty default. *)
Record args : Type := Args {
  ilat : fval;
  ilon : fval;
  month : string;
  samples : option path
}.

(** The local variables of [main] when it returns. *)
Record run : Type := Run {
  gp_file : path;
  N_gp : option N;
  y : list fval;
  X : list (list fval);
  mask : list bool;
  Xn : list (list fval);
  yn : list fval;
  gam : surface;
  final : sweep_state;
  N_out : N;
  out_var : path;
  out_sign : path
}.

(** A computation on the file system that may raise. *)
Definition M (A : Type) : Type := fsys → fsys * result A.

#[global] Instance M_ret : MRet M := fun A a fs => (fs, Ok a).
#[global] Instance M_bind : MBind M := fun A B k m fs =>
  match m fs with
  | (fs', Ok a) => k a fs'
  | (fs', Raise e) => (fs', Raise e)
  end.

(** A call that only reads the file system. *)
Definition reading {A} (f : fsys → result A) : M A := fun fs => (fs, f fs).
Definition pure {A} (r : result A) : M A := fun fs => (fs, r).
Definition raise {A} (e : exn) : M A := fun fs => (fs, Raise e).
Definition modify (f : fsys → fsys) : M unit := fun fs => (f fs, Ok tt).

Section Baseline.
Context {RT : Runtime}.

Definition load_lhc_first_n (fs : fsys) (sample_file : path) (rows_needed : nat)
  : result (list (list fval)) :=
  if negb (file_exists fs sample_file) then Raise SampleNotFound
  else
    LHC ← np_loadtxt fs sample_file;
    match LHC with
    | Arr2 rows =>
        if Nat.ltb (shape1 rows) 55 then Raise ShapeError
        else if Nat.ltb (shape0 rows) rows_needed then Raise TooFewRows
        else Ok (index_columns PAR_INDEX (take rows_needed rows))
    | _ => Raise ShapeError
    end.

(** [np.savetxt(p, v, fmt=...)]: one formatted value per line *)
Definition np_savetxt (now : Q) (p : path) (v : list fval) (fmt : fval → string)
  : M unit :=
  fun fs =>
    match write_file now p (List.map fmt v) fs with
    | Ok fs' => (fs', Ok tt)
    | Raise e => (fs, Raise e)
    end.

(** [y = np.loadtxt(gp_file)], the first column of a matrix with several
    columns, flattened. *)
Definition response_vector (a : ndarray) : list fval :=
  match a with
  | Arr2 rows => if Nat.ltb 1 (shape1 rows) then col 0 rows else ravel a
  | _ => ravel a
  end.

Definition default_samples (REPO : list string) : path :=
  Path (REPO ++ ["examples"; "large_sample"])
       "constrained_multi_million_sample_first_million.dat".

(** [main()], run at time [now] by the script whose resolved path has
    the components [script]. *)
Definition main (script : list string) (a : args) (now : Q) : M run :=
  REPO ← pure (repo_root script);
  let GAM_DIR :=
    tiny_gam_out_dir REPO ++ ["baseline"; "lat" +:+ format_f 3 (ilat a)] in
  _ ← modify (mkdir GAM_DIR);
  gp_file ← reading (fun fs => find_gp_file fs REPO (ilat a) (ilon a) (month a));
  let N_gp := sample_count_of_name (pname gp_file) in
  y0 ← reading (fun fs => np_loadtxt fs gp_file);
  let y := response_vector y0 in
  let sample_path :=
    match samples a with Some p => p | None => default_samples REPO end in
  X ← reading (fun fs => load_lhc_first_n fs sample_path (length y));
  let mask := clean_mask X y in
  if negb (np_any mask) then raise NoFiniteRows
  else
    let Xn := select mask X in
    let yn := select mask y in
    let N_used := length yn in
    match LinearGAM_fit Xn yn with
    | None => raise FitError
    | Some gam =>
        let st := sweep gam Xn N_used in
        let N_out := N_out_of N_gp (length y) N_used in
        let out_var :=
          Path GAM_DIR (out_name "GAM_variances" (month a) N_out (ilat a) (ilon a)) in
        let out_sign :=
          Path GAM_DIR (out_name "GAM_gradient_signs" (month a) N_out (ilat a) (ilon a)) in
        _ ← np_savetxt now out_var (variances st) fmt_e8;
        _ ← np_savetxt now out_sign (grad_sign st) (format_f 0);
        mret (Run gp_file N_gp y X mask Xn yn gam st N_out out_var out_sign)
    end.

End Baseline.

(* ================================================================== *)
(** * The phases of [main] *)
(* ================================================================== *)

Section Phases.
Context {RT : Runtime}.

Definition GAM_DIR_of (REPO : list string) (a : args) : list string :=
  tiny_gam_out_dir REPO ++ ["baseline"; "lat" +:+ format_f 3 (ilat a)].

Definition sample_path_of (REPO : list string) (a : args) : path :=
  match samples a with Some p => p | None => default_samples REPO end.

(** [main] up to the cleaning: the repository root, the GP file found,
    the response vector and the sample matrix. *)
Definition load_inputs (script : list string) (a : args)
  : M (list string * path * list fval * list (list fval)) :=
  REPO ← pure (repo_root script);
  _ ← modify (mkdir (GAM_DIR_of REPO a));
  gp_file ← reading (fun fs => find_gp_file fs REPO (ilat a) (ilon a) (month a));
  y0 ← reading (fun fs => np_loadtxt fs gp_file);
  X ← reading (fun fs =>
         load_lhc_first_n fs (sample_path_of REPO a) (length (response_vector y0)));
  mret (REPO, gp_file, response_vector y0, X).

(** [main] from the cleaning on. *)
Definition analyse (a : args) (now : Q) (REPO : list string) (gp_file : path)
    (y : list fval) (X : list (list fval)) : M run :=
  let mask := clean_mask X y in
  if negb (np_any mask) then raise NoFiniteRows
  else
    let Xn := select mask X in
    let yn := select mask y in
    match LinearGAM_fit Xn yn with
    | None => raise FitError
    | Some gam =>
        let st := sweep gam Xn (length yn) in
        let N_out := N_out_of (sample_count_of_name (pname gp_file)) (length y) (length yn) in
        let out_var :=
          Path (GAM_DIR_of REPO a)
               (out_name "GAM_variances" (month a) N_out (ilat a) (ilon a)) in
        let out_sign :=
          Path (GAM_DIR_of REPO a)
               (out_name "GAM_gradient_signs" (month a) N_out (ilat a) (ilon a)) in
        _ ← np_savetxt now out_var (variances st) fmt_e8;
        _ ← np_savetxt now out_sign (grad_sign st) (format_f 0);
        mret (Run gp_file (sample_count_of_name (pname gp_file)) y X mask Xn yn
                  gam st N_out out_var out_sign)
    end.

(** The record [main] returns, from the inputs and the fitted surface. *)
Definition run_of (a : args) (REPO : list string) (gp : path)
    (y0 : list fval) (X0 : list (list fval)) (g : surface) : run :=
  let mask := clean_mask X0 y0 in
  let Xn := select mask X0 in
  let yn := select mask y0 in
  let N_out := N_out_of (sample_count_of_name (pname gp)) (length y0) (length yn) in
  Run gp (sample_count_of_name (pname gp)) y0 X0 mask Xn yn g
      (sweep g Xn (length yn)) N_out
      (Path (GAM_DIR_of REPO a)
            (out_name "GAM_variances" (month a) N_out (ilat a) (ilon a)))
      (Path (GAM_DIR_of REPO a)
            (out_name "GAM_gradient_signs" (month a) N_out (ilat a) (ilon a))).

(** The two files of a run, as [np.savetxt] writes them. *)
Definition var_file (now : Q) (r : run) : file :=
  File (pname (out_var r)) now (List.map fmt_e8 (variances (final r))).
Definition sign_file (now : Q) (r : run) : file :=
  File (pname (out_sign r)) now (List.map (format_f 0) (grad_sign (final r))).

End Phases.

(* ================================================================== *)
(** * The specification, in the terms of the model *)
(* ================================================================== *)

(** A finite value that is not negative. *)
Definition nonneg (v : fval) : Prop :=
  match v with Fin q => (0 <= q)%Q | _ => False end.

Definition finite (v : fval) : Prop := isfinite v = true.

(** The synthetic design matrix of column [i] in the words of the
    specification: every row is the vector of column medians, except
    that column [i] holds the observed value of the row. *)
Definition synthetic_design (Xn : list (list fval)) (i : nat) : list (list fval) :=
  List.map (fun r => <[i := nth i r NaN]> (column_medians Xn)) Xn.

(** The mask of the rows where the swept value and the prediction are
    both finite. *)
Definition pair_mask (xcol y_pred : list fval) : list bool :=
  zip_with andb (List.map isfinite xcol) (List.map isfinite y_pred).

(** What one turn of the loop assigns to [variances[i]] and
    [grad_sign[i]], as a function of the column alone. *)
Definition column_outcome (gam : surface) (Xn : list (list fval)) (i : nat)
  : fval * fval :=
  let xcol := col i Xn in
  if nanstd_lt xcol std_floor then (fzero, fzero)
  else
    let y_pred := predict gam (synthetic_design Xn i) in
    let finite := pair_mask xcol y_pred in
    if Nat.ltb (count_nonzero finite) 2 then (fzero, fzero)
    else (importance (select finite y_pred),
          sign_of (slope (select finite xcol) (select finite y_pred))).

(** The calls of [gam.predict] made for the columns of [cols]. *)
Definition column_evals (Xn : list (list fval)) (cols : list nat)
  : list (nat * list (list fval)) :=
  flat_map
    (fun i => if nanstd_lt (col i Xn) std_floor then []
              else [(i, synthetic_design Xn i)])
    cols.

(** A row is kept when its response and all of its parameters are
    finite. *)
Definition all_finite_row (r : list fval) (v : fval) : bool :=
  isfinite v && forallb isfinite r.


Definition Qsum (l : list Q) : Q := fold_right Qplus 0%Q l.

Definition Qmean (l : list Q) : Q :=
  (Qsum l / inject_Z (Z.of_nat (length l)))%Q.

Definition deviations (l : list Q) : list Q :=
  List.map (fun x => (x - Qmean l)%Q) l.




(** The sum of the squared residuals of the line of slope [b] through
    the means. *)
Definition residual_ss (xs ys : list Q) (b : Q) : Q :=
  Qsum (zip_with (fun dx dy => (dy - b * dx) * (dy - b * dx))%Q
          (deviations xs) (deviations ys)).

(** A value of the model that is finite and equal, as a number, to [q]. *)
Definition approx (v : fval) (q : Q) : Prop :=
  match v with Fin p => (p == q)%Q | _ => False end.

(** The first list that is not empty. *)
Fixpoint first_nonempty {A} (ls : list (list A)) : list A :=
  match ls with
  | [] => []
  | [] :: rest => first_nonempty rest
  | l :: _ => l
  end.

(** The tiers of one directory, in the order in which they are tried:
    the precise pattern, the relaxed patterns, the tokens. *)
Definition tiers (precise : list item) (relaxed : list (list item))
    (month lat_key3 lon_key3 : string) (l : list file) : list (list file) :=
  pattern_tier precise l
    :: List.map (fun pat => pattern_tier pat l) relaxed
    ++ [token_tier month lat_key3 lon_key3 l].

(** The candidates of one search root: those of its first tier that has
    any; none if the directory does not exist. *)
Definition root_candidates (fs : fsys) (precise : list item)
    (relaxed : list (list item)) (month lat_key3 lon_key3 : string)
    (root : list string) : list candidate :=
  match fs !! root with
  | None => []
  | Some l =>
      List.map (pair root)
        (first_nonempty (tiers precise relaxed month lat_key3 lon_key3 l))
  end.

(** The candidates the search ends with: those of the first root that
    has any. *)
Definition winners (fs : fsys) (precise : list item)
    (relaxed : list (list item)) (month lat_key3 lon_key3 : string)
    (roots : list (list string)) : list candidate :=
  first_nonempty
    (List.map (root_candidates fs precise relaxed month lat_key3 lon_key3) roots).

(** The head of a list is not older than the rest. *)
Definition head_newest (l : list candidate) : Prop :=
  match l with
  | [] => True
  | c :: rest => ∀ d, In d rest → (st_mtime d.2 <= st_mtime c.2)%Q
  end.

(** The grid cell of the discovery scenario of the specification:
    latitude 34.375, longitude -10.3125. *)
Definition scenario_lat : fval := Fin (34375 # 1000).
Definition scenario_lon : fval := Fin (- (103125 # 10000)).

(** The patterns of the scenario: month [jan], latitude 34.375,
    longitude -10.3125 to four decimals and to three. *)
Definition scenario_precise : list item :=
  default [] (gp_pattern "jan" "34.375" "-10.3125").
Definition scenario_relaxed : list item :=
  default [] (gp_pattern "jan" "34.375" "-10.312").

(** The labelling rule in the words of the specification: the label is
    the count recovered from the name of the GP file if and only if
    that count exists and equals the length of the raw response vector;
    otherwise it is the number of rows used. *)
Definition label_as_specified (r : run) : Prop :=
  ((∃ n, N_gp r = Some n ∧ N_out r = n)
   ↔ N_gp r = Some (N.of_nat (length (y r))))
  ∧ (N_gp r ≠ Some (N.of_nat (length (y r))) →
     N_out r = N.of_nat (length (yn r))).

(** ** Names, patterns and positions, in the statements about them *)

(** The name of a GP file as the docstring of [find_gp_file] has it:
    [emulated_mean_values_H2SO4_<month>_ilat_<lat>_ilon_<lon>_<n>_w_o_carb.dat]. *)
Definition emulation_name (month lat lon : string) (n : N) : string :=
  emu_prefix +:+ month +:+ "_ilat_" +:+ lat +:+ "_ilon_" +:+ lon
    +:+ "_" +:+ dec (Z.of_N n) +:+ "_w_o_carb.dat".

(** The count that ends the reversed name [r], if [r] is
    [_w_o_carb.dat], digits and an underscore, read backwards. *)
Definition count_before_suffix (r : list ascii) : option N :=
  let suf := rev (chars "_w_o_carb.dat") in
  if has_prefix suf r then
    let rest := drop (length suf) r in
    let ds := leading_digits rest in
    match ds, drop (length ds) rest with
    | _ :: _, c :: _ =>
        if Ascii.eqb c "_"%char then Some (digits_value (rev ds)) else None
    | _, _ => None
    end
  else None.

(** The texts a pattern matches from its first to its last item. *)
Inductive matches : list item → list ascii → Prop :=
| matches_nil : matches [] []
| matches_one a c r s :
    atom_matches a c = true → matches r s → matches (One a :: r) (c :: s)
| matches_plus a c r s :
    atom_matches a c = true → matches (Star a :: r) s →
    matches (Plus a :: r) (c :: s)
| matches_more a c r s :
    atom_matches a c = true → matches (Star a :: r) s →
    matches (Star a :: r) (c :: s)
| matches_done a r s : matches r s → matches (Star a :: r) s.

(** A character of a formatted number, read as pattern syntax. *)
Definition raw_item (c : ascii) : item :=
  if Ascii.eqb c "."%char then One AnyChar else One (Lit c).

(** The last items of every pattern of [find_gp_file]: [_(\d+)_w_o_carb\.dat]. *)
Definition count_tail : list item :=
  [One (Lit "_"%char); Plus Digit] ++ lits "_w_o_carb.dat".

(** What a character of a formatted coordinate accepts when it is read
    as pattern syntax: a point accepts every character but a line feed,
    any other character accepts itself. *)
Definition point_or_same (c x : ascii) : bool :=
  if Ascii.eqb c "."%char then negb (Ascii.eqb x newline) else Ascii.eqb c x.

(** The positions of [idx] increase strictly, from [lo] on. *)
Fixpoint ascending (lo : nat) (idx : list nat) : bool :=
  match idx with
  | [] => true
  | j :: idx' => Nat.leb lo j && ascending (S j) idx'
  end.

Section Contracts.
Context {RT : Runtime}.

(** The contract of the sample loader in the words of the
    specification: it fails when the file is missing, when the raw
    matrix has fewer than 55 columns or fewer than [R] rows, and in no
    other case; otherwise it returns the first [R] rows, restricted to
    the 37 columns. *)
Definition loader_contract_as_specified (fs : fsys) (p : path) (R : nat) : Prop :=
  match stat fs p with
  | None => load_lhc_first_n fs p R = Raise SampleNotFound
  | Some f =>
      ∀ rows, parsed_rows f = Some rows →
        if Nat.ltb (shape1 rows) 55 || Nat.ltb (length rows) R
        then load_lhc_first_n fs p R = Raise ShapeError
             ∨ load_lhc_first_n fs p R = Raise TooFewRows
        else load_lhc_first_n fs p R = Ok (index_columns PAR_INDEX (take R rows))
  end.

(** The tier order in the words of the specification: a file that
    matches the exact pattern is preferred to every other candidate,
    so when one exists in a search root, the file returned matches the
    exact pattern. *)
Definition exact_match_preferred (fs : fsys) (repo : list string)
    (ilat ilon : fval) (month : string) : Prop :=
  ∀ precise root l f,
    gp_pattern month (format_f 3 ilat) (format_f 4 ilon) = Some precise →
    In root (search_roots repo ilat) →
    fs !! root = Some l →
    In f (pattern_tier precise l) →
    ∃ p, find_gp_file fs repo ilat ilon month = Ok p
         ∧ re_match precise (pname p) = true.

(** The discovery scenario in the words of the specification: without
    a response file in the three roots, a raw input named
    [lat_34.375_lon_-10.3125.dat] in the tiny-input directory is
    returned. *)
Definition raw_fallback_as_specified (fs : fsys) (repo : list string) : Prop :=
  winners fs scenario_precise [scenario_relaxed; scenario_precise] "jan"
    "34.375" "-10.312" (search_roots repo scenario_lat) = [] →
  file_exists fs (Path (tiny_input_dir repo) "lat_34.375_lon_-10.3125.dat") = true →
  find_gp_file fs repo scenario_lat scenario_lon "jan"
  = Ok (Path (tiny_input_dir repo) "lat_34.375_lon_-10.3125.dat").

End Contracts.

(* ================================================================== *)
(** * A concrete runtime and concrete files, for running the model *)
(* ================================================================== *)

Module Demo.

(** Fields that are decimal integers, and [nan], [inf], [-inf]. *)
Definition parse (s : string) : option fval :=
  match NilZero.int_of_string s with
  | Some i => Some (Fin (inject_Z (Z.of_int i)))
  | None =>
      if String.eqb s "nan" then Some NaN
      else if String.eqb s "inf" then Some PInf
      else if String.eqb s "-inf" then Some NInf
      else None
  end.

(** The text without the zeros that end it (one digit is kept after the
    point). *)
Fixpoint strip_zeros (r : list ascii) : list ascii :=
  match r with
  | c :: ((d :: _) as r') =>
      if Ascii.eqb c "0"%char && negb (Ascii.eqb d "."%char)
      then strip_zeros r' else r
  | _ => r
  end.

(** The [repr] of the floats that have at most six decimals. *)
Definition repr (v : fval) : string :=
  match v with
  | Fin _ => text (rev (strip_zeros (rev (chars (format_f 6 v)))))
  | _ => format_f 6 v
  end.

(** The exponent [e] with [10^e <= q < 10^(e+1)], for a positive [q]. *)
Fixpoint exponent10 (fuel : nat) (q : Q) (e : Z) : Z :=
  match fuel with
  | O => e
  | S fuel' =>
      match (q ?= Qpower 10 e)%Q with
      | Lt => exponent10 fuel' q (e - 1)
      | _ =>
          match (q ?= Qpower 10 (e + 1))%Q with
          | Lt => e
          | _ => exponent10 fuel' q (e + 1)
          end
      end
  end.

(** ["%.8e" % v] on exact values *)
Definition sci8 (v : fval) : string :=
  match v with
  | Fin q =>
      let a := Qabs q in
      let sign := match (q ?= 0)%Q with Lt => "-" | _ => "" end in
      let '(n, e) :=
        match (a ?= 0)%Q with
        | Eq => (0%Z, 0%Z)
        | _ =>
            let fuel := Z.to_nat (Z.log2 (Z.abs (Qnum a)) + Z.log2 (Zpos (Qden a)) + 2) in
            let e := exponent10 fuel a 0 in
            let n := round_half_even (a / Qpower 10 (e - 8))%Q in
            if (1000000000 <=? n)%Z then ((n / 10)%Z, (e + 1)%Z) else (n, e)
        end in
      sign +:+ dec (n / 100000000) +:+ "." +:+ pad0 8 (dec (n mod 100000000))
        +:+ "e" +:+ (if (e <? 0)%Z then "-" else "+") +:+ pad0 2 (dec (Z.abs e))
  | _ => format_f 0 v
  end.

(** A surface that is linear in the column with index 2 and ignores the
    others. *)
Definition plane (X : list (list fval)) : list fval :=
  List.map (fun r => fmul (Fin 3) (nth 2 r NaN)) X.

Definition plane_length X : length (plane X) = length X :=
  length_map _ X.

Definition plane_surface : surface := Surface plane plane_length.

(** A surface that predicts [NaN] everywhere. *)
Definition void (X : list (list fval)) : list fval := List.map (fun _ => NaN) X.

Definition void_length X : length (void X) = length X :=
  length_map _ X.

Definition void_surface : surface := Surface void void_length.

#[export] Instance runtime : Runtime := {|
  py_float := parse;
  py_repr := repr;
  fmt_e8 := sci8;
  LinearGAM_fit := fun _ _ => Some plane_surface
|}.

Definition spaced (ws : list string) : string :=
  foldr (fun w s => w +:+ " " +:+ s) "" ws.

(** A line of 55 fields: the field of column 1 is [a], that of column 2
    is [b], the others are 7. *)
Definition lhc_line (a b : string) : string :=
  spaced (["7"; a; b] ++ replicate 52 "7").

Definition repo : list string := ["srv"; "gp-gam-optimisation-pipeline"].

Definition script : list string :=
  repo ++ ["scripts"; "gam"; "baseline"; "GAM_baseline.py"].

Definition lat : fval := scenario_lat.
Definition lon : fval := scenario_lon.

Definition argv : args := Args lat lon "jan" None.

Definition gp_name (n : string) : string :=
  "emulated_mean_values_H2SO4_jan_ilat_34.375_ilon_-10.3125_" +:+ n +:+ "_w_o_carb.dat".

Definition sample_file (rows : list string) : file :=
  File "constrained_multi_million_sample_first_million.dat" 5 rows.

Definition sample_rows : list string :=
  [lhc_line "1" "1"; lhc_line "2" "2"; lhc_line "3" "4"; lhc_line "9" "9"].

(** Three responses labelled 3, and a sample of four rows. *)
Definition world : fsys :=
  {[ tiny_gp_out_dir repo ++ ["baseline"; "lat34.375"] :=
       [File (gp_name "3") 10 ["10"; "20"; "40"]];
     repo ++ ["examples"; "large_sample"] := [sample_file sample_rows] ]}.

Definition gp_path : path :=
  Path (tiny_gp_out_dir repo ++ ["baseline"; "lat34.375"]) (gp_name "3").

Definition lhc_row (a b : Q) : list fval :=
  [Fin 7; Fin a; Fin b] ++ replicate 34 (Fin 7).

Definition raw_row (a b : Q) : list fval :=
  [Fin 7; Fin a; Fin b] ++ replicate 52 (Fin 7).

(** The numbers of [sample_rows]. *)
Definition raw_matrix : list (list fval) :=
  [raw_row 1 1; raw_row 2 2; raw_row 3 4; raw_row 9 9].

Definition responses : list fval := [Fin 10; Fin 20; Fin 40].

Definition sample_matrix : list (list fval) :=
  [lhc_row 1 1; lhc_row 2 2; lhc_row 3 4].

(** The time of the run. *)
Definition noon : Q := 99.

(** Three responses, the second of them [nan], in a file labelled 2. *)
Definition gp_path_nan : path :=
  Path (tiny_gp_out_dir repo ++ ["baseline"; "lat34.375"]) (gp_name "2").

Definition responses_nan : list fval := [Fin 10; NaN; Fin 40].

(** A sample file with a single row of 55 numbers. *)
Definition world_one_row : fsys :=
  {[ repo ++ ["examples"; "large_sample"] := [sample_file [lhc_line "1" "1"]] ]}.

(** A file in the baseline directory that only the tokens match, older
    than a file in the optimised directory that the precise pattern
    matches. *)
Definition token_name : string :=
  "emulated_mean_values_H2SO4_jan_34.375_-10.312.dat".

Definition world_two_roots : fsys :=
  {[ tiny_gp_out_dir repo ++ ["baseline"; "lat34.375"] :=
       [File token_name 1 ["10"; "20"; "40"]];
     tiny_gp_out_dir repo ++ ["optimised"; "lat34.375"] :=
       [File (gp_name "3") 2 ["10"; "20"; "40"]] ]}.

(** Three files that the precise pattern matches, the second of them
    the newest, and one that only the tokens match. *)
Definition world_many : fsys :=
  {[ tiny_gp_out_dir repo ++ ["baseline"; "lat34.375"] :=
       [File (gp_name "3") 10 ["10"; "20"; "40"];
        File (gp_name "7") 30 ["1"; "2"; "3"; "4"; "5"; "6"; "7"];
        File (gp_name "5") 20 ["1"; "2"; "3"; "4"; "5"];
        File token_name 40 ["10"; "20"; "40"]] ]}.

(** No GP directory; a raw input named with the longitude to four
    decimals, or to three. *)
Definition world_raw4 : fsys :=
  {[ tiny_input_dir repo := [File "lat_34.375_lon_-10.3125.dat" 1 ["1 2"; "3 4"]] ]}.

Definition world_raw3 : fsys :=
  {[ tiny_input_dir repo := [File "lat_34.375_lon_-10.312.dat" 1 ["1 2"; "3 4"]] ]}.

Definition world_nan : fsys :=
  {[ tiny_gp_out_dir repo ++ ["baseline"; "lat34.375"] :=
       [File (gp_name "2") 10 ["10"; "nan"; "40"]];
     repo ++ ["examples"; "large_sample"] := [sample_file sample_rows] ]}.

(** Two files that the precise pattern matches, of the same age, the
    first of them older than neither. *)
Definition world_ties : fsys :=
  {[ tiny_gp_out_dir repo ++ ["baseline"; "lat34.375"] :=
       [File (gp_name "2") 5 ["1"; "2"];
        File (gp_name "3") 10 ["10"; "20"; "40"];
        File (gp_name "5") 10 ["1"; "2"; "3"; "4"; "5"]] ]}.

(** Three responses, the second of them [nan], in a file labelled 3. *)
Definition world_dropped : fsys :=
  {[ tiny_gp_out_dir repo ++ ["baseline"; "lat34.375"] :=
       [File (gp_name "3") 10 ["10"; "nan"; "40"]];
     repo ++ ["examples"; "large_sample"] := [sample_file sample_rows] ]}.

(** The record of the run of [main] on [world_dropped]. *)
Definition the_run_dropped : run :=
  run_of argv repo gp_path responses_nan sample_matrix
    plane_surface.

(** The record of the run of [main] on [world]. *)
Definition the_run : run :=
  run_of argv repo gp_path responses sample_matrix plane_surface.

(** The record of the run of [main] on [world_nan]. *)
Definition the_run_nan : run :=
  run_of argv repo gp_path_nan responses_nan sample_matrix plane_surface.

End Demo.

(* ================================================================== *)
(** * Sanity checks of the model *)
(* ================================================================== *)

Example np_var_demo :
  np_var 1 [Fin 1; Fin 2; Fin 4] = Fin (7 # 3).
Proof. reflexivity. Qed.

Example np_cov_demo :
  np_cov01 1 [Fin 1; Fin 2; Fin 4] [Fin 3; Fin 1; Fin (-1)] = Fin (-(3)).
Proof. vm_compute. reflexivity. Qed.

Example np_median_demo :
  np_median [Fin 5; Fin 1; Fin 4; Fin 2] = Fin 3.
Proof. reflexivity. Qed.

Example format_lat : format_f 3 (Fin (34375 # 1000)) = "34.375".
Proof. reflexivity. Qed.
Example format_lon4 : format_f 4 (Fin (- (103125 # 10000))) = "-10.3125".
Proof. reflexivity. Qed.
Example format_lon3 : format_f 3 (Fin (- (103125 # 10000))) = "-10.312".
Proof. reflexivity. Qed.
Example format_small : format_f 3 (Fin (- (1 # 10000))) = "-0.000".
Proof. reflexivity. Qed.
Example format_sign : format_f 0 fmone = "-1".
Proof. reflexivity. Qed.

Example count_demo :
  sample_count_of_name
    "emulated_mean_values_H2SO4_jan_ilat_34.375_ilon_-10.3125_10000_w_o_carb.dat"
  = Some 10000%N.
Proof. vm_compute. reflexivity. Qed.

Example count_raw : sample_count_of_name "lat_34.375_lon_-10.312.dat" = None.
Proof. reflexivity. Qed.

Example pattern_demo :
  (p ← gp_pattern "jan" "34.375" "-10.3125";
   Some (re_match p "emulated_mean_values_H2SO4_jan_ilat_34.375_ilon_-10.3125_10000_w_o_carb.dat",
         re_match p "emulated_mean_values_H2SO4_jan_ilat_34x375_ilon_-10.3125_1_w_o_carb.dat",
         re_match p "emulated_mean_values_H2SO4_jan_ilat_34.375_ilon_-10.312_10000_w_o_carb.dat"))
  = Some (true, true, false).
Proof. vm_compute. reflexivity. Qed.

(* ================================================================== *)
(** * Facts about the arithmetic *)
(* ================================================================== *)

Lemma finite_Fin q : finite (Fin q).
Proof. reflexivity. Qed.


Lemma nonneg_finite v : nonneg v → finite v.
Proof. destruct v; simpl; intros H; try contradiction; reflexivity. Qed.

















Lemma length_center xs : length (center xs) = length xs.
Proof. unfold center. apply length_map. Qed.



Lemma sign_of_range s : sign_of s = fone ∨ sign_of s = fmone ∨ sign_of s = fzero.
Proof.
  unfold sign_of. destruct (fgt s fzero); [auto |].
  destruct (flt s fzero); auto.
Qed.


(* ================================================================== *)
(** * The numpy reductions compute the sample statistics *)
(* ================================================================== *)

Section Exact.
Local Open Scope Q_scope.


Lemma approx_finite v q : approx v q → finite v.
Proof. destruct v; simpl; intros H; try contradiction; reflexivity. Qed.
















(** Completing the square: the residual sum of squares at [b'] is the
    one at [b], plus a square, plus a multiple of the normal equation
    at [b]. *)
Lemma residual_square (ds es : list Q) (b b' : Q) :
  Qsum (zip_with (fun dx dy => (dy - b' * dx) * (dy - b' * dx)) ds es)
  == Qsum (zip_with (fun dx dy => (dy - b * dx) * (dy - b * dx)) ds es)
     + (b - b') * (b - b') * Qsum (zip_with (fun dx _ => dx * dx) ds es)
     + 2 * (b - b')
       * (Qsum (zip_with Qmult ds es)
          - b * Qsum (zip_with (fun dx _ => dx * dx) ds es)).
Proof.
  revert es. induction ds as [|d ds IH]; intros [|e es]; simpl; try ring.
  rewrite IH. ring.
Qed.





Lemma residual_ss_proper xs ys b b' :
  b == b' → residual_ss xs ys b == residual_ss xs ys b'.
Proof.
  intros E. unfold residual_ss. rewrite (residual_square _ _ b' b).
  assert (Hz : b' - b == 0) by (rewrite E; ring).
  rewrite Hz. ring.
Qed.






End Exact.

(* ================================================================== *)
(** * The sweep loop, column by column *)
(* ================================================================== *)

Section Sweep.
Variable gam : surface.
Variable Xn : list (list fval).

Let med := column_medians Xn.
Let step := sweep_step gam Xn med.

(** Whatever the buffer held, after the two assignments it is the
    synthetic design matrix of the column. *)
Lemma assign_design (buf : list (list fval)) (i : nat) :
  length buf = length Xn →
  assign_col (assign_all buf med) i (col i Xn) = synthetic_design Xn i.
Proof.
  unfold assign_col, assign_all, synthetic_design, col. fold med.
  generalize med. intros m. revert buf.
  induction Xn as [|r rows IH]; intros buf Hlen.
  - destruct buf; [reflexivity | discriminate].
  - destruct buf as [|b buf]; [discriminate |]. simpl.
    f_equal. apply IH. simpl in Hlen. lia.
Qed.

Lemma length_synthetic_design i : length (synthetic_design Xn i) = length Xn.
Proof. unfold synthetic_design. apply length_map. Qed.

Lemma step_unfold st i :
  length (X_med st) = length Xn →
  step st i =
  {| variances := <[i := fst (column_outcome gam Xn i)]> (variances st);
     grad_sign := <[i := snd (column_outcome gam Xn i)]> (grad_sign st);
     X_med := if nanstd_lt (col i Xn) std_floor then X_med st
              else synthetic_design Xn i;
     evals := evals st ++ column_evals Xn [i] |}.
Proof.
  intros Hlen. unfold step, sweep_step, column_outcome, column_evals, pair_mask.
  simpl. rewrite (assign_design _ i Hlen).
  destruct (nanstd_lt (col i Xn) std_floor).
  - simpl. rewrite app_nil_r. reflexivity.
  - destruct (Nat.ltb _ 2); reflexivity.
Qed.

Lemma step_X_med_length st i :
  length (X_med st) = length Xn → length (X_med (step st i)) = length Xn.
Proof.
  intros Hlen. rewrite step_unfold by exact Hlen. simpl.
  destruct (nanstd_lt _ _); [exact Hlen | apply length_synthetic_design].
Qed.

(** The state after the columns [0 .. k-1]. *)
Lemma sweep_prefix (N_used k : nat) :
  N_used = length Xn →
  let st := fold_left step (seq 0 k) (sweep_init Xn N_used) in
  length (variances st) = shape1 Xn
  ∧ length (grad_sign st) = shape1 Xn
  ∧ length (X_med st) = length Xn
  ∧ evals st = column_evals Xn (seq 0 k)
  ∧ ∀ i, (i < k)%nat → (i < shape1 Xn)%nat →
      variances st !! i = Some (fst (column_outcome gam Xn i))
      ∧ grad_sign st !! i = Some (snd (column_outcome gam Xn i)).
Proof.
  intros HN. induction k as [|k IH].
  - simpl. rewrite !length_replicate. repeat split; try lia; auto.
  - rewrite seq_S, fold_left_app. simpl.
    destruct IH as (Hv & Hg & Hx & He & Hcols).
    set (st := fold_left step (seq 0 k) (sweep_init Xn N_used)) in *.
    rewrite (step_unfold st k Hx). simpl.
    rewrite !length_insert.
    split; [exact Hv |]. split; [exact Hg |].
    split; [destruct (nanstd_lt _ _); [exact Hx | apply length_synthetic_design] |].
    split.
    { rewrite He. unfold column_evals. rewrite flat_map_app. reflexivity. }
    intros i Hi Hn. destruct (decide (i = k)) as [-> | Hne].
    + rewrite !list_lookup_insert_eq by lia. auto.
    + rewrite !list_lookup_insert_ne by congruence. apply Hcols; lia.
Qed.

(** The loop with its buffers computes, for every column, what the
    column alone determines; and it calls [predict] once for every
    column that is not near-constant, in order, on the synthetic design
    matrix of that column. *)
Lemma sweep_columns (N_used : nat) :
  N_used = length Xn →
  let st := sweep gam Xn N_used in
  length (variances st) = shape1 Xn
  ∧ length (grad_sign st) = shape1 Xn
  ∧ evals st = column_evals Xn (seq 0 (shape1 Xn))
  ∧ ∀ i, (i < shape1 Xn)%nat →
      variances st !! i = Some (fst (column_outcome gam Xn i))
      ∧ grad_sign st !! i = Some (snd (column_outcome gam Xn i)).
Proof.
  intros HN. destruct (sweep_prefix N_used (shape1 Xn) HN) as (Hv & Hg & _ & He & Hc).
  unfold sweep. fold med. fold step. repeat split; auto; apply Hc; auto.
Qed.

End Sweep.

Lemma in_column_evals Xn cols i Xe :
  In (i, Xe) (column_evals Xn cols) ↔
  In i cols ∧ nanstd_lt (col i Xn) std_floor = false ∧ Xe = synthetic_design Xn i.
Proof.
  unfold column_evals. rewrite in_flat_map. split.
  - intros (j & Hj & Hin). destruct (nanstd_lt (col j Xn) std_floor) eqn:E.
    + destruct Hin.
    + destruct Hin as [[= <- <-] | []]. auto.
  - intros (Hi & E & ->). exists i. rewrite E. split; [exact Hi | left; reflexivity].
Qed.



Lemma length_select_mask {A} (mask : list bool) (a : list A) :
  length mask = length a → length (select mask a) = count_nonzero mask.
Proof.
  unfold count_nonzero. revert a. induction mask as [|b mask IH]; intros a Hlen.
  - reflexivity.
  - destruct a as [|x a]; [discriminate |]. simpl in *.
    destruct b; simpl; rewrite IH by lia; reflexivity.
Qed.


(* ================================================================== *)
(** * [main] is the composition of its phases *)
(* ================================================================== *)

Section PhaseFacts.
Context {RT : Runtime}.

Lemma main_phases script a now fs :
  main script a now fs =
  match load_inputs script a fs with
  | (fs1, Ok (REPO, gp_file, y, X)) => analyse a now REPO gp_file y X fs1
  | (fs1, Raise e) => (fs1, Raise e)
  end.
Proof.
  unfold main, load_inputs, analyse, GAM_DIR_of, sample_path_of.
  unfold mbind, M_bind, mret, M_ret, pure, reading, modify, raise.
  destruct (repo_root script) as [REPO|e]; [| reflexivity].
  destruct (find_gp_file _ REPO (ilat a) (ilon a) (month a)) as [gp|e]; [| reflexivity].
  destruct (np_loadtxt _ gp) as [y0|e]; [| reflexivity].
  destruct (load_lhc_first_n _ _ _) as [X0|e]; reflexivity.
Qed.

Lemma load_inputs_ok script a fs fs1 REPO gp y X :
  load_inputs script a fs = (fs1, Ok (REPO, gp, y, X)) →
  repo_root script = Ok REPO
  ∧ fs1 = mkdir (GAM_DIR_of REPO a) fs
  ∧ find_gp_file fs1 REPO (ilat a) (ilon a) (month a) = Ok gp
  ∧ (∃ y0, np_loadtxt fs1 gp = Ok y0 ∧ y = response_vector y0)
  ∧ load_lhc_first_n fs1 (sample_path_of REPO a) (length y) = Ok X.
Proof.
  unfold load_inputs.
  unfold mbind, M_bind, mret, M_ret, pure, reading, modify, raise.
  destruct (repo_root script) as [R|e]; [| discriminate].
  destruct (find_gp_file _ R (ilat a) (ilon a) (month a)) as [g|e] eqn:Eg; [| discriminate].
  destruct (np_loadtxt _ g) as [y0|e] eqn:Ey; [| discriminate].
  destruct (load_lhc_first_n _ _ _) as [X0|e] eqn:EX; [| discriminate].
  intros [= <- <- <- <- <-]. repeat split; eauto.
Qed.

(** An exception before the cleaning leaves the file system as [mkdir]
    left it, or untouched. *)
Lemma load_inputs_fs script a fs fs1 res :
  load_inputs script a fs = (fs1, res) →
  fs1 = fs ∨ ∃ REPO, repo_root script = Ok REPO ∧ fs1 = mkdir (GAM_DIR_of REPO a) fs.
Proof.
  unfold load_inputs.
  unfold mbind, M_bind, mret, M_ret, pure, reading, modify, raise.
  destruct (repo_root script) as [R|e]; [| intros [= <- _]; auto].
  intros H. right. exists R. split; [reflexivity |].
  destruct (find_gp_file _ R (ilat a) (ilon a) (month a)) as [g|e]; [| congruence].
  destruct (np_loadtxt _ g) as [y0|e]; [| congruence].
  destruct (load_lhc_first_n _ _ _) as [X0|e]; congruence.
Qed.

Lemma length_PAR_INDEX : length PAR_INDEX = 37.
Proof. reflexivity. Qed.

(** What [load_lhc_first_n] returns has the rows asked for and 37
    columns. *)
Lemma load_lhc_first_n_shape fs p R X0 :
  load_lhc_first_n fs p R = Ok X0 →
  length X0 = R ∧ Forall (fun r => length r = 37) X0.
Proof.
  unfold load_lhc_first_n. destruct (negb (file_exists fs p)); [discriminate |].
  unfold mbind, result_bind. destruct (np_loadtxt fs p) as [[v|v|rows]|e]; try discriminate.
  destruct (Nat.ltb (shape1 rows) 55); [discriminate |].
  destruct (Nat.ltb (shape0 rows) R) eqn:E; [discriminate |].
  intros [= <-]. apply Nat.ltb_ge in E. unfold shape0 in E. split.
  - unfold index_columns. rewrite length_map, length_take. lia.
  - unfold index_columns. apply Forall_map, Forall_forall. intros r _. reflexivity.
Qed.

End PhaseFacts.

(* ================================================================== *)
(** * The cleaning *)
(* ================================================================== *)

Lemma map_nth_seq (r : list fval) :
  List.map (fun j => nth j r NaN) (seq 0 (length r)) = r.
Proof.
  induction r as [|x r IH]; [reflexivity |].
  simpl. f_equal. rewrite <- seq_shift, List.map_map. exact IH.
Qed.

Lemma zip_with_and_col (f : list fval → fval → bool) (k : nat) X0 (y0 : list fval) :
  zip_with andb (zip_with f X0 y0) (List.map isfinite (col k X0))
  = zip_with (fun r v => f r v && isfinite (nth k r NaN)) X0 y0.
Proof.
  revert y0. induction X0 as [|r X0 IH]; intros y0; [reflexivity |].
  destruct y0 as [|v y0]; [reflexivity |]. simpl. f_equal. apply IH.
Qed.

Lemma clean_mask_prefix X0 y0 k :
  length X0 = length y0 →
  fold_left (fun mask j => zip_with andb mask (List.map isfinite (col j X0)))
    (seq 0 k) (List.map isfinite y0)
  = zip_with
      (fun r v => isfinite v
                  && forallb isfinite (List.map (fun j => nth j r NaN) (seq 0 k)))
      X0 y0.
Proof.
  intros Hlen. induction k as [|k IH].
  - simpl. revert y0 Hlen. induction X0 as [|r X0 IHX]; intros [|v y0] Hlen;
      try discriminate; [reflexivity |].
    simpl. rewrite andb_true_r. f_equal. apply IHX. simpl in Hlen. lia.
  - rewrite seq_S, fold_left_app. simpl. rewrite IH, zip_with_and_col.
    clear. revert y0. induction X0 as [|r X0 IHX]; intros [|v y0]; try reflexivity.
    simpl. f_equal; [| apply IHX].
    rewrite List.map_app, forallb_app. simpl.
    rewrite andb_true_r, andb_assoc. reflexivity.
Qed.

(** The mask the loop over the columns builds is the mask of the rows
    that are finite throughout. *)
Lemma clean_mask_rows X0 y0 :
  length X0 = length y0 →
  Forall (fun r => length r = shape1 X0) X0 →
  clean_mask X0 y0 = zip_with all_finite_row X0 y0.
Proof.
  intros Hlen Hw. unfold clean_mask. rewrite clean_mask_prefix by exact Hlen.
  generalize dependent (shape1 X0). intros w Hw. clear Hlen. revert y0.
  induction Hw as [|r X0 Hr _ IH]; intros [|v y0]; try reflexivity.
  simpl. f_equal; [| apply IH].
  unfold all_finite_row. rewrite <- Hr, map_nth_seq. reflexivity.
Qed.

Lemma select_zip_with {A B} (f : A → B → bool) (l : list A) (k : list B) :
  zip (select (zip_with f l k) l) (select (zip_with f l k) k)
  = List.filter (fun p => f p.1 p.2) (zip l k).
Proof.
  revert k. induction l as [|a l IH]; intros [|b k]; try reflexivity.
  simpl. destruct (f a b); simpl; rewrite IH; reflexivity.
Qed.

Lemma select_sublist {A} (mask : list bool) (l : list A) :
  sublist (select mask l) l.
Proof.
  revert l. induction mask as [|b mask IH]; intros [|a l]; simpl;
    try apply sublist_nil_l.
  destruct b; [apply sublist_skip | apply sublist_cons]; apply IH.
Qed.

Lemma select_rows_finite X0 y0 :
  Forall (Forall finite) (select (zip_with all_finite_row X0 y0) X0).
Proof.
  revert y0. induction X0 as [|r X0 IH]; intros [|v y0]; simpl; try constructor.
  destruct (all_finite_row r v) eqn:E; [| apply IH].
  constructor; [| apply IH].
  unfold all_finite_row in E. apply andb_true_iff in E as [_ E].
  apply Forall_forall. intros x Hx. rewrite forallb_forall in E.
  apply E, list_elem_of_In, Hx.
Qed.

Lemma select_responses_finite X0 y0 :
  Forall finite (select (zip_with all_finite_row X0 y0) y0).
Proof.
  revert y0. induction X0 as [|r X0 IH]; intros [|v y0]; simpl; try constructor.
  destruct (all_finite_row r v) eqn:E; [| apply IH].
  constructor; [| apply IH].
  unfold all_finite_row in E. apply andb_true_iff in E as [E _]. exact E.
Qed.

Lemma np_any_select {A} (mask : list bool) (l : list A) :
  length mask = length l → (np_any mask = false ↔ select mask l = []).
Proof.
  unfold np_any. revert l. induction mask as [|b mask IH]; intros [|a l] Hlen;
    try discriminate; simpl; [tauto |].
  destruct b; simpl; [split; discriminate |]. apply IH. simpl in Hlen. lia.
Qed.

Lemma select_width w mask (X0 : list (list fval)) :
  Forall (fun r => length r = w) X0 →
  Forall (fun r => length r = w) (select mask X0).
Proof.
  intros H. rewrite Forall_forall in H. apply Forall_forall. intros r Hr.
  apply H. eapply elem_of_sublist; [exact Hr | apply select_sublist].
Qed.

(* ================================================================== *)
(** * Successful runs *)
(* ================================================================== *)

Section Runs.
Context {RT : Runtime}.

Lemma mkdir_lookup d fs :
  mkdir d fs !! d = Some (default [] (fs !! d)).
Proof.
  unfold mkdir. destruct (fs !! d) eqn:E; simpl; [exact E |].
  apply lookup_insert_eq.
Qed.

Lemma mkdir_lookup_ne d d' fs : d ≠ d' → mkdir d fs !! d' = fs !! d'.
Proof.
  intros H. unfold mkdir. destruct (fs !! d); [reflexivity |].
  apply lookup_insert_ne, H.
Qed.

(** [analyse] when rows survive and the fit succeeds. *)
Lemma analyse_run a now REPO gp y0 X0 g l fs1 :
  np_any (clean_mask X0 y0) = true →
  LinearGAM_fit (select (clean_mask X0 y0) X0) (select (clean_mask X0 y0) y0) = Some g →
  fs1 !! GAM_DIR_of REPO a = Some l →
  let r := run_of a REPO gp y0 X0 g in
  analyse a now REPO gp y0 X0 fs1
  = (<[GAM_DIR_of REPO a :=
         put_file (sign_file now r) (put_file (var_file now r) l)]> fs1, Ok r).
Proof.
  intros Hany Hfit Hdir r. unfold analyse. rewrite Hany, Hfit. simpl.
  unfold mbind, M_bind, np_savetxt, write_file. simpl. rewrite Hdir.
  rewrite lookup_insert_eq. rewrite insert_insert_eq. reflexivity.
Qed.

Lemma analyse_ok a now REPO gp y0 X0 fs1 fs' r :
  analyse a now REPO gp y0 X0 fs1 = (fs', Ok r) →
  np_any (clean_mask X0 y0) = true
  ∧ ∃ g, LinearGAM_fit (select (clean_mask X0 y0) X0)
           (select (clean_mask X0 y0) y0) = Some g
         ∧ r = run_of a REPO gp y0 X0 g.
Proof.
  unfold analyse. destruct (np_any (clean_mask X0 y0)); simpl; [| discriminate].
  destruct (LinearGAM_fit _ _) as [g|]; [| discriminate].
  unfold mbind, M_bind, np_savetxt, mret, M_ret.
  destruct (write_file now _ _ fs1) as [fs2|e]; [| discriminate].
  destruct (write_file now _ _ fs2) as [fs3|e]; [| discriminate].
  intros [= _ <-]. split; [reflexivity |]. exists g. split; reflexivity.
Qed.

(** A run that succeeds: its inputs, and the record it returns. *)
Lemma main_ok script a now fs fs' r :
  main script a now fs = (fs', Ok r) →
  ∃ REPO g,
    load_inputs script a fs
      = (mkdir (GAM_DIR_of REPO a) fs, Ok (REPO, gp_file r, y r, X r))
    ∧ np_any (clean_mask (X r) (y r)) = true
    ∧ LinearGAM_fit (Xn r) (yn r) = Some g
    ∧ r = run_of a REPO (gp_file r) (y r) (X r) g
    ∧ fs' = <[GAM_DIR_of REPO a :=
                put_file (sign_file now r)
                  (put_file (var_file now r) (default [] (fs !! GAM_DIR_of REPO a)))]>
              (mkdir (GAM_DIR_of REPO a) fs).
Proof.
  rewrite main_phases.
  destruct (load_inputs script a fs) as [fs1 [[[[REPO gp] y0] X0]|e]] eqn:E;
    [| discriminate].
  intros H. destruct (load_inputs_ok _ _ _ _ _ _ _ _ E) as (_ & -> & _).
  destruct (analyse_ok _ _ _ _ _ _ _ _ _ H) as (Hany & g & Hfit & ->).
  exists REPO, g. simpl. repeat split; auto.
  rewrite (analyse_run a now REPO gp y0 X0 g _ _ Hany Hfit (mkdir_lookup _ fs)) in H.
  injection H as <-. reflexivity.
Qed.

(** The shape of the data of a successful run. *)
Lemma run_shape script a now fs fs' r :
  main script a now fs = (fs', Ok r) →
  length (X r) = length (y r)
  ∧ Forall (fun row => length row = 37) (X r)
  ∧ mask r = zip_with all_finite_row (X r) (y r)
  ∧ Xn r = select (mask r) (X r)
  ∧ yn r = select (mask r) (y r)
  ∧ length (yn r) = length (Xn r)
  ∧ Xn r ≠ []
  ∧ shape1 (Xn r) = 37
  ∧ final r = sweep (gam r) (Xn r) (length (Xn r)).
Proof.
  intros H. destruct (main_ok _ _ _ _ _ _ H) as (REPO & g & Hin & Hany & Hfit & Hr & _).
  destruct (load_inputs_ok _ _ _ _ _ _ _ _ Hin) as (_ & _ & _ & _ & HX).
  destruct (load_lhc_first_n_shape _ _ _ _ HX) as (Hlen & Hw).
  assert (Hmask : clean_mask (X r) (y r) = zip_with all_finite_row (X r) (y r)).
  { apply clean_mask_rows; [exact Hlen |].
    destruct (X r) as [|row rows]; [constructor |]. simpl.
    inversion Hw as [|? ? Hrow Hrows]; subst.
    constructor; [reflexivity |]. rewrite Hrow. exact Hrows. }
  assert (HXn : Xn r = select (clean_mask (X r) (y r)) (X r)) by (rewrite Hr at 1; reflexivity).
  assert (Hyn : yn r = select (clean_mask (X r) (y r)) (y r)) by (rewrite Hr at 1; reflexivity).
  assert (Hm : mask r = clean_mask (X r) (y r)) by (rewrite Hr at 1; reflexivity).
  assert (Hml : length (clean_mask (X r) (y r)) = length (X r)).
  { rewrite Hmask, length_zip_with. lia. }
  assert (Hne : Xn r ≠ []).
  { rewrite HXn. intros Hnil. apply (np_any_select _ _ Hml) in Hnil. congruence. }
  assert (Hlens : length (yn r) = length (Xn r)).
  { rewrite HXn, Hyn, !length_select_mask by lia. reflexivity. }
  assert (Hw' : Forall (fun row => length row = 37) (Xn r)).
  { rewrite HXn. apply select_width, Hw. }
  split; [exact Hlen |]. split; [exact Hw |]. split; [congruence |].
  split; [congruence |]. split; [congruence |]. split; [exact Hlens |].
  split; [exact Hne |]. split.
  - destruct (Xn r) as [|row rows]; [congruence |]. simpl.
    inversion Hw'; subst; assumption.
  - rewrite <- Hlens. rewrite Hr. reflexivity.
Qed.

End Runs.

Section RunColumns.
Context {RT : Runtime}.

(** The vectors of a successful run, entry by entry. *)
Lemma run_columns script a now fs fs' r :
  main script a now fs = (fs', Ok r) →
  length (variances (final r)) = 37
  ∧ length (grad_sign (final r)) = 37
  ∧ evals (final r) = column_evals (Xn r) (seq 0 37)
  ∧ ∀ i, (i < 37)%nat →
      variances (final r) !! i = Some (fst (column_outcome (gam r) (Xn r) i))
      ∧ grad_sign (final r) !! i = Some (snd (column_outcome (gam r) (Xn r) i)).
Proof.
  intros H.
  destruct (run_shape _ _ _ _ _ _ H) as (_ & _ & _ & _ & _ & _ & _ & Hw & Hfin).
  destruct (sweep_columns (gam r) (Xn r) (length (Xn r)) eq_refl) as (Hv & Hg & He & Hc).
  rewrite <- Hfin, Hw in *. auto.
Qed.



End RunColumns.

Lemma length_col i (m : list (list fval)) : length (col i m) = length m.
Proof. unfold col. apply length_map. Qed.





Lemma column_outcome_sign g Xn i :
  let s := snd (column_outcome g Xn i) in s = fone ∨ s = fmone ∨ s = fzero.
Proof.
  unfold column_outcome. destruct (nanstd_lt _ _); [simpl; auto |].
  destruct (Nat.ltb _ 2); simpl; [auto | apply sign_of_range].
Qed.




(* ================================================================== *)
(** * The files a run writes *)
(* ================================================================== *)

Lemma lookup_put_same f l : lookup_file (put_file f l) (fname f) = Some f.
Proof.
  unfold lookup_file. induction l as [|g l IH]; simpl.
  - rewrite String.eqb_refl. reflexivity.
  - destruct (String.eqb (fname g) (fname f)) eqn:E; simpl.
    + rewrite String.eqb_refl. reflexivity.
    + rewrite E. exact IH.
Qed.

Lemma lookup_put_other f l name :
  fname f ≠ name → lookup_file (put_file f l) name = lookup_file l name.
Proof.
  intros Hne. unfold lookup_file. induction l as [|g l IH]; simpl.
  - apply String.eqb_neq in Hne. rewrite Hne. reflexivity.
  - destruct (String.eqb (fname g) (fname f)) eqn:E; simpl.
    + apply String.eqb_eq in E. rewrite E.
      apply String.eqb_neq in Hne. rewrite Hne. reflexivity.
    + rewrite IH. reflexivity.
Qed.

(** The two output names differ, whatever the month, the label and the
    coordinates. *)
Lemma out_names_differ m n la lo :
  out_name "GAM_gradient_signs" m n la lo ≠ out_name "GAM_variances" m n la lo.
Proof. apply String.eqb_neq. reflexivity. Qed.

Section Outputs.
Context {RT : Runtime}.

(** After a successful run both files are in the output directory of
    the latitude, with the vectors of the run as their lines. *)
Lemma main_files script a now fs fs' r :
  main script a now fs = (fs', Ok r) →
  stat fs' (out_var r) = Some (var_file now r)
  ∧ stat fs' (out_sign r) = Some (sign_file now r)
  ∧ pdir (out_var r) = pdir (out_sign r)
  ∧ ∀ d, d ≠ pdir (out_var r) → fs' !! d = fs !! d.
Proof.
  intros H. destruct (main_ok _ _ _ _ _ _ H) as (REPO & g & _ & _ & _ & Hr & ->).
  assert (Hv : pdir (out_var r) = GAM_DIR_of REPO a) by (rewrite Hr; reflexivity).
  assert (Hs : pdir (out_sign r) = GAM_DIR_of REPO a) by (rewrite Hr; reflexivity).
  unfold stat. rewrite Hv, Hs, !lookup_insert_eq. simpl.
  split; [| split; [| split; [reflexivity |]]].
  - rewrite lookup_put_other.
    + apply (lookup_put_same (var_file now r)).
    + simpl. rewrite Hr. simpl. apply out_names_differ.
  - apply (lookup_put_same (sign_file now r)).
  - intros d Hd. rewrite lookup_insert_ne by congruence.
    apply mkdir_lookup_ne. congruence.
Qed.

End Outputs.

(* ================================================================== *)
(** * The sensitivity estimator *)
(* ================================================================== *)

Lemma lookup_map {A B} (f : A → B) (l : list A) (i : nat) :
  List.map f l !! i = f <$> (l !! i).
Proof.
  revert i. induction l as [|x l IH]; intros [|i]; simpl; auto.
Qed.

Section Estimator.
Context {RT : Runtime}.


End Estimator.

Lemma run_from_result {RT : Runtime} script a now fs r :
  snd (main script a now fs) = Ok r →
  main script a now fs = (fst (main script a now fs), Ok r).
Proof.
  destruct (main script a now fs) as [fs' res]. simpl. congruence.
Qed.


Section Importance.
Context {RT : Runtime}.



(** C10.  Every call of [predict] in a run that succeeds is made for a
    column [i] that is not near-constant, on a matrix with one row per
    cleaned row, each of 37 entries: the entry of column [i] is the
    observed one, every other entry is the median of its column of
    [Xn].  So what an earlier turn wrote into the buffer is gone. *)
Theorem sweep_buffer_is_reset script a now fs fs' r i Xe :
  main script a now fs = (fs', Ok r) →
  In (i, Xe) (evals (final r)) →
  (i < 37)%nat
  ∧ nanstd_lt (col i (Xn r)) std_floor = false
  ∧ length Xe = length (Xn r)
  ∧ ∀ k row, Xe !! k = Some row →
      length row = 37
      ∧ ∃ obs, Xn r !! k = Some obs
        ∧ ∀ j, (j < 37)%nat →
            row !! j = if decide (j = i) then obs !! i
                       else Some (np_median (col j (Xn r))).
Proof.
  intros Hrun Hin.
  destruct (run_columns _ _ _ _ _ _ Hrun) as (_ & _ & Hev & _).
  destruct (run_shape _ _ _ _ _ _ Hrun) as (_ & Hw & _ & HXn & _ & _ & _ & Hs & _).
  rewrite Hev in Hin. apply in_column_evals in Hin as (Hi & Hstd & ->).
  apply in_seq in Hi. split; [lia |]. split; [exact Hstd |].
  split; [apply length_synthetic_design |].
  intros k row Hrow. unfold synthetic_design in Hrow.
  rewrite lookup_map in Hrow.
  destruct (Xn r !! k) as [obs|] eqn:Hobs; [| discriminate].
  injection Hrow as <-.
  assert (Hmed : length (column_medians (Xn r)) = 37).
  { unfold column_medians. rewrite length_map, length_seq. exact Hs. }
  assert (Hobs_w : length obs = 37).
  { assert (Hall : Forall (fun row => length row = 37) (Xn r))
      by (rewrite HXn; apply select_width, Hw).
    rewrite Forall_forall in Hall. apply Hall.
    eapply list_elem_of_lookup_2. exact Hobs. }
  split; [rewrite length_insert; exact Hmed |].
  exists obs. split; [reflexivity |].
  intros j Hj. destruct (decide (j = i)) as [-> | Hne].
  - rewrite list_lookup_insert_eq by lia.
    destruct (lookup_lt_is_Some_2 obs i ltac:(lia)) as [x Hx].
    rewrite Hx. f_equal. apply nth_lookup_Some, Hx.
  - rewrite list_lookup_insert_ne by congruence.
    unfold column_medians. rewrite lookup_map, Hs.
    rewrite lookup_seq_lt by lia. reflexivity.
Qed.

End Importance.



Lemma sweep_buffer_is_reset_witness :
  snd (main (RT := Demo.runtime) Demo.script Demo.argv Demo.noon Demo.world)
    = Ok Demo.the_run
  ∧ In (2%nat, synthetic_design (Xn Demo.the_run) 2)
       (evals (final Demo.the_run))
  ∧ ∀ k row, synthetic_design (Xn Demo.the_run) 2 !! k = Some row →
      length row = 37
      ∧ ∃ obs, Xn Demo.the_run !! k = Some obs
        ∧ ∀ j, (j < 37)%nat →
            row !! j = if decide (j = 2%nat) then obs !! 2%nat
                       else Some (np_median (col j (Xn Demo.the_run))).
Proof.
  assert (E : snd (main (RT := Demo.runtime) Demo.script Demo.argv Demo.noon Demo.world)
              = Ok Demo.the_run)
    by (vm_compute; reflexivity).
  assert (Hin : In (2%nat, synthetic_design (Xn Demo.the_run) 2)
                   (evals (final Demo.the_run)))
    by (vm_compute; right; left; reflexivity).
  destruct (sweep_buffer_is_reset (RT := Demo.runtime) _ _ _ _ _ _ _ _
              (run_from_result _ _ _ _ _ E) Hin) as (_ & _ & _ & Hrows).
  exact (conj E (conj Hin Hrows)).
Defined.

(* ================================================================== *)
(** * The data cleaner *)
(* ================================================================== *)

Section Cleaner.
Context {RT : Runtime}.

(** C5.  Once the inputs are loaded, the mask keeps exactly the rows
    whose response and 37 parameters are all finite: the cleaned data
    are those rows in their order, and no more than there were.  The
    run raises "no finite rows" exactly when no row is kept (so for a
    response vector that is empty or has no finite entry), and then the
    file system is as [mkdir] left it: nothing is written. *)
Theorem cleaner_keeps_finite_rows script a now fs fs1 REPO gp y0 X0 :
  load_inputs script a fs = (fs1, Ok (REPO, gp, y0, X0)) →
  let mask := clean_mask X0 y0 in
  mask = zip_with all_finite_row X0 y0
  ∧ zip (select mask X0) (select mask y0)
    = List.filter (fun p => all_finite_row p.1 p.2) (zip X0 y0)
  ∧ sublist (select mask X0) X0
  ∧ sublist (select mask y0) y0
  ∧ (length (select mask X0) ≤ length X0)%nat
  ∧ Forall (Forall finite) (select mask X0)
  ∧ Forall finite (select mask y0)
  ∧ (snd (main script a now fs) = Raise NoFiniteRows ↔ select mask X0 = [])
  ∧ (select mask X0 = [] →
     fst (main script a now fs) = mkdir (GAM_DIR_of REPO a) fs
     ∧ (∀ d, d ≠ GAM_DIR_of REPO a →
          fst (main script a now fs) !! d = fs !! d)
     ∧ fst (main script a now fs) !! GAM_DIR_of REPO a
       = Some (default [] (fs !! GAM_DIR_of REPO a)))
  ∧ (Forall (fun v => isfinite v = false) y0 →
     snd (main script a now fs) = Raise NoFiniteRows).
Proof.
  intros Hin mask.
  destruct (load_inputs_ok _ _ _ _ _ _ _ _ Hin) as (_ & Hfs1 & _ & _ & HX).
  destruct (load_lhc_first_n_shape _ _ _ _ HX) as (Hlen & Hw).
  assert (Hmask : mask = zip_with all_finite_row X0 y0).
  { apply clean_mask_rows; [exact Hlen |].
    destruct X0 as [|row rows]; [constructor |]. simpl.
    inversion Hw as [|? ? Hrow Hrows]; subst.
    constructor; [reflexivity |]. rewrite Hrow. exact Hrows. }
  assert (Hml : length mask = length X0).
  { rewrite Hmask, length_zip_with. lia. }
  assert (Hmain : main script a now fs = analyse a now REPO gp y0 X0 fs1).
  { rewrite main_phases, Hin. reflexivity. }
  assert (Hempty : select mask X0 = [] →
                   main script a now fs = (fs1, Raise NoFiniteRows)).
  { intros Hnil. apply (np_any_select _ _ Hml) in Hnil.
    rewrite Hmain. unfold analyse. fold mask. rewrite Hnil. reflexivity. }
  split; [exact Hmask |].
  split; [rewrite Hmask; apply select_zip_with |].
  split; [apply select_sublist |].
  split; [apply select_sublist |].
  split; [apply sublist_length, select_sublist |].
  split; [rewrite Hmask; apply select_rows_finite |].
  split; [rewrite Hmask; apply select_responses_finite |].
  split; [| split].
  - split.
    + intros Hraise. apply (np_any_select _ _ Hml).
      destruct (np_any mask) eqn:Hany; [| reflexivity].
      rewrite Hmain in Hraise. unfold analyse in Hraise. fold mask in Hraise.
      rewrite Hany in Hraise. simpl in Hraise.
      destruct (LinearGAM_fit _ _) as [g|]; [| discriminate].
      unfold mbind, M_bind, np_savetxt, mret, M_ret in Hraise.
      unfold write_file in Hraise. simpl in Hraise.
      rewrite Hfs1, mkdir_lookup in Hraise. rewrite lookup_insert_eq in Hraise.
      discriminate.
    + intros Hnil. rewrite (Hempty Hnil). reflexivity.
  - intros Hnil. rewrite (Hempty Hnil). simpl. rewrite Hfs1.
    split; [reflexivity |]. split.
    + intros d Hd. apply mkdir_lookup_ne. congruence.
    + apply mkdir_lookup.
  - intros Hnan. rewrite Hempty; [reflexivity |].
    rewrite Hmask. clear -Hnan. revert X0.
    induction Hnan as [|v y0 Hv _ IH]; intros [|row X0]; try reflexivity.
    simpl. unfold all_finite_row at 1. rewrite Hv. simpl. apply IH.
Qed.

End Cleaner.

Lemma inputs_from_result {RT : Runtime} script a fs res :
  snd (load_inputs script a fs) = Ok res →
  load_inputs script a fs = (fst (load_inputs script a fs), Ok res).
Proof.
  destruct (load_inputs script a fs) as [fs' r]. simpl. congruence.
Qed.

(** The run of [Demo.world_nan]: the second of three rows has a
    response that is not a number, and is dropped. *)
Lemma cleaner_keeps_finite_rows_witness :
  snd (load_inputs (RT := Demo.runtime) Demo.script Demo.argv Demo.world_nan)
    = Ok (Demo.repo, Demo.gp_path_nan, Demo.responses_nan, Demo.sample_matrix)
  ∧ clean_mask Demo.sample_matrix Demo.responses_nan
    = zip_with all_finite_row Demo.sample_matrix Demo.responses_nan
  ∧ sublist (select (clean_mask Demo.sample_matrix Demo.responses_nan)
               Demo.sample_matrix) Demo.sample_matrix
  ∧ (snd (main (RT := Demo.runtime) Demo.script Demo.argv Demo.noon Demo.world_nan)
       = Raise NoFiniteRows
     ↔ select (clean_mask Demo.sample_matrix Demo.responses_nan)
         Demo.sample_matrix = []).
Proof.
  assert (E : snd (load_inputs (RT := Demo.runtime) Demo.script Demo.argv Demo.world_nan)
              = Ok (Demo.repo, Demo.gp_path_nan, Demo.responses_nan, Demo.sample_matrix))
    by (vm_compute; reflexivity).
  destruct (cleaner_keeps_finite_rows (RT := Demo.runtime) _ _ Demo.noon _ _ _ _ _ _
              (inputs_from_result _ _ _ _ E))
    as (Hm & _ & Hsub & _ & _ & _ & _ & Hiff & _).
  exact (conj E (conj Hm (conj Hsub Hiff))).
Defined.

(* ================================================================== *)
(** * The sample loader *)
(* ================================================================== *)

Section Loader.
Context {RT : Runtime}.

(** [np.loadtxt] gives a matrix only for two rows or more (of two
    columns or more). *)
Lemma squeeze_matrix rows :
  (2 ≤ length rows)%nat → (2 ≤ shape1 rows)%nat → squeeze rows = Arr2 rows.
Proof.
  destruct rows as [|r1 [|r2 rows]]; simpl; try lia.
  destruct r1 as [|a [|b r1]]; simpl; try lia. reflexivity.
Qed.

Lemma squeeze_not_matrix rows :
  (length rows < 2)%nat → ndim (squeeze rows) ≠ 2%nat.
Proof.
  destruct rows as [|r1 [|r2 rows]]; simpl; intros H; [discriminate | | lia].
  destruct r1 as [|a [|b r1]]; discriminate.
Qed.

Lemma squeeze_narrow rows rows' :
  squeeze rows = Arr2 rows' → rows' = rows.
Proof.
  destruct rows as [|r1 [|r2 rows]]; simpl.
  - discriminate.
  - destruct r1 as [|a [|b r1]]; discriminate.
  - destruct r1 as [|a [|b r1]]; try discriminate; congruence.
Qed.

(** C4, as the code has it.  The loader raises [FileNotFoundError] iff
    the file is missing.  For a file that is there and holds a matrix of
    numbers, it raises the [ValueError] "LHC must be [n,>=55]" iff the
    matrix has fewer than two rows or fewer than 55 columns, the
    [ValueError] "LHC has only k rows" iff it passes that test and has
    fewer than [R] rows, and otherwise returns rows [0 .. R-1] in their
    order, restricted to the 37 columns of [PAR_INDEX] in their order. *)
Theorem sample_loader_contract fs p R :
  (load_lhc_first_n fs p R = Raise SampleNotFound ↔ stat fs p = None)
  ∧ ∀ f rows, stat fs p = Some f → parsed_rows f = Some rows →
      (load_lhc_first_n fs p R = Raise ShapeError
       ↔ (length rows < 2)%nat ∨ (shape1 rows < 55)%nat)
      ∧ (load_lhc_first_n fs p R = Raise TooFewRows
         ↔ (2 ≤ length rows)%nat ∧ (55 ≤ shape1 rows)%nat ∧ (length rows < R)%nat)
      ∧ ((2 ≤ length rows)%nat → (55 ≤ shape1 rows)%nat → (R ≤ length rows)%nat →
         load_lhc_first_n fs p R = Ok (index_columns PAR_INDEX (take R rows))
         ∧ length (index_columns PAR_INDEX (take R rows)) = R
         ∧ Forall (fun r => length r = 37)
             (index_columns PAR_INDEX (take R rows))).
Proof.
  unfold load_lhc_first_n, file_exists, np_loadtxt. split.
  - destruct (stat fs p) as [f|] eqn:Hs.
    + rewrite bool_decide_true by eauto. simpl.
      split; [| discriminate].
      unfold mbind, result_bind.
      destruct (parsed_rows f) as [rows|]; [| discriminate].
      destruct (squeeze rows) as [v|v|m]; try discriminate.
      destruct (Nat.ltb _ 55); [discriminate |].
      destruct (Nat.ltb _ R); discriminate.
    + rewrite bool_decide_false by (intros [x Hx]; discriminate). simpl.
      split; reflexivity.
  - intros f rows Hs Hrows. rewrite Hs, Hrows.
    rewrite bool_decide_true by eauto. simpl. unfold mbind, result_bind.
    destruct (Nat.lt_ge_cases (length rows) 2) as [Hshort | Hlong].
    { pose proof (squeeze_not_matrix rows Hshort) as Hnd.
      destruct (squeeze rows) as [v|v|m]; simpl in Hnd; try congruence.
      - split; [split; [auto | reflexivity] |].
        split; [split; [discriminate | lia] |]. lia.
      - split; [split; [auto | reflexivity] |].
        split; [split; [discriminate | lia] |]. lia. }
    destruct (Nat.lt_ge_cases (shape1 rows) 55) as [Hnarrow | Hwide].
    { assert (Hsh : match squeeze rows with
                    | Arr2 m => Nat.ltb (shape1 m) 55 = true
                    | _ => True
                    end).
      { destruct (squeeze rows) as [v|v|m] eqn:Hq; auto.
        apply squeeze_narrow in Hq as ->. apply Nat.ltb_lt, Hnarrow. }
      destruct (squeeze rows) as [v|v|m].
      - split; [split; [auto | reflexivity] |].
        split; [split; [discriminate | lia] |]. lia.
      - split; [split; [auto | reflexivity] |].
        split; [split; [discriminate | lia] |]. lia.
      - rewrite Hsh.
        split; [split; [auto | reflexivity] |].
        split; [split; [discriminate | lia] |]. lia. }
    rewrite squeeze_matrix by lia.
    assert (Hw : Nat.ltb (shape1 rows) 55 = false) by (apply Nat.ltb_ge, Hwide).
    rewrite Hw. unfold shape0.
    destruct (Nat.ltb (length rows) R) eqn:HR.
    + apply Nat.ltb_lt in HR.
      split; [split; [discriminate | lia] |].
      split; [split; [lia | reflexivity] |]. lia.
    + apply Nat.ltb_ge in HR.
      split; [split; [discriminate | lia] |].
      split; [split; [discriminate | lia] |].
      intros _ _ _. split; [reflexivity |]. unfold index_columns. split.
      * rewrite length_map, length_take. lia.
      * apply Forall_map, Forall_forall. intros r _. reflexivity.
Qed.

End Loader.

(** A file with one row of 55 numbers, of which one row is asked for:
    none of the three conditions of the specification holds, and the
    loader raises. *)
Lemma loader_contract_fails_on_single_row :
  ¬ loader_contract_as_specified (RT := Demo.runtime) Demo.world_one_row
      (default_samples Demo.repo) 1.
Proof.
  intros H. vm_compute in H. specialize (H _ eq_refl). vm_compute in H.
  discriminate H.
Qed.

(** The loader on the sample of [Demo.world], four rows of 55 numbers,
    asked for three rows. *)
Lemma sample_loader_contract_witness :
  load_lhc_first_n (RT := Demo.runtime) Demo.world (default_samples Demo.repo) 3
  = Ok Demo.sample_matrix.
Proof.
  assert (Hs : stat Demo.world (default_samples Demo.repo)
               = Some (Demo.sample_file Demo.sample_rows))
    by (vm_compute; reflexivity).
  assert (Hp : parsed_rows (RT := Demo.runtime) (Demo.sample_file Demo.sample_rows)
               = Some Demo.raw_matrix)
    by (vm_compute; reflexivity).
  destruct (sample_loader_contract (RT := Demo.runtime) Demo.world
              (default_samples Demo.repo) 3) as (_ & H).
  destruct (H _ _ Hs Hp) as (_ & _ & Hok).
  destruct Hok as (Hok & _).
  - apply Nat.leb_le. vm_compute. reflexivity.
  - apply Nat.leb_le. vm_compute. reflexivity.
  - apply Nat.leb_le. vm_compute. reflexivity.
  - rewrite Hok. vm_compute. reflexivity.
Defined.

(* ================================================================== *)
(** * The response loader: discovery of the GP file *)
(* ================================================================== *)

Lemma first_nonempty_map_pair {A} (root : list string) (ls : list (list A)) :
  first_nonempty (List.map (List.map (pair root)) ls)
  = List.map (pair root) (first_nonempty ls).
Proof.
  induction ls as [|l ls IH]; [reflexivity |].
  destruct l; simpl; [exact IH | reflexivity].
Qed.

Lemma scan_relaxed_tiers pats root l :
  scan_relaxed pats root l []
  = List.map (pair root)
      (first_nonempty (List.map (fun pat => pattern_tier pat l) pats)).
Proof.
  induction pats as [|pat pats IH]; [reflexivity |].
  simpl. unfold append_matches. simpl.
  destruct (pattern_tier pat l); simpl; [exact IH | reflexivity].
Qed.

Lemma first_nonempty_app {A} (ls ks : list (list A)) :
  first_nonempty (ls ++ ks)
  = match first_nonempty ls with [] => first_nonempty ks | l => l end.
Proof.
  induction ls as [|l ls IH]; simpl.
  - destruct (first_nonempty ks); reflexivity.
  - destruct l; [exact IH | reflexivity].
Qed.

Lemma scan_root_tiers precise relaxed month la lo root l :
  scan_root precise relaxed month la lo root l []
  = List.map (pair root) (first_nonempty (tiers precise relaxed month la lo l)).
Proof.
  unfold scan_root, tiers, append_matches. simpl.
  destruct (pattern_tier precise l) as [|f fs']; simpl; [| reflexivity].
  rewrite scan_relaxed_tiers, first_nonempty_app.
  destruct (first_nonempty (List.map (fun pat => pattern_tier pat l) relaxed));
    simpl; [| reflexivity].
  destruct (token_tier month la lo l); reflexivity.
Qed.

Lemma search_winners fs precise relaxed month la lo roots :
  search fs precise relaxed month la lo roots []
  = winners fs precise relaxed month la lo roots.
Proof.
  unfold winners. induction roots as [|root roots IH]; [reflexivity |].
  simpl.
  assert (Hrc : root_candidates fs precise relaxed month la lo root
                = match fs !! root with
                  | None => []
                  | Some l =>
                      List.map (pair root)
                        (first_nonempty (tiers precise relaxed month la lo l))
                  end) by reflexivity.
  rewrite Hrc. destruct (fs !! root) as [l|]; [| exact IH].
  rewrite scan_root_tiers.
  destruct (List.map (pair root) _); [exact IH | reflexivity].
Qed.

(** Inserting keeps the elements. *)
Lemma insert_newest_In c l d : In d (insert_newest c l) ↔ d = c ∨ In d l.
Proof.
  induction l as [|e l IH]; simpl; [intuition |].
  destruct (st_mtime c.2 ?= st_mtime e.2)%Q; simpl; rewrite ?IH; intuition.
Qed.

Lemma sort_newest_first_In l d : In d (sort_newest_first l) ↔ In d l.
Proof.
  induction l as [|c l IH]; simpl; [tauto |].
  rewrite insert_newest_In, IH. intuition.
Qed.

Lemma insert_newest_head c l : head_newest l → head_newest (insert_newest c l).
Proof.
  destruct l as [|e l]; simpl; [intros _ d [] |].
  intros He. destruct (st_mtime c.2 ?= st_mtime e.2)%Q eqn:E; simpl.
  - apply Qeq_alt in E. intros d [<- | Hd]; [rewrite E; apply Qle_refl |].
    rewrite E. apply He, Hd.
  - apply Qlt_alt in E. intros d Hd. apply insert_newest_In in Hd as [-> | Hd].
    + apply Qlt_le_weak, E.
    + apply He, Hd.
  - apply Qgt_alt in E. intros d [<- | Hd]; [apply Qlt_le_weak, E |].
    eapply Qle_trans; [apply He, Hd | apply Qlt_le_weak, E].
Qed.

Lemma sort_newest_first_head l : head_newest (sort_newest_first l).
Proof.
  induction l as [|c l IH]; simpl; [exact I | apply insert_newest_head, IH].
Qed.

(** What [candidates[0]] is after the sort: one of the candidates, and
    none of them is newer. *)
Lemma newest_candidate (cs : list candidate) :
  cs ≠ [] →
  ∃ c rest, sort_newest_first cs = c :: rest ∧ In c cs
            ∧ ∀ d, In d cs → (st_mtime d.2 <= st_mtime c.2)%Q.
Proof.
  intros Hne. destruct (sort_newest_first cs) as [|c rest] eqn:E.
  - destruct cs as [|c cs]; [congruence |].
    assert (H : In c (sort_newest_first (c :: cs)))
      by (apply sort_newest_first_In; left; reflexivity).
    rewrite E in H. destruct H.
  - exists c, rest. split; [reflexivity |].
    assert (Hc : In c cs) by (apply sort_newest_first_In; rewrite E; left; reflexivity).
    split; [exact Hc |]. intros d Hd.
    apply sort_newest_first_In in Hd. rewrite E in Hd.
    destruct Hd as [<- | Hd]; [apply Qle_refl |].
    pose proof (sort_newest_first_head cs) as Hh. rewrite E in Hh.
    apply Hh, Hd.
Qed.

Section Discovery.
Context {RT : Runtime}.

(** [find_gp_file] in terms of the candidates the search ends with. *)
Lemma find_gp_file_winners fs repo ilat ilon month precise relaxed1 relaxed2 :
  gp_pattern month (format_f 3 ilat) (format_f 4 ilon) = Some precise →
  gp_pattern month (format_f 3 ilat) (format_f 3 ilon) = Some relaxed1 →
  gp_pattern month (py_repr ilat) (py_repr ilon) = Some relaxed2 →
  find_gp_file fs repo ilat ilon month
  = match winners fs precise [relaxed1; relaxed2] month
            (format_f 3 ilat) (format_f 3 ilon) (search_roots repo ilat) with
    | [] =>
        if file_exists fs (raw_input repo ilat ilon)
        then Ok (raw_input repo ilat ilon) else Raise GPFileNotFound
    | (_ :: _) as cs =>
        match sort_newest_first cs with
        | (root, f) :: _ => Ok (Path root (fname f))
        | [] => Raise IndexError
        end
    end.
Proof.
  intros Hp H1 H2. unfold find_gp_file. rewrite Hp, H1, H2.
  unfold compiled, mbind, result_bind. cbv beta iota.
  rewrite search_winners.
  destruct (winners fs precise [relaxed1; relaxed2] month _ _ _); reflexivity.
Qed.

(** C7, as the code has it.  The three search roots (baseline,
    optimised, plain) are tried in this order and the first root with a
    candidate wins; within a root the tiers are tried in the order
    precise pattern, relaxed patterns, tokens, and the first tier with
    a candidate wins.  Of the winning candidates one that no other is
    newer than is returned.  Without any candidate the raw input is
    returned if it exists, and [FileNotFoundError] is raised exactly
    when there is neither a candidate nor the raw input. *)
Theorem discovery_is_tiered_within_roots fs repo ilat ilon month
    precise relaxed1 relaxed2 :
  gp_pattern month (format_f 3 ilat) (format_f 4 ilon) = Some precise →
  gp_pattern month (format_f 3 ilat) (format_f 3 ilon) = Some relaxed1 →
  gp_pattern month (py_repr ilat) (py_repr ilon) = Some relaxed2 →
  let cs := winners fs precise [relaxed1; relaxed2] month
              (format_f 3 ilat) (format_f 3 ilon) (search_roots repo ilat) in
  let raw := raw_input repo ilat ilon in
  (cs = [] →
   find_gp_file fs repo ilat ilon month
   = if file_exists fs raw then Ok raw else Raise GPFileNotFound)
  ∧ (cs ≠ [] →
     ∃ root f, In (root, f) cs
       ∧ find_gp_file fs repo ilat ilon month = Ok (Path root (fname f))
       ∧ ∀ d, In d cs → (st_mtime d.2 <= st_mtime f)%Q)
  ∧ (find_gp_file fs repo ilat ilon month = Raise GPFileNotFound
     ↔ cs = [] ∧ file_exists fs raw = false).
Proof.
  intros Hp H1 H2 cs raw.
  assert (Hfind : find_gp_file fs repo ilat ilon month
                  = match cs with
                    | [] => if file_exists fs raw then Ok raw else Raise GPFileNotFound
                    | _ :: _ =>
                        match sort_newest_first cs with
                        | (root, f) :: _ => Ok (Path root (fname f))
                        | [] => Raise IndexError
                        end
                    end).
  { rewrite (find_gp_file_winners fs repo ilat ilon month _ _ _ Hp H1 H2).
    fold cs raw. destruct cs; reflexivity. }
  assert (Hwin : cs ≠ [] →
                 ∃ root f, In (root, f) cs
                   ∧ find_gp_file fs repo ilat ilon month = Ok (Path root (fname f))
                   ∧ ∀ d, In d cs → (st_mtime d.2 <= st_mtime f)%Q).
  { intros Hne. destruct (newest_candidate cs Hne) as ([root f] & rest & Hs & Hin & Hmax).
    exists root, f. split; [exact Hin |]. split; [| exact Hmax].
    rewrite Hfind, Hs. destruct cs; [congruence | reflexivity]. }
  split; [intros Hnil; rewrite Hfind, Hnil; reflexivity |].
  split; [exact Hwin |]. split.
  - intros Hraise. destruct cs as [|c cs'] eqn:Ecs.
    + split; [reflexivity |]. rewrite Hfind in Hraise.
      destruct (file_exists fs raw); [discriminate | reflexivity].
    + destruct Hwin as (root & f & _ & Hok & _); [discriminate |]. congruence.
  - intros [Hnil Hraw]. rewrite Hfind, Hnil, Hraw. reflexivity.
Qed.

End Discovery.

(** [Demo.world_two_roots]: the optimised directory holds a file that
    the precise pattern matches, and the file returned is the one of
    the baseline directory, which only the tokens match. *)
Lemma exact_match_not_preferred :
  ¬ exact_match_preferred (RT := Demo.runtime) Demo.world_two_roots Demo.repo
      scenario_lat scenario_lon "jan".
Proof.
  intros H.
  destruct (H (default [] (gp_pattern "jan" "34.375" "-10.3125"))
              (tiny_gp_out_dir Demo.repo ++ ["optimised"; "lat34.375"])
              [File (Demo.gp_name "3") 2 ["10"; "20"; "40"]]
              (File (Demo.gp_name "3") 2 ["10"; "20"; "40"]))
    as (p & Hp & Hm).
  - vm_compute. reflexivity.
  - vm_compute. auto.
  - vm_compute. reflexivity.
  - vm_compute. auto.
  - assert (E : find_gp_file (RT := Demo.runtime) Demo.world_two_roots Demo.repo
                  scenario_lat scenario_lon "jan"
                = Ok (Path (tiny_gp_out_dir Demo.repo ++ ["baseline"; "lat34.375"])
                        Demo.token_name))
      by (vm_compute; reflexivity).
    rewrite E in Hp. injection Hp as <-.
    vm_compute in Hm. discriminate Hm.
Qed.

(** [Demo.world_many]: the newest of the three files the precise
    pattern matches is returned. *)
Lemma discovery_is_tiered_within_roots_witness :
  find_gp_file (RT := Demo.runtime) Demo.world_many Demo.repo
    scenario_lat scenario_lon "jan"
  = Ok (Path (tiny_gp_out_dir Demo.repo ++ ["baseline"; "lat34.375"])
          (Demo.gp_name "7")).
Proof.
  destruct (discovery_is_tiered_within_roots (RT := Demo.runtime)
              Demo.world_many Demo.repo scenario_lat scenario_lon "jan"
              (default [] (gp_pattern "jan" "34.375" "-10.3125"))
              (default [] (gp_pattern "jan" "34.375" "-10.312"))
              (default [] (gp_pattern "jan" "34.375" "-10.3125")))
    as (_ & Hwin & _).
  - vm_compute. reflexivity.
  - vm_compute. reflexivity.
  - vm_compute. reflexivity.
  - destruct Hwin as (root & f & Hin & Hfind & Hmax).
    + vm_compute. discriminate.
    + rewrite Hfind.
      specialize (Hmax (tiny_gp_out_dir Demo.repo ++ ["baseline"; "lat34.375"],
                        File (Demo.gp_name "7") 30 ["1"; "2"; "3"; "4"; "5"; "6"; "7"])).
      vm_compute in Hin, Hmax.
      destruct Hin as [E | [E | [E | []]]]; injection E as <- <-.
      * exfalso. apply Hmax; [right; left; reflexivity | reflexivity].
      * reflexivity.
      * exfalso. apply Hmax; [right; left; reflexivity | reflexivity].
Defined.

Section RawFallback.
Context {RT : Runtime}.

(** C8, as the code has it.  For latitude 34.375, longitude -10.3125
    and month [jan] (whose [repr] are 34.375 and -10.3125): when no
    tier of no search root has a candidate, and the tiny-input
    directory holds [lat_34.375_lon_-10.312.dat] (the longitude with
    three decimals), that raw file is returned. *)
Theorem raw_fallback_scenario fs repo :
  py_repr scenario_lat = "34.375" →
  py_repr scenario_lon = "-10.3125" →
  winners fs scenario_precise [scenario_relaxed; scenario_precise] "jan"
    "34.375" "-10.312" (search_roots repo scenario_lat) = [] →
  file_exists fs (Path (tiny_input_dir repo) "lat_34.375_lon_-10.312.dat") = true →
  find_gp_file fs repo scenario_lat scenario_lon "jan"
  = Ok (Path (tiny_input_dir repo) "lat_34.375_lon_-10.312.dat").
Proof.
  intros Hlat Hlon Hnone Hraw.
  rewrite (find_gp_file_winners fs repo scenario_lat scenario_lon "jan"
             scenario_precise scenario_relaxed scenario_precise).
  - change (format_f 3 scenario_lat) with "34.375".
    change (format_f 3 scenario_lon) with "-10.312".
    rewrite Hnone.
    change (raw_input repo scenario_lat scenario_lon)
      with (Path (tiny_input_dir repo) "lat_34.375_lon_-10.312.dat").
    rewrite Hraw. reflexivity.
  - vm_compute. reflexivity.
  - vm_compute. reflexivity.
  - rewrite Hlat, Hlon. vm_compute. reflexivity.
Qed.

End RawFallback.

(** [Demo.world_raw4]: no GP directory exists and the raw input with
    the four-decimal name does, and the search fails. *)
Lemma raw_fallback_misses_four_decimals :
  ¬ raw_fallback_as_specified (RT := Demo.runtime) Demo.world_raw4 Demo.repo.
Proof.
  intros H.
  assert (E : find_gp_file (RT := Demo.runtime) Demo.world_raw4 Demo.repo
                scenario_lat scenario_lon "jan" = Raise GPFileNotFound)
    by (vm_compute; reflexivity).
  unfold raw_fallback_as_specified in H. rewrite E in H.
  assert (H' : @Raise path GPFileNotFound
               = Ok (Path (tiny_input_dir Demo.repo) "lat_34.375_lon_-10.3125.dat")).
  { apply H; vm_compute; reflexivity. }
  discriminate H'.
Qed.

(** [Demo.world_raw3]: the raw input with the three-decimal name. *)
Lemma raw_fallback_scenario_witness :
  find_gp_file (RT := Demo.runtime) Demo.world_raw3 Demo.repo
    scenario_lat scenario_lon "jan"
  = Ok (Path (tiny_input_dir Demo.repo) "lat_34.375_lon_-10.312.dat").
Proof.
  apply (raw_fallback_scenario (RT := Demo.runtime)); vm_compute; reflexivity.
Defined.

(* ================================================================== *)
(** * The label of the output files *)
(* ================================================================== *)

Section Label.
Context {RT : Runtime}.

(** C6, as the code has it.  When the count recovered from the name of
    the GP file exists and equals the length of the raw response
    vector, it is the label; in every other case the label is the
    number of rows left after cleaning.  Both file names carry this one
    label, between the month and the latitude. *)
Theorem label_of_outputs script a now fs fs' r :
  main script a now fs = (fs', Ok r) →
  N_gp r = sample_count_of_name (pname (gp_file r))
  ∧ (N_gp r = Some (N.of_nat (length (y r))) →
     N_out r = N.of_nat (length (y r)))
  ∧ (N_gp r ≠ Some (N.of_nat (length (y r))) →
     N_out r = N.of_nat (length (yn r)))
  ∧ (let suffix :=
       month a +:+ "_" +:+ dec (Z.of_N (N_out r)) +:+ "_ilat_"
         +:+ format_f 3 (ilat a) +:+ "_ilon_" +:+ format_f 4 (ilon a) +:+ ".dat" in
     pname (out_var r) = "GAM_variances_H2SO4_" +:+ suffix
     ∧ pname (out_sign r) = "GAM_gradient_signs_H2SO4_" +:+ suffix
     ∧ (∃ f, stat fs' (out_var r) = Some f ∧ fname f = pname (out_var r))
     ∧ (∃ f, stat fs' (out_sign r) = Some f ∧ fname f = pname (out_sign r))).
Proof.
  intros Hrun.
  destruct (main_ok _ _ _ _ _ _ Hrun) as (REPO & g & _ & _ & _ & Hr & _).
  destruct (main_files _ _ _ _ _ _ Hrun) as (Hfv & Hfg & _).
  assert (HN : N_gp r = sample_count_of_name (pname (gp_file r)))
    by (rewrite Hr at 1; reflexivity).
  assert (Hout : N_out r = N_out_of (N_gp r) (length (y r)) (length (yn r)))
    by (rewrite Hr; reflexivity).
  split; [exact HN |]. split; [| split].
  - intros E. rewrite Hout, E. unfold N_out_of. rewrite N.eqb_refl. reflexivity.
  - intros Hne. rewrite Hout. unfold N_out_of.
    destruct (N_gp r) as [n|]; [| reflexivity].
    destruct (N.eqb n (N.of_nat (length (y r)))) eqn:E; [| reflexivity].
    apply N.eqb_eq in E. congruence.
  - assert (Hv : pname (out_var r)
                 = out_name "GAM_variances" (month a) (N_out r) (ilat a) (ilon a))
      by (rewrite Hr; reflexivity).
    assert (Hg : pname (out_sign r)
                 = out_name "GAM_gradient_signs" (month a) (N_out r) (ilat a) (ilon a))
      by (rewrite Hr; reflexivity).
    split; [exact Hv |]. split; [exact Hg |]. split.
    + exists (var_file now r). split; [exact Hfv | reflexivity].
    + exists (sign_file now r). split; [exact Hfg | reflexivity].
Qed.

End Label.

(** [Demo.world_nan]: the GP file is labelled 2 and holds three
    responses, one of them not a number.  Two rows are used, so the
    label is 2, the recovered count, although that count differs from
    the length 3 of the raw response vector. *)
Lemma label_equals_count_by_coincidence :
  snd (main (RT := Demo.runtime) Demo.script Demo.argv Demo.noon Demo.world_nan)
    = Ok Demo.the_run_nan
  ∧ ¬ label_as_specified Demo.the_run_nan.
Proof.
  split; [vm_compute; reflexivity |].
  intros [[Hiff _] _].
  assert (H : N_gp Demo.the_run_nan
              = Some (N.of_nat (length (y Demo.the_run_nan)))).
  { apply Hiff. exists 2%N. split; vm_compute; reflexivity. }
  vm_compute in H. discriminate H.
Qed.

Lemma label_of_outputs_witness :
  snd (main (RT := Demo.runtime) Demo.script Demo.argv Demo.noon Demo.world_nan)
    = Ok Demo.the_run_nan
  ∧ N_gp Demo.the_run_nan = Some 2%N
  ∧ N_out Demo.the_run_nan = N.of_nat (length (yn Demo.the_run_nan))
  ∧ pname (out_var Demo.the_run_nan)
    = "GAM_variances_H2SO4_jan_2_ilat_34.375_ilon_-10.3125.dat"
  ∧ pname (out_sign Demo.the_run_nan)
    = "GAM_gradient_signs_H2SO4_jan_2_ilat_34.375_ilon_-10.3125.dat".
Proof.
  assert (E : snd (main (RT := Demo.runtime) Demo.script Demo.argv Demo.noon
                     Demo.world_nan) = Ok Demo.the_run_nan)
    by (vm_compute; reflexivity).
  destruct (label_of_outputs (RT := Demo.runtime) _ _ _ _ _ _
              (run_from_result _ _ _ _ _ E)) as (HN & _ & Hne & Hv & Hg & _).
  assert (Hdiff : N_gp Demo.the_run_nan
                  ≠ Some (N.of_nat (length (y Demo.the_run_nan))))
    by (vm_compute; discriminate).
  split; [exact E |]. split; [vm_compute; reflexivity |].
  split; [exact (Hne Hdiff) |].
  split; [rewrite Hv | rewrite Hg]; vm_compute; reflexivity.
Defined.

(* ================================================================== *)
(** * Running the pipeline again *)
(* ================================================================== *)

Section Rerun.
Context {RT : Runtime}.

(** What the loaders read of the file system. *)
Lemma np_loadtxt_stat fs fs' p :
  stat fs' p = stat fs p → np_loadtxt fs' p = np_loadtxt fs p.
Proof. intros H. unfold np_loadtxt. rewrite H. reflexivity. Qed.

Lemma load_lhc_first_n_stat fs fs' p R :
  stat fs' p = stat fs p → load_lhc_first_n fs' p R = load_lhc_first_n fs p R.
Proof.
  intros H. unfold load_lhc_first_n, file_exists.
  rewrite (np_loadtxt_stat _ _ _ H), H. reflexivity.
Qed.

Lemma search_agree fs fs' precise relaxed month la lo roots cs :
  (∀ root, In root roots → fs' !! root = fs !! root) →
  search fs' precise relaxed month la lo roots cs
  = search fs precise relaxed month la lo roots cs.
Proof.
  revert cs. induction roots as [|root roots IH]; intros cs H; [reflexivity |].
  simpl. rewrite (H root) by (left; reflexivity).
  destruct (fs !! root) as [l|].
  - destruct (scan_root _ _ _ _ _ _ _ _); [| reflexivity].
    apply IH. intros r Hr. apply H. right. exact Hr.
  - apply IH. intros r Hr. apply H. right. exact Hr.
Qed.

Lemma find_gp_file_agree fs fs' repo ilat ilon month :
  (∀ root, In root (search_roots repo ilat) → fs' !! root = fs !! root) →
  fs' !! tiny_input_dir repo = fs !! tiny_input_dir repo →
  find_gp_file fs' repo ilat ilon month = find_gp_file fs repo ilat ilon month.
Proof.
  intros Hroots Hraw. unfold find_gp_file.
  destruct (compiled (gp_pattern month (format_f 3 ilat) (format_f 4 ilon)));
    [| reflexivity].
  destruct (compiled (gp_pattern month (format_f 3 ilat) (format_f 3 ilon)));
    [| reflexivity].
  destruct (compiled (gp_pattern month (py_repr ilat) (py_repr ilon)));
    [| reflexivity].
  unfold mbind, result_bind. cbv beta iota.
  rewrite (search_agree fs fs' _ _ _ _ _ _ _ Hroots).
  unfold file_exists, stat, raw_input. simpl. rewrite Hraw. reflexivity.
Qed.

(** The candidates are files of the search roots. *)
Lemma search_roots_only fs precise relaxed month la lo roots c :
  In c (search fs precise relaxed month la lo roots []) → In c.1 roots.
Proof.
  rewrite search_winners. unfold winners.
  induction roots as [|root roots IH]; simpl; [tauto |].
  destruct (root_candidates fs precise relaxed month la lo root) as [|d ds] eqn:E.
  - intros H. right. apply IH, H.
  - intros H. left. unfold root_candidates in E.
    destruct (fs !! root); [| discriminate].
    rewrite <- E in H. apply in_map_iff in H as (f & <- & _). reflexivity.
Qed.

Lemma find_gp_file_dir fs repo ilat ilon month p :
  find_gp_file fs repo ilat ilon month = Ok p →
  In (pdir p) (search_roots repo ilat) ∨ pdir p = tiny_input_dir repo.
Proof.
  unfold find_gp_file.
  destruct (compiled (gp_pattern month (format_f 3 ilat) (format_f 4 ilon)))
    as [precise|]; [| discriminate].
  destruct (compiled (gp_pattern month (format_f 3 ilat) (format_f 3 ilon)))
    as [r1|]; [| discriminate].
  destruct (compiled (gp_pattern month (py_repr ilat) (py_repr ilon)))
    as [r2|]; [| discriminate].
  unfold mbind, result_bind. cbv beta iota.
  set (cs := search fs precise [r1; r2] month _ _ _ []).
  pose proof (search_roots_only fs precise [r1; r2] month
                (format_f 3 ilat) (format_f 3 ilon) (search_roots repo ilat)) as Hin.
  fold cs in Hin. destruct cs as [|c cs'].
  - destruct (file_exists fs _); [| discriminate].
    intros [= <-]. right. reflexivity.
  - destruct (sort_newest_first (c :: cs')) as [|[root f] rest] eqn:E; [discriminate |].
    intros [= <-]. left. simpl.
    apply (Hin (root, f)). apply sort_newest_first_In. rewrite E. left. reflexivity.
Qed.

(** The output directory is none of the directories the inputs are
    looked for in. *)
Lemma GAM_DIR_not_searched REPO a :
  ¬ In (GAM_DIR_of REPO a) (search_roots REPO (ilat a))
  ∧ GAM_DIR_of REPO a ≠ tiny_input_dir REPO
  ∧ GAM_DIR_of REPO a ≠ pdir (default_samples REPO).
Proof.
  unfold GAM_DIR_of, search_roots, tiny_gam_out_dir, tiny_gp_out_dir,
    tiny_input_dir, default_samples. simpl.
  rewrite <- !app_assoc. simpl.
  repeat split.
  - intros [H | [H | [H | []]]]; apply app_inv_head in H; discriminate H.
  - intros H. apply app_inv_head in H. discriminate H.
  - intros H. apply app_inv_head in H. discriminate H.
Qed.

(** C9.  After a run that succeeds, a second run of the same command
    on the file system the first one left (at whatever time), with a
    sample file that is not one of the two outputs, succeeds with the
    same record: the same vectors, the same label, the same two paths.
    It replaces the two files by files with the same names and the same
    lines, and leaves every other directory as it was. *)
Theorem rerun_is_identical script a now now' fs fs1 r :
  main script a now fs = (fs1, Ok r) →
  (∀ p, samples a = Some p → p ≠ out_var r ∧ p ≠ out_sign r) →
  ∃ fs2,
    main script a now' fs1 = (fs2, Ok r)
    ∧ (∃ f1 f2, stat fs1 (out_var r) = Some f1 ∧ stat fs2 (out_var r) = Some f2
               ∧ fname f1 = fname f2 ∧ flines f1 = flines f2)
    ∧ (∃ f1 f2, stat fs1 (out_sign r) = Some f1 ∧ stat fs2 (out_sign r) = Some f2
               ∧ fname f1 = fname f2 ∧ flines f1 = flines f2)
    ∧ ∀ d, d ≠ pdir (out_var r) → fs2 !! d = fs1 !! d.
Proof.
  intros Hrun Hsample.
  destruct (main_ok _ _ _ _ _ _ Hrun) as (REPO & g & Hin & Hany & Hfit & Hr & Hfs1).
  destruct (load_inputs_ok _ _ _ _ _ _ _ _ Hin) as (Hroot & _ & Hgp & (y0 & Hy0 & Hy) & HX).
  set (G := GAM_DIR_of REPO a) in *.
  set (fs0 := mkdir G fs) in *.
  set (L := put_file (sign_file now r) (put_file (var_file now r) (default [] (fs !! G)))) in *.
  assert (HG : fs1 !! G = Some L) by (rewrite Hfs1; apply lookup_insert_eq).
  assert (Hother : ∀ d, d ≠ G → fs1 !! d = fs0 !! d).
  { intros d Hd. rewrite Hfs1. apply lookup_insert_ne. congruence. }
  destruct (GAM_DIR_not_searched REPO a) as (Hns & Hnt & Hnd). fold G in Hns, Hnt, Hnd.
  assert (Hmk : mkdir G fs1 = fs1) by (unfold mkdir; rewrite HG; reflexivity).
  assert (Hgp1 : find_gp_file fs1 REPO (ilat a) (ilon a) (month a) = Ok (gp_file r)).
  { rewrite <- Hgp. apply find_gp_file_agree.
    - intros root Hroot'. apply Hother. intros ->. contradiction.
    - apply Hother. congruence. }
  assert (Hgpdir : pdir (gp_file r) ≠ G).
  { destruct (find_gp_file_dir _ _ _ _ _ _ Hgp) as [H | H].
    - intros E. rewrite E in H. contradiction.
    - congruence. }
  assert (Hy1 : np_loadtxt fs1 (gp_file r) = Ok y0).
  { rewrite <- Hy0. apply np_loadtxt_stat. unfold stat.
    rewrite (Hother _ Hgpdir). reflexivity. }
  assert (Hvar : pdir (out_var r) = G ∧ pdir (out_sign r) = G
                 ∧ fname (var_file now r) = pname (out_var r)
                 ∧ fname (sign_file now r) = pname (out_sign r)).
  { rewrite Hr. repeat split. }
  destruct Hvar as (Hdv & Hds & Hnv & Hng).
  assert (Hstat : stat fs1 (sample_path_of REPO a) = stat fs0 (sample_path_of REPO a)).
  { unfold stat. destruct (decide (pdir (sample_path_of REPO a) = G)) as [E | E].
    - rewrite E, HG. unfold fs0. rewrite mkdir_lookup. simpl.
      unfold sample_path_of in *. destruct (samples a) as [p|] eqn:Es.
      + destruct (Hsample p eq_refl) as (Hpv & Hps).
        unfold L. rewrite !lookup_put_other; [reflexivity | |].
        * rewrite Hnv. intros Hname. apply Hpv.
          destruct p as [pd pn], (out_var r) as [vd vn]. simpl in *. congruence.
        * rewrite Hng. intros Hname. apply Hps.
          destruct p as [pd pn], (out_sign r) as [sd sn]. simpl in *. congruence.
      + congruence.
    - rewrite (Hother _ E). reflexivity. }
  assert (HX1 : load_lhc_first_n fs1 (sample_path_of REPO a) (length (y r)) = Ok (X r)).
  { rewrite <- HX. apply load_lhc_first_n_stat, Hstat. }
  assert (Hin1 : load_inputs script a fs1 = (fs1, Ok (REPO, gp_file r, y r, X r))).
  { unfold load_inputs.
    unfold mbind, M_bind, mret, M_ret, pure, reading, modify, raise.
    rewrite Hroot. fold G. rewrite Hmk, Hgp1, Hy1, <- Hy, HX1. reflexivity. }
  assert (Hsel : Xn r = select (clean_mask (X r) (y r)) (X r)
                 ∧ yn r = select (clean_mask (X r) (y r)) (y r)).
  { rewrite Hr. split; reflexivity. }
  destruct Hsel as (HXn & Hyn). rewrite HXn, Hyn in Hfit.
  pose proof (analyse_run a now' REPO (gp_file r) (y r) (X r) g L fs1 Hany Hfit HG)
    as Hrun2. cbv zeta in Hrun2. rewrite <- Hr in Hrun2. fold G in Hrun2.
  assert (Hmain2 : main script a now' fs1
                   = (<[G := put_file (sign_file now' r) (put_file (var_file now' r) L)]> fs1,
                      Ok r)).
  { rewrite main_phases, Hin1. exact Hrun2. }
  eexists. split; [exact Hmain2 |].
  destruct (main_files _ _ _ _ _ _ Hrun) as (Hv1 & Hg1 & _).
  destruct (main_files _ _ _ _ _ _ Hmain2) as (Hv2 & Hg2 & _ & _).
  split; [| split].
  - exists (var_file now r), (var_file now' r). repeat split; assumption.
  - exists (sign_file now r), (sign_file now' r). repeat split; assumption.
  - intros d Hd. apply lookup_insert_ne. congruence.
Qed.

End Rerun.

(** The run of [Demo.world] at noon, and a second run an hour later on
    what the first one left. *)
Lemma rerun_is_identical_witness :
  snd (main (RT := Demo.runtime) Demo.script Demo.argv Demo.noon Demo.world)
    = Ok Demo.the_run
  ∧ ∃ fs2,
      main (RT := Demo.runtime) Demo.script Demo.argv (Demo.noon + 3600)%Q
        (fst (main (RT := Demo.runtime) Demo.script Demo.argv Demo.noon Demo.world))
      = (fs2, Ok Demo.the_run)
      ∧ (∃ f1 f2,
           stat (fst (main (RT := Demo.runtime) Demo.script Demo.argv Demo.noon Demo.world))
             (out_var Demo.the_run) = Some f1
           ∧ stat fs2 (out_var Demo.the_run) = Some f2
           ∧ fname f1 = fname f2 ∧ flines f1 = flines f2)
      ∧ (∃ f1 f2,
           stat (fst (main (RT := Demo.runtime) Demo.script Demo.argv Demo.noon Demo.world))
             (out_sign Demo.the_run) = Some f1
           ∧ stat fs2 (out_sign Demo.the_run) = Some f2
           ∧ fname f1 = fname f2 ∧ flines f1 = flines f2).
Proof.
  assert (E : snd (main (RT := Demo.runtime) Demo.script Demo.argv Demo.noon Demo.world)
              = Ok Demo.the_run)
    by (vm_compute; reflexivity).
  split; [exact E |].
  destruct (rerun_is_identical (RT := Demo.runtime) Demo.script Demo.argv
              Demo.noon (Demo.noon + 3600)%Q _ _ _ (run_from_result _ _ _ _ _ E))
    as (fs2 & Hrun & Hv & Hg & _).
  - intros p Hp. discriminate Hp.
  - exists fs2. exact (conj Hrun (conj Hv Hg)).
Defined.

(* ================================================================== *)
(** * Text *)
(* ================================================================== *)

Lemma chars_app (s t : string) : chars (s +:+ t) = chars s ++ chars t.
Proof.
  unfold chars. induction s as [|c s IH]; [reflexivity |].
  simpl. rewrite <- IH. reflexivity.
Qed.

Lemma chars_text (l : list ascii) : chars (text l) = l.
Proof. apply list_ascii_of_string_of_list_ascii. Qed.

Lemma chars_inj (s t : string) : chars s = chars t → s = t.
Proof.
  intros H. rewrite <- (string_of_list_ascii_of_string s),
    <- (string_of_list_ascii_of_string t). unfold chars in H. rewrite H. reflexivity.
Qed.

Lemma has_prefix_app (p s : list ascii) : has_prefix p (p ++ s) = true.
Proof.
  induction p as [|c p IH]; [reflexivity |].
  simpl. rewrite Ascii.eqb_refl. exact IH.
Qed.

Lemma has_prefix_inv (p s : list ascii) :
  has_prefix p s = true → ∃ t, s = p ++ t.
Proof.
  revert s. induction p as [|c p IH]; intros s H; [exists s; reflexivity |].
  destruct s as [|d s]; [discriminate |]. simpl in H.
  apply andb_true_iff in H as [Hc H]. apply Ascii.eqb_eq in Hc as ->.
  destruct (IH s H) as [t ->]. exists t. reflexivity.
Qed.

Lemma endswith_app (s t : string) : endswith t (s +:+ t) = true.
Proof.
  unfold endswith. rewrite chars_app, rev_app_distr. apply has_prefix_app.
Qed.

Lemma startswith_app (s t : string) : startswith s (s +:+ t) = true.
Proof. unfold startswith. rewrite chars_app. apply has_prefix_app. Qed.

Lemma length_chars (s : string) : length (chars s) = String.length s.
Proof. unfold chars. induction s; simpl; congruence. Qed.

(** ** Decimal numerals *)

Lemma uint_digits (u : Decimal.uint) :
  Forall (fun c => is_digit c = true) (chars (NilEmpty.string_of_uint u)).
Proof.
  induction u; simpl; constructor; try reflexivity; assumption.
Qed.

Lemma dec_digits (n : Z) : Forall (fun c => is_digit c = true) (chars (dec n)).
Proof.
  unfold dec, NilZero.string_of_uint.
  destruct (N.to_uint (Z.to_N n)); try apply uint_digits.
  repeat constructor.
Qed.

Lemma dec_nonempty (n : Z) : chars (dec n) ≠ [].
Proof.
  unfold dec, NilZero.string_of_uint.
  destruct (N.to_uint (Z.to_N n)); discriminate.
Qed.

(** [int] of a numeral: the digits are read from the left. *)
Lemma digits_value_acc (u : Decimal.uint) (acc : positive) :
  fold_left (fun n c => 10 * n + (N_of_ascii c - 48))%N
    (chars (NilEmpty.string_of_uint u)) (Npos acc)
  = Npos (Pos.of_uint_acc u acc).
Proof.
  revert acc. induction u; intros acc; simpl; try reflexivity;
    rewrite <- IHu; f_equal; lia.
Qed.

Lemma digits_value_uint (u : Decimal.uint) :
  digits_value (chars (NilEmpty.string_of_uint u)) = N.of_uint u.
Proof.
  unfold digits_value, N.of_uint.
  induction u; simpl; try reflexivity; try exact IHu;
    try (rewrite <- digits_value_acc; reflexivity).
Qed.

Lemma digits_value_dec (n : N) : digits_value (chars (dec (Z.of_N n))) = n.
Proof.
  unfold dec. rewrite N2Z.id.
  rewrite <- (DecimalN.Unsigned.of_to n) at 2.
  unfold NilZero.string_of_uint.
  destruct (N.to_uint n) eqn:E; try apply digits_value_uint.
  reflexivity.
Qed.

(** ** The sample count in a name *)

Lemma leading_digits_app (ds t : list ascii) (c : ascii) :
  Forall (fun c => is_digit c = true) ds → is_digit c = false →
  leading_digits (ds ++ c :: t) = ds.
Proof.
  intros H Hc. induction H as [|d ds Hd _ IH]; simpl; [rewrite Hc; reflexivity |].
  rewrite Hd, IH. reflexivity.
Qed.

Lemma sample_count_unfold name :
  sample_count_of_name name
  = match count_before_suffix (rev (chars name)) with
    | Some n => Some n
    | None =>
        match rev (chars name) with
        | c :: r => if Ascii.eqb c newline then count_before_suffix r else None
        | [] => None
        end
    end.
Proof. reflexivity. Qed.

Lemma count_before_suffix_digits (base ds : list ascii) :
  ds ≠ [] → Forall (fun c => is_digit c = true) ds →
  count_before_suffix (rev (base ++ "_"%char :: ds ++ chars "_w_o_carb.dat"))
  = Some (digits_value ds).
Proof.
  intros Hne Hds. unfold count_before_suffix.
  set (suf := rev (chars "_w_o_carb.dat")).
  assert (Hrev : rev (base ++ "_"%char :: ds ++ chars "_w_o_carb.dat")
                 = suf ++ rev ds ++ "_"%char :: rev base).
  { rewrite rev_app_distr. simpl. rewrite rev_app_distr. fold suf.
    rewrite <- !app_assoc. reflexivity. }
  rewrite Hrev. cbv zeta. rewrite has_prefix_app.
  rewrite drop_app_length.
  assert (Hrd : Forall (fun c => is_digit c = true) (rev ds)).
  { apply Forall_forall. intros c Hc. rewrite Forall_forall in Hds.
    apply Hds. apply list_elem_of_In. apply list_elem_of_In, in_rev in Hc.
    exact Hc. }
  rewrite (leading_digits_app (rev ds) (rev base) "_"%char Hrd eq_refl).
  assert (Hds' : digits_value (rev (rev ds)) = digits_value ds)
    by (rewrite rev_involutive; reflexivity).
  destruct (rev ds) as [|d rds] eqn:E.
  { apply (f_equal (@rev ascii)) in E. rewrite rev_involutive in E.
    simpl in E. congruence. }
  rewrite drop_app_length. simpl. rewrite <- Hds'. reflexivity.
Qed.

Lemma sample_count_digits (base ds : list ascii) :
  ds ≠ [] → Forall (fun c => is_digit c = true) ds →
  sample_count_of_name (text (base ++ "_"%char :: ds ++ chars "_w_o_carb.dat"))
  = Some (digits_value ds).
Proof.
  intros Hne Hds. rewrite sample_count_unfold, chars_text.
  rewrite (count_before_suffix_digits base ds Hne Hds). reflexivity.
Qed.

(** X1.  A name that carries the count [n] before [_w_o_carb.dat] gives
    [n] back; a name that does not end with [_w_o_carb.dat] (or with it
    and a line feed) gives no count. *)
Theorem sample_count_round_trip :
  (∀ base n,
     sample_count_of_name (base +:+ "_" +:+ dec (Z.of_N n) +:+ "_w_o_carb.dat")
     = Some n)
  ∧ (∀ month lat lon n,
       sample_count_of_name (emulation_name month lat lon n) = Some n)
  ∧ (∀ name,
       endswith "_w_o_carb.dat" name = false →
       endswith ("_w_o_carb.dat" +:+ text [newline]) name = false →
       sample_count_of_name name = None).
Proof.
  assert (Hbase : ∀ base n,
            sample_count_of_name (base +:+ "_" +:+ dec (Z.of_N n) +:+ "_w_o_carb.dat")
            = Some n).
  { intros base n.
    replace (base +:+ "_" +:+ dec (Z.of_N n) +:+ "_w_o_carb.dat")
      with (text (chars base ++ "_"%char :: chars (dec (Z.of_N n))
                    ++ chars "_w_o_carb.dat")).
    - rewrite sample_count_digits; [| apply dec_nonempty | apply dec_digits].
      rewrite digits_value_dec. reflexivity.
    - apply chars_inj. rewrite chars_text, !chars_app. reflexivity. }
  split; [exact Hbase |]. split.
  - intros month lat lon n. unfold emulation_name.
    replace (emu_prefix +:+ month +:+ "_ilat_" +:+ lat +:+ "_ilon_" +:+ lon
               +:+ "_" +:+ dec (Z.of_N n) +:+ "_w_o_carb.dat")
      with ((emu_prefix +:+ month +:+ "_ilat_" +:+ lat +:+ "_ilon_" +:+ lon)
              +:+ "_" +:+ dec (Z.of_N n) +:+ "_w_o_carb.dat").
    + apply Hbase.
    + apply chars_inj. rewrite !chars_app, <- !app_assoc. reflexivity.
  - clear Hbase. intros name H1 H2. rewrite sample_count_unfold.
    unfold endswith in H1, H2. unfold count_before_suffix. cbv zeta. rewrite H1.
    destruct (rev (chars name)) as [|c r] eqn:E; [reflexivity |].
    destruct (Ascii.eqb c newline) eqn:Ec; [| reflexivity].
    rewrite chars_app, chars_text, rev_app_distr in H2.
    change (rev [newline]) with [newline] in H2. cbn [app has_prefix] in H2.
    rewrite Ascii.eqb_sym, Ec in H2. cbn [andb] in H2.
    rewrite H2. reflexivity.
Qed.

(* ================================================================== *)
(** * What the patterns match *)
(* ================================================================== *)

Lemma re_run_nil s : re_run [] s = false.
Proof. induction s as [|c s IH]; [reflexivity | exact IH]. Qed.

Lemma re_run_app ps qs s : re_run (ps ++ qs) s = re_run ps s || re_run qs s.
Proof.
  revert ps qs. induction s as [|c s IH]; intros ps qs; simpl.
  - apply existsb_app.
  - rewrite flat_map_app. apply IH.
Qed.

Lemma re_run_In p ps s : In p ps → re_run [p] s = true → re_run ps s = true.
Proof.
  intros Hin Hp. apply in_split in Hin as (l1 & l2 & ->).
  change (p :: l2) with ([p] ++ l2). rewrite !re_run_app, Hp.
  rewrite orb_true_r. reflexivity.
Qed.

(** The run of the patterns accepts what they match, and nothing else. *)
Lemma re_run_complete p s : matches p s → re_run [p] s = true.
Proof.
  induction 1 as [| a c r s Ha _ IH | a c r s Ha _ IH | a c r s Ha _ IH
                  | a r s _ IH].
  - reflexivity.
  - simpl. rewrite Ha. simpl. exact IH.
  - simpl. rewrite Ha. simpl. exact IH.
  - cbn [re_run flat_map re_step]. rewrite Ha, app_nil_r, re_run_app, IH.
    reflexivity.
  - destruct s as [|c s].
    + simpl in *. rewrite orb_false_r in *. exact IH.
    + cbn [re_run flat_map re_step] in *. rewrite app_nil_r in *.
      rewrite re_run_app, IH. apply orb_true_r.
Qed.

Lemma re_nullable_matches p : re_nullable p = true → matches p [].
Proof.
  induction p as [|[a|a|a] p IH]; simpl; try discriminate.
  - intros _. constructor.
  - intros H. apply matches_done, IH, H.
Qed.

Lemma re_step_matches c p q s : In q (re_step c p) → matches q s → matches p (c :: s).
Proof.
  revert q. induction p as [|[a|a|a] p IH]; intros q; simpl.
  - intros [].
  - destruct (atom_matches a c) eqn:Ha; [| intros []].
    intros [<- | []] H. apply matches_one; assumption.
  - destruct (atom_matches a c) eqn:Ha; [| intros []].
    intros [<- | []] H. apply matches_plus; assumption.
  - intros Hin H. apply in_app_or in Hin as [Hin | Hin].
    + destruct (atom_matches a c) eqn:Ha; [| destruct Hin].
      destruct Hin as [<- | []]. apply matches_more; assumption.
    + apply matches_done. apply (IH q Hin H).
Qed.

Lemma re_run_sound ps s : re_run ps s = true → ∃ p, In p ps ∧ matches p s.
Proof.
  revert ps. induction s as [|c s IH]; intros ps; simpl.
  - intros H. apply existsb_exists in H as (p & Hin & Hn).
    exists p. split; [exact Hin | apply re_nullable_matches, Hn].
  - intros H. destruct (IH _ H) as (q & Hq & Hm).
    apply in_flat_map in Hq as (p & Hp & Hq).
    exists p. split; [exact Hp | eapply re_step_matches; eassumption].
Qed.

Lemma matches_app p q s t : matches p s → matches q t → matches (p ++ q) (s ++ t).
Proof.
  intros Hp Hq. induction Hp; simpl; try (constructor; assumption). exact Hq.
Qed.

Lemma matches_lits (s : string) : matches (lits s) (chars s).
Proof.
  unfold lits. induction (chars s) as [|c l IH]; simpl; constructor;
    [apply Ascii.eqb_refl | exact IH].
Qed.

Lemma matches_lits_inv (s : string) t : matches (lits s) t → t = chars s.
Proof.
  unfold lits. revert t. induction (chars s) as [|c l IH]; intros t H; simpl in H.
  - inversion H. reflexivity.
  - inversion H as [| a d r u Ha Hr | | |]; subst. simpl in Ha.
    apply Ascii.eqb_eq in Ha as ->. f_equal. apply IH, Hr.
Qed.

Lemma matches_raw (l : list ascii) : matches (List.map raw_item l) l.
Proof.
  induction l as [|c l IH]; simpl; [constructor |].
  unfold raw_item at 1. destruct (Ascii.eqb c "."%char) eqn:E.
  - apply Ascii.eqb_eq in E as ->. constructor; [reflexivity | exact IH].
  - constructor; [apply Ascii.eqb_refl | exact IH].
Qed.

(** What follows the items [front] of a pattern matches the end of the
    text. *)
Lemma matches_split front tail s :
  matches (front ++ tail) s → ∃ s1 s2, s = s1 ++ s2 ∧ matches tail s2.
Proof.
  intros H. remember (front ++ tail) as p eqn:Ep. revert front Ep.
  induction H as [| a c r s Ha H IH | a c r s Ha H IH | a c r s Ha H IH
                  | a r s H IH]; intros front Ep.
  - exists [], []. split; [reflexivity |].
    destruct front; [simpl in Ep; subst; constructor | discriminate].
  - destruct front as [|it front]; simpl in Ep.
    + subst tail. exists [], (c :: s). split; [reflexivity |].
      constructor; assumption.
    + injection Ep as <- ->. destruct (IH front eq_refl) as (s1 & s2 & -> & Hm).
      exists (c :: s1), s2. split; [reflexivity | exact Hm].
  - destruct front as [|it front]; simpl in Ep.
    + subst tail. exists [], (c :: s). split; [reflexivity |].
      apply matches_plus; assumption.
    + injection Ep as <- ->.
      destruct (IH (Star a :: front) eq_refl) as (s1 & s2 & -> & Hm).
      exists (c :: s1), s2. split; [reflexivity | exact Hm].
  - destruct front as [|it front]; simpl in Ep.
    + subst tail. exists [], (c :: s). split; [reflexivity |].
      apply matches_more; assumption.
    + injection Ep as <- ->.
      destruct (IH (Star a :: front) eq_refl) as (s1 & s2 & -> & Hm).
      exists (c :: s1), s2. split; [reflexivity | exact Hm].
  - destruct front as [|it front]; simpl in Ep.
    + subst tail. exists [], s. split; [reflexivity |].
      apply matches_done; assumption.
    + injection Ep as <- ->. destruct (IH front eq_refl) as (s1 & s2 & -> & Hm).
      exists s1, s2. split; [reflexivity | exact Hm].
Qed.

Lemma matches_digits (ds : list ascii) r t :
  Forall (fun c => is_digit c = true) ds → matches r t →
  matches (Star Digit :: r) (ds ++ t).
Proof.
  intros Hds Hr. induction Hds as [|d ds Hd _ IH]; simpl.
  - apply matches_done, Hr.
  - apply matches_more; [exact Hd | exact IH].
Qed.

Lemma matches_digits_inv r s :
  matches (Star Digit :: r) s →
  ∃ ds t, s = ds ++ t ∧ Forall (fun c => is_digit c = true) ds ∧ matches r t.
Proof.
  intros H. remember (Star Digit :: r) as p eqn:Ep.
  induction H as [| | | a c r' s Ha H IH | a r' s H _]; try discriminate.
  - injection Ep as -> ->. destruct (IH eq_refl) as (ds & t & -> & Hds & Ht).
    exists (c :: ds), t. split; [reflexivity |]. split; [| exact Ht].
    constructor; [exact Ha | exact Hds].
  - injection Ep as -> ->. exists [], s. split; [reflexivity |].
    split; [constructor | exact H].
Qed.

(** The texts [count_tail] matches: an underscore, digits, and
    [_w_o_carb.dat]. *)
Lemma matches_count_tail s :
  matches count_tail s ↔
  ∃ ds, ds ≠ [] ∧ Forall (fun c => is_digit c = true) ds
        ∧ s = "_"%char :: ds ++ chars "_w_o_carb.dat".
Proof.
  unfold count_tail. split.
  - intros H. inversion H as [| a c r u Ha Hr | | |]; subst.
    cbn [atom_matches] in Ha. apply Ascii.eqb_eq in Ha as <-.
    inversion Hr as [| | a d r' v Hd Hs | |]; subst. cbn [atom_matches] in Hd.
    apply matches_digits_inv in Hs as (ds & t & -> & Hds & Ht).
    apply matches_lits_inv in Ht as ->.
    exists (d :: ds). split; [discriminate |]. split; [| reflexivity].
    constructor; assumption.
  - intros (ds & Hne & Hds & ->). destruct Hds as [|d ds Hd Hds]; [congruence |].
    simpl. apply matches_one; [reflexivity |].
    apply matches_plus; [exact Hd |].
    apply matches_digits; [exact Hds | apply matches_lits].
Qed.

(** ** The patterns of [find_gp_file] *)

Lemma gp_pattern_tail month lat lon pat :
  gp_pattern month lat lon = Some pat → ∃ front, pat = front ++ count_tail.
Proof.
  unfold gp_pattern. unfold mbind, option_bind.
  destruct (re_raw _ (chars lat)) as [acc1|]; [| discriminate]. simpl.
  destruct (re_raw _ (chars lon)) as [acc2|]; [| discriminate]. simpl.
  intros [= <-]. exists (rev acc2). reflexivity.
Qed.

Lemma re_raw_plain acc (l : list ascii) :
  Forall (fun c => c ≠ "+"%char) l →
  re_raw acc l = Some (rev (List.map raw_item l) ++ acc).
Proof.
  intros H. revert acc. induction H as [|c l Hc _ IH]; intros acc; [reflexivity |].
  cbn [re_raw List.map rev]. rewrite <- app_assoc. cbn [app].
  apply Ascii.eqb_neq in Hc. rewrite Hc.
  unfold raw_item at 2. destruct (Ascii.eqb c "."%char); apply IH.
Qed.

(** A pattern made from a month and from coordinates without a [+]:
    the text before the coordinates and between them stands for itself,
    a coordinate is read as pattern syntax. *)
Lemma gp_pattern_plain month lat lon :
  Forall (fun c => c ≠ "+"%char) (chars lat) →
  Forall (fun c => c ≠ "+"%char) (chars lon) →
  gp_pattern month lat lon
  = Some (lits emu_prefix ++ lits month ++ lits "_ilat_"
            ++ List.map raw_item (chars lat) ++ lits "_ilon_"
            ++ List.map raw_item (chars lon) ++ count_tail).
Proof.
  intros Hlat Hlon. unfold gp_pattern, mbind, option_bind.
  rewrite (re_raw_plain _ _ Hlat). cbn match.
  rewrite (re_raw_plain _ _ Hlon). cbn match.
  f_equal. rewrite !rev_app_distr, !rev_involutive, <- !app_assoc. reflexivity.
Qed.

Lemma digit_not_plus c : is_digit c = true → c ≠ "+"%char.
Proof. intros H ->. discriminate H. Qed.

Lemma dec_plain (n : Z) : Forall (fun c => c ≠ "+"%char) (chars (dec n)).
Proof.
  eapply Forall_impl; [apply dec_digits |]. intros c. apply digit_not_plus.
Qed.

Lemma format_f_plain d v : Forall (fun c => c ≠ "+"%char) (chars (format_f d v)).
Proof.
  destruct v as [q| | |]; try (repeat constructor; discriminate).
  unfold format_f. rewrite !chars_app. apply Forall_app. split.
  { destruct (q ?= 0)%Q; repeat constructor; discriminate. }
  apply Forall_app. split; [apply dec_plain |].
  destruct d as [|d]; [constructor |].
  rewrite chars_app. apply Forall_app. split; [repeat constructor; discriminate |].
  unfold pad0. rewrite chars_app, chars_text. apply Forall_app. split.
  - apply Forall_forall. intros c Hc. apply elem_of_replicate in Hc as [-> _].
    discriminate.
  - apply dec_plain.
Qed.

(** A name with a count before [_w_o_carb.dat], with or without a line
    feed at its end. *)
Lemma sample_count_shape name (base ds nl : list ascii) :
  ds ≠ [] → Forall (fun c => is_digit c = true) ds →
  nl = [] ∨ nl = [newline] →
  chars name = base ++ "_"%char :: ds ++ chars "_w_o_carb.dat" ++ nl →
  sample_count_of_name name = Some (digits_value ds).
Proof.
  intros Hne Hds [-> | ->] E.
  - rewrite app_nil_r in E. rewrite <- (sample_count_digits base ds Hne Hds), <- E.
    f_equal. apply chars_inj. rewrite chars_text. reflexivity.
  - rewrite sample_count_unfold, E.
    replace (base ++ "_"%char :: ds ++ chars "_w_o_carb.dat" ++ [newline])
      with ((base ++ "_"%char :: ds ++ chars "_w_o_carb.dat") ++ [newline])
      by (rewrite <- !app_assoc; cbn [app]; rewrite <- app_assoc; reflexivity).
    rewrite rev_app_distr. change (rev [newline]) with [newline]. cbn [app].
    assert (Hnl : ∀ r, count_before_suffix (newline :: r) = None) by reflexivity.
    rewrite Hnl, Ascii.eqb_refl.
    apply count_before_suffix_digits; assumption.
Qed.

(** A name that a pattern of [find_gp_file] matches ends with an
    underscore, digits and [_w_o_carb.dat] (and possibly a line feed). *)
Lemma matched_name_shape month lat lon pat name :
  gp_pattern month lat lon = Some pat →
  re_match pat name = true →
  ∃ base ds nl,
    ds ≠ [] ∧ Forall (fun c => is_digit c = true) ds
    ∧ (nl = [] ∨ nl = [newline])
    ∧ chars name = base ++ "_"%char :: ds ++ chars "_w_o_carb.dat" ++ nl.
Proof.
  intros Hp Hm. destruct (gp_pattern_tail _ _ _ _ Hp) as (front & ->).
  assert (Hshape : ∀ s, re_run [front ++ count_tail] s = true →
            ∃ base ds, ds ≠ [] ∧ Forall (fun c => is_digit c = true) ds
              ∧ s = base ++ "_"%char :: ds ++ chars "_w_o_carb.dat").
  { intros s Hs. apply re_run_sound in Hs as (p & [<- | []] & Hs).
    apply matches_split in Hs as (s1 & s2 & -> & Hs).
    apply matches_count_tail in Hs as (ds & Hne & Hds & ->).
    exists s1, ds. auto. }
  unfold re_match in Hm. apply orb_true_iff in Hm as [Hm | Hm].
  - destruct (Hshape _ Hm) as (base & ds & Hne & Hds & E).
    exists base, ds, []. rewrite app_nil_r. auto.
  - destruct (rev (chars name)) as [|c r] eqn:Er; [discriminate |].
    apply andb_true_iff in Hm as [Hc Hm]. apply Ascii.eqb_eq in Hc as ->.
    destruct (Hshape _ Hm) as (base & ds & Hne & Hds & E).
    exists base, ds, [newline]. split; [exact Hne |]. split; [exact Hds |].
    split; [auto |].
    rewrite <- (rev_involutive (chars name)), Er. cbn [rev]. rewrite E.
    rewrite <- !app_assoc. cbn [app]. rewrite <- app_assoc. reflexivity.
Qed.

(** A name made by [emulation_name] from a month and from coordinates
    without a [+] is matched by the pattern made from them, and passes
    the [glob] of the search. *)
Lemma plain_name_accepted month lat lon (n : N) :
  Forall (fun c => c ≠ "+"%char) (chars lat) →
  Forall (fun c => c ≠ "+"%char) (chars lon) →
  ∃ pat, gp_pattern month lat lon = Some pat
    ∧ re_match pat (emulation_name month lat lon n) = true
    ∧ glob_match emu_prefix ".dat" (emulation_name month lat lon n) = true.
Proof.
  intros Hlat Hlon. eexists. split; [| split].
  - apply gp_pattern_plain; assumption.
  - unfold re_match. apply orb_true_iff. left. apply re_run_complete.
    unfold emulation_name. rewrite !chars_app.
    repeat (apply matches_app; [first [apply matches_lits | apply matches_raw] |]).
    apply matches_count_tail. exists (chars (dec (Z.of_N n))).
    split; [apply dec_nonempty |]. split; [apply dec_digits | reflexivity].
  - unfold glob_match, emulation_name.
    apply andb_true_iff. split; [apply andb_true_iff; split |].
    + apply startswith_app.
    + replace (emu_prefix +:+ month +:+ "_ilat_" +:+ lat +:+ "_ilon_" +:+ lon
                 +:+ "_" +:+ dec (Z.of_N n) +:+ "_w_o_carb.dat")
        with ((emu_prefix +:+ month +:+ "_ilat_" +:+ lat +:+ "_ilon_" +:+ lon
                 +:+ "_" +:+ dec (Z.of_N n) +:+ "_w_o_carb") +:+ ".dat").
      * apply endswith_app.
      * apply chars_inj. rewrite !chars_app, <- !app_assoc. reflexivity.
    + apply Nat.leb_le. rewrite <- !length_chars, !chars_app, !length_app.
      change (length (chars emu_prefix)) with 27%nat.
      change (length (chars ".dat")) with 4%nat.
      change (length (chars "_w_o_carb.dat")) with 13%nat. lia.
Qed.

(** X2.  Every name that a pattern of [find_gp_file] matches carries a
    sample count that [main] recovers: a GP file found by the precise or
    by a relaxed pattern never leaves [N_gp] undefined. *)
Theorem pattern_names_carry_count month lat lon pat name :
  gp_pattern month lat lon = Some pat →
  re_match pat name = true →
  ∃ n, sample_count_of_name name = Some n.
Proof.
  intros Hp Hm.
  destruct (matched_name_shape _ _ _ _ _ Hp Hm) as (base & ds & nl & Hne & Hds & Hnl & E).
  exists (digits_value ds). apply (sample_count_shape name base ds nl); assumption.
Qed.

(** ** The names a pattern accepts *)

Lemma re_run_matches p s : re_run [p] s = true ↔ matches p s.
Proof.
  split; [| apply re_run_complete].
  intros H. apply re_run_sound in H as (q & [<- | []] & H). exact H.
Qed.

(** [re_match] accepts what the pattern matches, with or without a line
    feed after it. *)
Lemma re_match_matches p name :
  re_match p name = true ↔
  ∃ nl, (nl = [] ∨ nl = [newline])
        ∧ ∃ t, chars name = t ++ nl ∧ matches p t.
Proof.
  unfold re_match. rewrite orb_true_iff. split.
  - intros [H | H].
    + exists []. split; [auto |]. exists (chars name).
      rewrite app_nil_r. split; [reflexivity | apply re_run_matches, H].
    + destruct (rev (chars name)) as [|c r] eqn:E; [discriminate |].
      apply andb_true_iff in H as [Hc H]. apply Ascii.eqb_eq in Hc as ->.
      exists [newline]. split; [auto |]. exists (rev r).
      split; [| apply re_run_matches, H].
      rewrite <- (rev_involutive (chars name)), E. reflexivity.
  - intros (nl & [-> | ->] & t & E & H).
    + left. rewrite E, app_nil_r. apply re_run_matches, H.
    + right. rewrite E, rev_app_distr. cbn [rev app].
      rewrite Ascii.eqb_refl, rev_involutive. apply re_run_matches, H.
Qed.

Lemma matches_lits_split (s : string) rest t :
  matches (lits s ++ rest) t ↔ ∃ t', t = chars s ++ t' ∧ matches rest t'.
Proof.
  unfold lits. revert t. induction (chars s) as [|c l IH]; intros t; simpl.
  - split; [intros H; exists t; auto | intros (t' & -> & H); exact H].
  - split.
    + intros H. inversion H as [| a d r u Ha Hr | | |]; subst.
      cbn [atom_matches] in Ha. apply Ascii.eqb_eq in Ha as ->.
      apply IH in Hr as (t' & -> & Hr). exists t'. auto.
    + intros (t' & -> & H). constructor; [apply Ascii.eqb_refl |].
      apply IH. exists t'. auto.
Qed.

Lemma matches_raw_split (l : list ascii) rest t :
  matches (List.map raw_item l ++ rest) t ↔
  ∃ L t', Forall2 (fun c x => point_or_same c x = true) l L
          ∧ t = L ++ t' ∧ matches rest t'.
Proof.
  revert t. induction l as [|c l IH]; intros t; simpl.
  - split.
    + intros H. exists [], t. split; [constructor | auto].
    + intros (L & t' & HL & -> & H). inversion HL. exact H.
  - assert (Hitem : ∀ x, atom_matches
                           (if Ascii.eqb c "."%char then AnyChar else Lit c) x
                         = point_or_same c x).
    { intros x. unfold point_or_same. destruct (Ascii.eqb c "."%char); reflexivity. }
    unfold raw_item at 1. split.
    + intros H.
      assert (H' : matches (One (if Ascii.eqb c "."%char then AnyChar else Lit c)
                              :: List.map raw_item l ++ rest) t)
        by (destruct (Ascii.eqb c "."%char); exact H).
      inversion H' as [| a d r u Ha Hr | | |]; subst.
      rewrite Hitem in Ha.
      apply IH in Hr as (L & t' & HL & -> & Hr).
      exists (d :: L), t'. split; [constructor; assumption | auto].
    + intros (L & t' & HL & -> & H).
      inversion HL as [|? x ? L' Hx HL']; subst.
      assert (H' : matches (One (if Ascii.eqb c "."%char then AnyChar else Lit c)
                              :: List.map raw_item l ++ rest) ((x :: L') ++ t')).
      { simpl. constructor; [rewrite Hitem; exact Hx |].
        apply IH. exists L', t'. auto. }
      destruct (Ascii.eqb c "."%char); exact H'.
Qed.

(** X3.  The names the precise and the first relaxed pattern accept, all of
    them: the prefix of the GP files, the month as it is, [_ilat_], the
    latitude, [_ilon_], the longitude, an underscore, one digit or
    more, [_w_o_carb.dat] and possibly a line feed; where every
    character of the two coordinates is itself, except that any
    character that is not a line feed may stand where a coordinate has
    its point. *)
Theorem pattern_accepts_exactly month (ilat ilon : fval) (d : nat) :
  let lat := format_f 3 ilat in
  let lon := format_f d ilon in
  ∃ pat, gp_pattern month lat lon = Some pat
    ∧ ∀ name,
        re_match pat name = true ↔
        ∃ L O ds nl,
          Forall2 (fun c x => point_or_same c x = true) (chars lat) L
          ∧ Forall2 (fun c x => point_or_same c x = true) (chars lon) O
          ∧ ds ≠ [] ∧ Forall (fun c => is_digit c = true) ds
          ∧ (nl = [] ∨ nl = [newline])
          ∧ chars name
            = chars emu_prefix ++ chars month ++ chars "_ilat_" ++ L
                ++ chars "_ilon_" ++ O ++ "_"%char :: ds
                ++ chars "_w_o_carb.dat" ++ nl.
Proof.
  intros lat lon. eexists. split.
  { apply gp_pattern_plain; apply format_f_plain. }
  intros name. rewrite re_match_matches. split.
  - intros (nl & Hnl & t & E & H).
    apply matches_lits_split in H as (t1 & -> & H).
    apply matches_lits_split in H as (t2 & -> & H).
    apply matches_lits_split in H as (t3 & -> & H).
    apply matches_raw_split in H as (L & t4 & HL & -> & H).
    apply matches_lits_split in H as (t5 & -> & H).
    apply matches_raw_split in H as (O & t6 & HO & -> & H).
    apply matches_count_tail in H as (ds & Hne & Hds & ->).
    exists L, O, ds, nl. repeat (split; [assumption |]).
    rewrite E, <- !app_assoc. cbn [app]. rewrite <- !app_assoc. reflexivity.
  - intros (L & O & ds & nl & HL & HO & Hne & Hds & Hnl & E).
    exists nl. split; [exact Hnl |].
    exists (chars emu_prefix ++ chars month ++ chars "_ilat_" ++ L
              ++ chars "_ilon_" ++ O ++ "_"%char :: ds ++ chars "_w_o_carb.dat").
    split.
    { rewrite E, <- !app_assoc. cbn [app]. rewrite <- !app_assoc. reflexivity. }
    apply matches_lits_split. eexists. split; [reflexivity |].
    apply matches_lits_split. eexists. split; [reflexivity |].
    apply matches_lits_split. eexists. split; [reflexivity |].
    apply matches_raw_split. exists L. eexists. split; [exact HL |].
    split; [reflexivity |].
    apply matches_lits_split. eexists. split; [reflexivity |].
    apply matches_raw_split. exists O. eexists. split; [exact HO |].
    split; [reflexivity |].
    apply matches_count_tail. exists ds. auto.
Qed.

Lemma pattern_accepts_exactly_witness :
  re_match scenario_precise
    "emulated_mean_values_H2SO4_jan_ilat_34x375_ilon_-10.3125_7_w_o_carb.dat" = true.
Proof.
  destruct (pattern_accepts_exactly "jan" scenario_lat scenario_lon 4)
    as (pat & Hp & Hm).
  vm_compute in Hp. injection Hp as <-.
  apply Hm. exists (chars "34x375"), (chars "-10.3125"), (chars "7"), [].
  split; [repeat constructor |]. split; [repeat constructor |].
  split; [discriminate |]. split; [repeat constructor |].
  split; [auto |]. reflexivity.
Defined.

(* ================================================================== *)
(** * More on the discovery of the GP file *)
(* ================================================================== *)

Lemma first_nonempty_In {A} (ls : list (list A)) (x : A) :
  In x (first_nonempty ls) → ∃ l, In l ls ∧ In x l.
Proof.
  induction ls as [|l ls IH]; simpl; [intros [] |].
  destruct l as [|y l].
  - intros H. destruct (IH H) as (l' & Hl' & Hx). exists l'. auto.
  - intros H. exists (y :: l). auto.
Qed.

Lemma first_nonempty_head {A} (l : list A) (ls : list (list A)) :
  l ≠ [] → first_nonempty (l :: ls) = l.
Proof. destruct l; [congruence | reflexivity]. Qed.

Lemma has_prefix_occurs p s : has_prefix p s = true → occurs p s = true.
Proof. intros H. destruct s; simpl; rewrite H; reflexivity. Qed.

(** A file of a tier is a file of the listing whose name ends with
    [.dat] and holds the prefix of the GP files. *)
Lemma tier_file precise relaxed month la lo (l : list file) (t : list file) f :
  In t (tiers precise relaxed month la lo l) → In f t →
  In f l ∧ endswith ".dat" (fname f) = true ∧ contains emu_prefix (fname f) = true.
Proof.
  unfold tiers. intros Ht Hf.
  assert (Hpat : ∀ pat, In f (pattern_tier pat l) →
            In f l ∧ endswith ".dat" (fname f) = true
            ∧ contains emu_prefix (fname f) = true).
  { intros pat H. unfold pattern_tier, glob in H.
    apply filter_In in H as [H _]. apply filter_In in H as [Hl Hg].
    unfold glob_match in Hg. apply andb_true_iff in Hg as [Hg _].
    apply andb_true_iff in Hg as [Hs He].
    split; [exact Hl |]. split; [exact He |].
    apply has_prefix_occurs, Hs. }
  destruct Ht as [<- | Ht]; [apply (Hpat precise Hf) |].
  apply in_app_or in Ht as [Ht | [<- | []]].
  - apply in_map_iff in Ht as (pat & <- & _). apply (Hpat pat Hf).
  - unfold token_tier, glob in Hf.
    apply filter_In in Hf as [Hf Htok]. apply filter_In in Hf as [Hl Hg].
    unfold glob_match in Hg. apply andb_true_iff in Hg as [Hg _].
    apply andb_true_iff in Hg as [_ He].
    split; [exact Hl |]. split; [exact He |].
    unfold token_match in Htok.
    apply andb_true_iff in Htok as [Htok _].
    apply andb_true_iff in Htok as [Htok _].
    apply andb_true_iff in Htok as [Htok _]. exact Htok.
Qed.

(** A candidate the search ends with is a file of a search root. *)
Lemma winner_file fs precise relaxed month la lo roots root f :
  In (root, f) (winners fs precise relaxed month la lo roots) →
  In root roots
  ∧ ∃ l, fs !! root = Some l ∧ In f l
      ∧ endswith ".dat" (fname f) = true
      ∧ contains emu_prefix (fname f) = true.
Proof.
  unfold winners. intros H.
  apply first_nonempty_In in H as (cs & Hcs & Hin).
  apply in_map_iff in Hcs as (root' & <- & Hroot).
  unfold root_candidates in Hin.
  destruct (fs !! root') as [l|] eqn:El; [| destruct Hin].
  apply in_map_iff in Hin as (f' & [= <- <-] & Hf).
  split; [exact Hroot |]. exists l. split; [exact El |].
  apply first_nonempty_In in Hf as (t & Ht & Hf).
  apply (tier_file _ _ _ _ _ _ _ _ Ht Hf).
Qed.

Lemma lookup_file_In (l : list file) (f : file) :
  In f l → is_Some (lookup_file l (fname f)).
Proof.
  unfold lookup_file. induction l as [|g l IH]; [intros [] |].
  simpl. destruct (String.eqb (fname g) (fname f)) eqn:E; [eauto |].
  intros [-> | H]; [| apply IH, H].
  rewrite String.eqb_refl in E. discriminate.
Qed.

(** The file at the head of the sorted list: the earlier candidates are
    older, the later ones are not newer. *)
Lemma sort_newest_first_stable (cs : list candidate) :
  cs ≠ [] →
  ∃ before c after rest,
    cs = before ++ c :: after
    ∧ sort_newest_first cs = c :: rest
    ∧ Forall (fun d => (st_mtime d.2 < st_mtime c.2)%Q) before
    ∧ Forall (fun d => (st_mtime d.2 <= st_mtime c.2)%Q) after.
Proof.
  induction cs as [|c0 cs IH]; [congruence |]. intros _.
  destruct cs as [|c1 cs].
  { exists [], c0, [], []. repeat split; constructor. }
  destruct IH as (before & c & after & rest & Hcs & Hsort & Hb & Ha); [discriminate |].
  change (sort_newest_first (c0 :: c1 :: cs))
    with (insert_newest c0 (sort_newest_first (c1 :: cs))).
  rewrite Hsort. cbn [insert_newest].
  destruct (st_mtime c0.2 ?= st_mtime c.2)%Q eqn:E.
  - exists [], c0, (c1 :: cs), (c :: rest).
    split; [reflexivity |]. split; [reflexivity |]. split; [constructor |].
    apply Qeq_alt in E. rewrite Hcs. apply Forall_app. split.
    + eapply Forall_impl; [exact Hb |]. simpl. intros d Hd.
      rewrite E. apply Qlt_le_weak, Hd.
    + constructor; [rewrite E; apply Qle_refl |].
      eapply Forall_impl; [exact Ha |]. simpl. intros d Hd. rewrite E. exact Hd.
  - exists (c0 :: before), c, after, (insert_newest c0 rest).
    split; [rewrite Hcs; reflexivity |]. split; [reflexivity |].
    split; [| exact Ha]. constructor; [apply Qlt_alt, E | exact Hb].
  - exists [], c0, (c1 :: cs), (c :: rest).
    split; [reflexivity |]. split; [reflexivity |]. split; [constructor |].
    apply Qgt_alt in E. rewrite Hcs. apply Forall_app. split.
    + eapply Forall_impl; [exact Hb |]. simpl. intros d Hd.
      apply Qlt_le_weak. eapply Qlt_trans; eassumption.
    + constructor; [apply Qlt_le_weak, E |].
      eapply Forall_impl; [exact Ha |]. simpl. intros d Hd.
      eapply Qle_trans; [exact Hd | apply Qlt_le_weak, E].
Qed.

Section DiscoveryMore.
Context {RT : Runtime}.

(** What [find_gp_file] returns, when it returns. *)
Lemma find_gp_file_cases fs repo ilat ilon month p :
  find_gp_file fs repo ilat ilon month = Ok p →
  ∃ precise relaxed1 relaxed2,
    gp_pattern month (format_f 3 ilat) (format_f 4 ilon) = Some precise
    ∧ gp_pattern month (format_f 3 ilat) (format_f 3 ilon) = Some relaxed1
    ∧ gp_pattern month (py_repr ilat) (py_repr ilon) = Some relaxed2
    ∧ let cs := winners fs precise [relaxed1; relaxed2] month
                  (format_f 3 ilat) (format_f 3 ilon) (search_roots repo ilat) in
      (cs = [] ∧ p = raw_input repo ilat ilon
       ∧ file_exists fs (raw_input repo ilat ilon) = true)
      ∨ (cs ≠ [] ∧ ∃ root f rest,
           sort_newest_first cs = (root, f) :: rest ∧ p = Path root (fname f)).
Proof.
  intros H.
  destruct (gp_pattern month (format_f 3 ilat) (format_f 4 ilon)) as [precise|] eqn:Hp.
  2:{ unfold find_gp_file in H. rewrite Hp in H. discriminate. }
  destruct (gp_pattern month (format_f 3 ilat) (format_f 3 ilon)) as [r1|] eqn:H1.
  2:{ unfold find_gp_file in H. rewrite Hp, H1 in H. discriminate. }
  destruct (gp_pattern month (py_repr ilat) (py_repr ilon)) as [r2|] eqn:H2.
  2:{ unfold find_gp_file in H. rewrite Hp, H1, H2 in H. discriminate. }
  exists precise, r1, r2. split; [reflexivity |]. split; [reflexivity |].
  split; [reflexivity |]. intros cs.
  rewrite (find_gp_file_winners fs repo ilat ilon month _ _ _ Hp H1 H2) in H.
  fold cs in H. destruct cs as [|c cs'] eqn:Ecs.
  - left. destruct (file_exists fs _) eqn:Hr; [| discriminate].
    injection H as <-. auto.
  - right. split; [discriminate |].
    destruct (sort_newest_first (c :: cs')) as [|[root f] rest]; [discriminate |].
    injection H as <-. exists root, f, rest. auto.
Qed.

Lemma find_gp_file_head fs repo ilat ilon month precise relaxed1 relaxed2
    root f rest :
  gp_pattern month (format_f 3 ilat) (format_f 4 ilon) = Some precise →
  gp_pattern month (format_f 3 ilat) (format_f 3 ilon) = Some relaxed1 →
  gp_pattern month (py_repr ilat) (py_repr ilon) = Some relaxed2 →
  sort_newest_first
    (winners fs precise [relaxed1; relaxed2] month
       (format_f 3 ilat) (format_f 3 ilon) (search_roots repo ilat))
  = (root, f) :: rest →
  find_gp_file fs repo ilat ilon month = Ok (Path root (fname f)).
Proof.
  intros Hp H1 H2 Hs.
  rewrite (find_gp_file_winners fs repo ilat ilon month _ _ _ Hp H1 H2).
  destruct (winners fs precise [relaxed1; relaxed2] month _ _ _) as [|c cs];
    [discriminate |].
  rewrite Hs. reflexivity.
Qed.

(** X4.  The file [find_gp_file] returns exists, and its name ends with
    [.dat].  It is the raw input of the grid cell, or a file of one of
    the three search roots of the latitude whose name holds
    [emulated_mean_values_H2SO4_]. *)
Theorem found_file_exists fs repo ilat ilon month p :
  find_gp_file fs repo ilat ilon month = Ok p →
  is_Some (stat fs p)
  ∧ endswith ".dat" (pname p) = true
  ∧ (p = raw_input repo ilat ilon
     ∨ (In (pdir p) (search_roots repo ilat)
        ∧ contains emu_prefix (pname p) = true)).
Proof.
  intros H.
  destruct (find_gp_file_cases _ _ _ _ _ _ H)
    as (precise & r1 & r2 & _ & _ & _ & [(_ & -> & Hraw) | (Hne & root & f & rest & Hs & ->)]).
  - split; [| split; [| left; reflexivity]].
    + unfold file_exists in Hraw. apply bool_decide_eq_true in Hraw. exact Hraw.
    + unfold raw_input, endswith. cbn [pname].
      rewrite !chars_app, !rev_app_distr, <- !app_assoc. apply has_prefix_app.
  - assert (Hin : In (root, f)
                    (winners fs precise [r1; r2] month (format_f 3 ilat)
                       (format_f 3 ilon) (search_roots repo ilat))).
    { apply sort_newest_first_In. rewrite Hs. left. reflexivity. }
    apply winner_file in Hin as (Hroot & l & Hl & Hf & Hdat & Hemu).
    split; [| split; [exact Hdat | right; split; assumption]].
    unfold stat. cbn [pdir pname]. rewrite Hl. simpl.
    apply lookup_file_In, Hf.
Qed.

(** X5.  Among the candidates the search ends with, in the order in which
    they were found, the file returned is the first of the newest:
    every candidate before it is older, none after it is newer. *)
Theorem newest_tie_goes_to_first fs repo ilat ilon month
    precise relaxed1 relaxed2 :
  gp_pattern month (format_f 3 ilat) (format_f 4 ilon) = Some precise →
  gp_pattern month (format_f 3 ilat) (format_f 3 ilon) = Some relaxed1 →
  gp_pattern month (py_repr ilat) (py_repr ilon) = Some relaxed2 →
  let cs := winners fs precise [relaxed1; relaxed2] month
              (format_f 3 ilat) (format_f 3 ilon) (search_roots repo ilat) in
  cs ≠ [] →
  ∃ before root f after,
    cs = before ++ (root, f) :: after
    ∧ find_gp_file fs repo ilat ilon month = Ok (Path root (fname f))
    ∧ Forall (fun d => (st_mtime d.2 < st_mtime f)%Q) before
    ∧ Forall (fun d => (st_mtime d.2 <= st_mtime f)%Q) after.
Proof.
  intros Hp H1 H2 cs Hne.
  destruct (sort_newest_first_stable cs Hne)
    as (before & [root f] & after & rest & Hcs & Hs & Hb & Ha).
  exists before, root, f, after. split; [exact Hcs |]. split; [| split; assumption].
  apply (find_gp_file_head fs repo ilat ilon month _ _ _ root f rest Hp H1 H2 Hs).
Qed.

(** X6.  A GP file in the baseline directory of the latitude that has the
    name of the docstring (the latitude with three decimals, the
    longitude with four, any count) is found by the precise pattern:
    [find_gp_file] returns a file of that directory which the precise
    pattern matches, not older than this one, and [main] recovers a
    sample count from its name. *)
Theorem canonical_file_is_found fs repo ilat ilon month relaxed2 l f n :
  gp_pattern month (py_repr ilat) (py_repr ilon) = Some relaxed2 →
  let root := tiny_gp_out_dir repo ++ ["baseline"; "lat" +:+ format_f 3 ilat] in
  fs !! root = Some l →
  In f l →
  fname f = emulation_name month (format_f 3 ilat) (format_f 4 ilon) n →
  ∃ g precise,
    In g l
    ∧ find_gp_file fs repo ilat ilon month = Ok (Path root (fname g))
    ∧ (st_mtime f <= st_mtime g)%Q
    ∧ gp_pattern month (format_f 3 ilat) (format_f 4 ilon) = Some precise
    ∧ re_match precise (fname g) = true
    ∧ ∃ k, sample_count_of_name (fname g) = Some k.
Proof.
  intros H2 root Hl Hf Hname.
  destruct (plain_name_accepted month (format_f 3 ilat) (format_f 4 ilon) n
              (format_f_plain _ _) (format_f_plain _ _)) as (precise & Hp & Hm & Hg).
  destruct (plain_name_accepted month (format_f 3 ilat) (format_f 3 ilon) 0
              (format_f_plain _ _) (format_f_plain _ _)) as (r1 & H1 & _).
  set (cs := winners fs precise [r1; relaxed2] month
               (format_f 3 ilat) (format_f 3 ilon) (search_roots repo ilat)).
  assert (Htier : In f (pattern_tier precise l)).
  { unfold pattern_tier, glob. apply filter_In. split.
    - apply filter_In. split; [exact Hf |]. rewrite Hname. exact Hg.
    - rewrite Hname. exact Hm. }
  assert (Hcs : cs = List.map (pair root) (pattern_tier precise l)).
  { unfold cs, winners, search_roots. cbn [List.map]. fold root.
    unfold root_candidates at 1. rewrite Hl.
    assert (Hfirst : first_nonempty
                       (tiers precise [r1; relaxed2] month (format_f 3 ilat)
                          (format_f 3 ilon) l) = pattern_tier precise l).
    { unfold tiers. apply first_nonempty_head. intros E. rewrite E in Htier.
      destruct Htier. }
    rewrite Hfirst. apply first_nonempty_head.
    intros E. apply (f_equal length) in E. rewrite length_map in E.
    destruct (pattern_tier precise l); [destruct Htier | discriminate]. }
  assert (Hne : cs ≠ []).
  { rewrite Hcs. intros E. apply (f_equal length) in E. rewrite length_map in E.
    destruct (pattern_tier precise l); [destruct Htier | discriminate]. }
  destruct (newest_candidate cs Hne) as ([root' g] & rest & Hs & Hin & Hmax).
  rewrite Hcs in Hin. apply in_map_iff in Hin as (g' & [= <- <-] & Hg').
  exists g', precise.
  pose proof Hg' as Hg''. unfold pattern_tier, glob in Hg''.
  apply filter_In in Hg'' as [Hg'' Hmatch]. apply filter_In in Hg'' as [Hgl _].
  split; [exact Hgl |]. split; [| split; [| split; [exact Hp | split; [exact Hmatch |]]]].
  - apply (find_gp_file_head fs repo ilat ilon month _ _ _ root g' rest Hp H1 H2 Hs).
  - apply (Hmax (root, f)). rewrite Hcs. apply in_map. exact Htier.
  - destruct (matched_name_shape _ _ _ _ _ Hp Hmatch)
      as (base & ds & nl & Hne' & Hds & Hnl & E).
    exists (digits_value ds). apply (sample_count_shape _ base ds nl); assumption.
Qed.

End DiscoveryMore.

Lemma pattern_names_carry_count_witness :
  ∃ n, sample_count_of_name (Demo.gp_name "3") = Some n.
Proof.
  apply (pattern_names_carry_count "jan" "34.375" "-10.3125" scenario_precise);
    vm_compute; reflexivity.
Defined.

Lemma found_file_exists_witness :
  is_Some (stat Demo.world Demo.gp_path)
  ∧ endswith ".dat" (pname Demo.gp_path) = true.
Proof.
  destruct (found_file_exists (RT := Demo.runtime) Demo.world Demo.repo
              scenario_lat scenario_lon "jan" Demo.gp_path) as (H1 & H2 & _).
  - vm_compute. reflexivity.
  - exact (conj H1 H2).
Defined.

Lemma newest_tie_goes_to_first_witness :
  find_gp_file (RT := Demo.runtime) Demo.world_ties Demo.repo
    scenario_lat scenario_lon "jan"
  = Ok (Path (tiny_gp_out_dir Demo.repo ++ ["baseline"; "lat34.375"])
          (Demo.gp_name "3")).
Proof.
  destruct (newest_tie_goes_to_first (RT := Demo.runtime)
              Demo.world_ties Demo.repo scenario_lat scenario_lon "jan"
              (default [] (gp_pattern "jan" "34.375" "-10.3125"))
              (default [] (gp_pattern "jan" "34.375" "-10.312"))
              (default [] (gp_pattern "jan" "34.375" "-10.3125")))
    as (before & root & f & after & Hcs & Hfind & Hb & Ha).
  - vm_compute. reflexivity.
  - vm_compute. reflexivity.
  - vm_compute. reflexivity.
  - vm_compute. discriminate.
  - rewrite Hfind. vm_compute in Hcs.
    destruct before as [|b0 [|b1 [|b2 before]]].
    + simpl in Hcs. inversion Hcs; subst. exfalso.
      apply Forall_inv in Ha. vm_compute in Ha. apply Ha. reflexivity.
    + simpl in Hcs. inversion Hcs; subst. reflexivity.
    + simpl in Hcs. inversion Hcs; subst. exfalso.
      apply Forall_inv_tail, Forall_inv in Hb. vm_compute in Hb. discriminate Hb.
    + exfalso. simpl in Hcs. inversion Hcs as [[E0 E1 E2 E3]].
      destruct before; discriminate E3.
Defined.

Lemma canonical_file_is_found_witness :
  ∃ g, find_gp_file (RT := Demo.runtime) Demo.world Demo.repo
         scenario_lat scenario_lon "jan"
       = Ok (Path (tiny_gp_out_dir Demo.repo ++ ["baseline"; "lat34.375"]) (fname g))
     ∧ ∃ k, sample_count_of_name (fname g) = Some k.
Proof.
  destruct (canonical_file_is_found (RT := Demo.runtime) Demo.world Demo.repo
              scenario_lat scenario_lon "jan"
              (default [] (gp_pattern "jan" "34.375" "-10.3125"))
              [File (Demo.gp_name "3") 10 ["10"; "20"; "40"]]
              (File (Demo.gp_name "3") 10 ["10"; "20"; "40"]) 3)
    as (g & precise & _ & Hfind & _ & _ & _ & Hk).
  - vm_compute. reflexivity.
  - vm_compute. reflexivity.
  - left. reflexivity.
  - vm_compute. reflexivity.
  - exists g. exact (conj Hfind Hk).
Defined.

(** ** The directories the discovery reads *)

Section Directories.
Context {RT : Runtime}.

(** X7.  [find_gp_file] reads four directories: the three search roots of
    the latitude and the directory of the raw inputs.  Its result is the
    same on two file systems that agree on these.  So it does not see a
    file that lies in [gp_emulation], [gp_emulation/baseline] or
    [gp_emulation/optimised] itself, outside the folder of the
    latitude, and it does not see the outputs of the GAM stage. *)
Theorem discovery_reads_four_directories repo ilat ilon month :
  (∀ fs fs',
     (∀ root, In root (search_roots repo ilat) → fs' !! root = fs !! root) →
     fs' !! tiny_input_dir repo = fs !! tiny_input_dir repo →
     find_gp_file fs' repo ilat ilon month = find_gp_file fs repo ilat ilon month)
  ∧ (∀ fs d l,
       In d [tiny_gp_out_dir repo; tiny_gp_out_dir repo ++ ["baseline"];
             tiny_gp_out_dir repo ++ ["optimised"]] →
       find_gp_file (<[d := l]> fs) repo ilat ilon month
       = find_gp_file fs repo ilat ilon month)
  ∧ (∀ fs sub l,
       find_gp_file (<[tiny_gam_out_dir repo ++ sub := l]> fs) repo ilat ilon month
       = find_gp_file fs repo ilat ilon month).
Proof.
  split; [intros fs fs'; apply find_gp_file_agree |].
  assert (Hlat : ∀ s, "lat" +:+ s ≠ "baseline" ∧ "lat" +:+ s ≠ "optimised").
  { intros s. split; discriminate. }
  split.
  - intros fs d l Hd. apply find_gp_file_agree.
    + intros root Hroot. apply lookup_insert_ne. intros ->.
      unfold search_roots, tiny_gp_out_dir in *. cbn [In] in Hd, Hroot.
      destruct (Hlat (format_f 3 ilat)) as (Hb & Ho).
      destruct Hd as [Hd | [Hd | [Hd | []]]];
        destruct Hroot as [Hr | [Hr | [Hr | []]]];
        rewrite <- Hr in Hd; rewrite <- ?app_assoc in Hd;
        apply app_inv_head in Hd; cbn [app] in Hd;
        try discriminate Hd; injection Hd as Hd; congruence.
    + apply lookup_insert_ne. intros E.
      unfold tiny_gp_out_dir, tiny_input_dir in *. cbn [In] in Hd.
      destruct Hd as [Hd | [Hd | [Hd | []]]]; rewrite <- Hd in E;
        rewrite <- ?app_assoc in E; apply app_inv_head in E; discriminate E.
  - intros fs sub l. apply find_gp_file_agree.
    + intros root Hroot. apply lookup_insert_ne. intros E.
      unfold search_roots, tiny_gp_out_dir, tiny_gam_out_dir in *. cbn [In] in Hroot.
      destruct Hroot as [Hr | [Hr | [Hr | []]]]; rewrite <- Hr in E;
        rewrite <- ?app_assoc in E; apply app_inv_head in E; discriminate E.
    + apply lookup_insert_ne. intros E.
      unfold tiny_gam_out_dir, tiny_input_dir in *.
      rewrite <- ?app_assoc in E; apply app_inv_head in E; discriminate E.
Qed.

End Directories.

Lemma discovery_reads_four_directories_witness :
  find_gp_file (RT := Demo.runtime)
    (<[tiny_gp_out_dir Demo.repo ++ ["baseline"] :=
         [File (Demo.gp_name "3") 10 ["10"; "20"; "40"]]]> Demo.world_raw3)
    Demo.repo scenario_lat scenario_lon "jan"
  = Ok (Path (tiny_input_dir Demo.repo) "lat_34.375_lon_-10.312.dat").
Proof.
  destruct (discovery_reads_four_directories (RT := Demo.runtime) Demo.repo
              scenario_lat scenario_lon "jan") as (_ & H & _).
  rewrite H; [vm_compute; reflexivity |]. right. left. reflexivity.
Defined.

(* ================================================================== *)
(** * The response vector *)
(* ================================================================== *)

Lemma all_some_Forall2 {A} (l : list (option A)) (xs : list A) :
  all_some l = Some xs → Forall2 (fun o x => o = Some x) l xs.
Proof.
  revert xs. induction l as [|o l IH]; intros xs; simpl.
  - intros [= <-]. constructor.
  - destruct o as [x|]; [| discriminate]. simpl.
    destruct (all_some l) as [ys|]; [| discriminate]. simpl.
    intros [= <-]. constructor; [reflexivity | apply IH; reflexivity].
Qed.

Section Response.
Context {RT : Runtime}.

(** The rows [np.loadtxt] reads are not empty and have one length. *)
Lemma parsed_rows_shape f rows :
  parsed_rows f = Some rows →
  Forall (fun r => r ≠ []) rows ∧ Forall (fun r => length r = shape1 rows) rows.
Proof.
  unfold parsed_rows. unfold mbind, option_bind.
  set (fields := List.filter _ _).
  destruct (all_some _) as [rows0|] eqn:E; [| discriminate]. simpl.
  destruct (rectangular rows0) eqn:Hrect; [| discriminate]. intros [= <-].
  split.
  - apply all_some_Forall2 in E.
    assert (Hf : Forall (fun r : list string => r ≠ []) fields).
    { apply Forall_forall. intros r Hr. apply list_elem_of_In in Hr.
      apply filter_In in Hr as [_ Hr]. destruct r; [discriminate | discriminate]. }
    clear -E Hf. revert E Hf. generalize fields. clear fields. intros fields.
    revert rows0. induction fields as [|fl fields IH]; intros rows0 E Hf.
    + inversion E. constructor.
    + rewrite map_cons in E. inversion E as [|? r ? rs Hr Hrs]; subst.
      inversion Hf as [|? ? Hfl Hf']; subst.
      constructor; [| apply IH; assumption].
      apply all_some_Forall2 in Hr. intros ->. inversion Hr as [Hnil|].
      destruct fl; [congruence | discriminate].
  - unfold rectangular in Hrect. apply Forall_forall. intros r Hr.
    rewrite forallb_forall in Hrect. apply Nat.eqb_eq, Hrect, list_elem_of_In, Hr.
Qed.

(** X8.  The response vector of a GP file.  A file with one line of numbers
    gives the numbers of that line; every other file gives one response
    per line of numbers, the first number of the line (what follows it
    on the line is not used). *)
Theorem response_is_first_column fs p a :
  np_loadtxt fs p = Ok a →
  ∃ f rows,
    stat fs p = Some f ∧ parsed_rows f = Some rows
    ∧ (∀ r, rows = [r] → response_vector a = r)
    ∧ (length rows ≠ 1%nat →
       length (response_vector a) = length rows
       ∧ Forall2 (fun v r => head r = Some v) (response_vector a) rows).
Proof.
  unfold np_loadtxt. destruct (stat fs p) as [f|] eqn:Hs; [| discriminate].
  destruct (parsed_rows f) as [rows|] eqn:Hp; [| discriminate].
  intros [= <-]. exists f, rows. split; [reflexivity |]. split; [exact Hp |].
  destruct (parsed_rows_shape f rows Hp) as (Hne & Hw).
  assert (Hcol : ∀ m : list (list fval), Forall (fun r => r ≠ []) m →
                 Forall2 (fun v r => head r = Some v) (col 0 m) m).
  { intros m Hm. unfold col. induction Hm as [|r m Hr _ IH]; simpl; constructor;
      [| exact IH].
    destruct r; [congruence | reflexivity]. }
  split.
  - intros r ->. destruct r as [|v [|w r]]; reflexivity.
  - intros Hlen.
    assert (Hy : response_vector (squeeze rows) = col 0 rows).
    { destruct rows as [|r1 [|r2 rows]]; [reflexivity | simpl in Hlen; lia |].
      inversion Hne as [|? ? Hr1 _]; subst.
      destruct r1 as [|a [|b r1]]; [congruence | reflexivity | reflexivity]. }
    rewrite Hy. split; [apply length_col | apply Hcol, Hne].
Qed.

End Response.

Lemma response_is_first_column_witness :
  ∃ f rows,
    stat Demo.world_raw3 (raw_input Demo.repo scenario_lat scenario_lon) = Some f
    ∧ parsed_rows (RT := Demo.runtime) f = Some rows
    ∧ rows = [[Fin 1; Fin 2]; [Fin 3; Fin 4]]
    ∧ response_vector (Arr2 rows) = [Fin 1; Fin 3].
Proof.
  destruct (response_is_first_column (RT := Demo.runtime) Demo.world_raw3
              (raw_input Demo.repo scenario_lat scenario_lon)
              (Arr2 [[Fin 1; Fin 2]; [Fin 3; Fin 4]]))
    as (f & rows & Hs & Hp & _ & _).
  - vm_compute. reflexivity.
  - exists f, rows. split; [exact Hs |]. split; [exact Hp |].
    assert (E : rows = [[Fin 1; Fin 2]; [Fin 3; Fin 4]]).
    { vm_compute in Hs. injection Hs as <-. vm_compute in Hp.
      injection Hp as <-. reflexivity. }
    split; [exact E |]. rewrite E. reflexivity.
Defined.

(* ================================================================== *)
(** * More on the cleaning *)
(* ================================================================== *)

Lemma zip_with_all_finite X0 y0 :
  Forall (Forall finite) X0 → Forall finite y0 →
  zip_with all_finite_row X0 y0 = replicate (length (zip_with all_finite_row X0 y0)) true.
Proof.
  intros HX. revert y0. induction HX as [|r X0 Hr _ IH]; intros y0 Hy; [reflexivity |].
  destruct Hy as [|v y0 Hv Hy]; [reflexivity |]. simpl.
  rewrite <- IH by exact Hy. f_equal.
  unfold all_finite_row. rewrite Hv. simpl.
  apply forallb_forall. intros x Hx. rewrite Forall_forall in Hr.
  apply Hr, list_elem_of_In, Hx.
Qed.

Lemma select_all {A} (l : list A) n :
  (length l ≤ n)%nat → select (replicate n true) l = l.
Proof.
  revert n. induction l as [|x l IH]; intros [|n] Hn; simpl in *; try reflexivity;
    [lia |].
  rewrite IH by lia. reflexivity.
Qed.

Lemma shape1_select_width w mask (X0 : list (list fval)) :
  Forall (fun r => length r = w) X0 →
  Forall (fun r => length r = shape1 (select mask X0)) (select mask X0).
Proof.
  intros H. pose proof (select_width w mask X0 H) as Hs.
  destruct (select mask X0) as [|r rs]; [constructor |]. simpl.
  inversion Hs as [|? ? Hr Hrs]. rewrite Hr.
  constructor; [exact Hr | exact Hrs].
Qed.

(** X9.  Cleaning what has been cleaned keeps every row: the mask built from
    the cleaned matrix and the cleaned responses is true throughout. *)
Theorem cleaning_twice_keeps_all X0 y0 :
  length X0 = length y0 →
  Forall (fun r => length r = shape1 X0) X0 →
  let mask := clean_mask X0 y0 in
  let Xn := select mask X0 in
  let yn := select mask y0 in
  clean_mask Xn yn = replicate (length Xn) true
  ∧ select (clean_mask Xn yn) Xn = Xn
  ∧ select (clean_mask Xn yn) yn = yn
  ∧ length yn = length Xn.
Proof.
  intros Hlen Hw mask Xn yn.
  assert (Hmask : mask = zip_with all_finite_row X0 y0)
    by (apply clean_mask_rows; assumption).
  assert (Hml : length mask = length X0).
  { rewrite Hmask, length_zip_with. lia. }
  assert (Hlens : length yn = length Xn).
  { unfold Xn, yn. rewrite !length_select_mask by lia. reflexivity. }
  assert (HXf : Forall (Forall finite) Xn)
    by (unfold Xn; rewrite Hmask; apply select_rows_finite).
  assert (Hyf : Forall finite yn)
    by (unfold yn; rewrite Hmask; apply select_responses_finite).
  assert (Hagain : clean_mask Xn yn = replicate (length Xn) true).
  { rewrite clean_mask_rows.
    - rewrite (zip_with_all_finite Xn yn HXf Hyf), length_zip_with.
      f_equal. lia.
    - congruence.
    - apply (shape1_select_width (shape1 X0)), Hw. }
  split; [exact Hagain |]. rewrite Hagain.
  split; [apply select_all; lia |]. split; [apply select_all; lia | exact Hlens].
Qed.

Lemma cleaning_twice_keeps_all_witness :
  let mask := clean_mask Demo.sample_matrix Demo.responses_nan in
  mask = [true; false; true]
  ∧ clean_mask (select mask Demo.sample_matrix) (select mask Demo.responses_nan)
    = [true; true].
Proof.
  destruct (cleaning_twice_keeps_all Demo.sample_matrix Demo.responses_nan)
    as (H & _).
  - reflexivity.
  - repeat constructor.
  - split; [vm_compute; reflexivity |]. rewrite H. vm_compute. reflexivity.
Defined.

(* ================================================================== *)
(** * More on the sample loader *)
(* ================================================================== *)

Lemma index_columns_take idx k (m : list (list fval)) :
  index_columns idx (take k m) = take k (index_columns idx m).
Proof.
  unfold index_columns. revert k. induction m as [|r m IH]; intros [|k]; simpl;
    try reflexivity.
  rewrite IH. reflexivity.
Qed.

Lemma ascending_weaken lo lo' idx :
  (lo' ≤ lo)%nat → ascending lo idx = true → ascending lo' idx = true.
Proof.
  destruct idx as [|j idx]; [reflexivity |]. simpl. intros Hle H.
  apply andb_true_iff in H as [Hj H]. apply Nat.leb_le in Hj.
  apply andb_true_iff. split; [apply Nat.leb_le; lia | exact H].
Qed.

(** The entries at increasing positions of a row are a sublist of it. *)
Lemma pick_sublist (d : fval) (r : list fval) (idx : list nat) (base : nat) :
  ascending base idx = true →
  Forall (fun j => j < base + length r)%nat idx →
  sublist (List.map (fun j => nth (j - base) r d) idx) r.
Proof.
  revert idx base. induction r as [|x r IH]; intros idx base Hs Hb.
  - destruct idx as [|j idx]; [constructor |].
    simpl in Hs. apply andb_true_iff in Hs as [Hj _]. apply Nat.leb_le in Hj.
    inversion Hb; subst. simpl in *. lia.
  - destruct idx as [|j idx]; [apply sublist_nil_l |].
    simpl in Hs. apply andb_true_iff in Hs as [Hj Hs]. apply Nat.leb_le in Hj.
    inversion Hb as [|? ? Hjb Hb']; subst. simpl in Hjb.
    assert (Hshift : ∀ k, (S base ≤ k)%nat →
              nth (k - base) (x :: r) d = nth (k - S base) r d).
    { intros k Hk. replace (k - base)%nat with (S (k - S base)) by lia. reflexivity. }
    destruct (decide (j = base)) as [-> | Hne].
    + simpl. rewrite Nat.sub_diag. apply sublist_skip.
      assert (Hb'' : Forall (fun j => j < S base + length r)%nat idx).
      { eapply Forall_impl; [exact Hb' |]. simpl. intros k Hk. lia. }
      specialize (IH idx (S base) Hs Hb'').
      erewrite map_ext_in; [exact IH |].
      intros k Hk. apply Hshift.
      clear -Hs Hk. destruct idx as [|j idx]; [destruct Hk |].
      revert j Hs Hk. generalize (S base). induction idx as [|j' idx IHi];
        intros lo j Hs Hk; simpl in Hs; apply andb_true_iff in Hs as [Hj Hs];
        apply Nat.leb_le in Hj.
      * destruct Hk as [<- | []]. exact Hj.
      * destruct Hk as [<- | Hk]; [exact Hj |].
        specialize (IHi (S j) j' Hs Hk). lia.
    + apply sublist_cons.
      assert (Hs' : ascending (S base) (j :: idx) = true).
      { cbn [ascending]. rewrite Hs, andb_true_r. apply Nat.leb_le. lia. }
      assert (Hb'' : Forall (fun j => j < S base + length r)%nat (j :: idx)).
      { eapply Forall_impl; [exact Hb |]. simpl. intros k Hk. lia. }
      specialize (IH (j :: idx) (S base) Hs' Hb'').
      erewrite map_ext_in; [exact IH |].
      intros k Hk. apply Hshift.
      destruct Hk as [<- | Hk]; [lia |].
      clear -Hs Hk Hj. assert (Hlo : (S base ≤ S j)%nat) by lia.
      revert Hlo Hs Hk. generalize (S j). generalize (S base). clear.
      induction idx as [|j' idx IHi]; intros lo lo' Hlo Hs Hk; [destruct Hk |].
      simpl in Hs. apply andb_true_iff in Hs as [Hj Hs]. apply Nat.leb_le in Hj.
      destruct Hk as [<- | Hk]; [lia |].
      apply (IHi lo (S j')); [lia | exact Hs | exact Hk].
Qed.

Lemma PAR_INDEX_bound : Forall (fun j => j < 55)%nat PAR_INDEX.
Proof. unfold PAR_INDEX. repeat (constructor; [lia |]). constructor. Qed.

(** A row of the subset holds the entries of the raw row at the
    positions of [PAR_INDEX], in the order of the raw row. *)
Lemma subset_row_sublist (r : list fval) :
  (55 ≤ length r)%nat → sublist (List.map (fun j => nth j r NaN) PAR_INDEX) r.
Proof.
  intros Hr.
  pose proof (pick_sublist NaN r PAR_INDEX 0 eq_refl) as H.
  erewrite map_ext in H; [apply H |].
  - eapply Forall_impl; [apply PAR_INDEX_bound |]. simpl. intros j Hj. lia.
  - intros j. simpl. rewrite Nat.sub_0_r. reflexivity.
Qed.

Section LoaderMore.
Context {RT : Runtime}.

(** What the loader gives for [R] rows when it succeeds. *)
Lemma load_lhc_first_n_ok fs p R X0 :
  load_lhc_first_n fs p R = Ok X0 →
  ∃ f rows, stat fs p = Some f ∧ parsed_rows f = Some rows
    ∧ (2 ≤ length rows)%nat ∧ (55 ≤ shape1 rows)%nat ∧ (R ≤ length rows)%nat
    ∧ rectangular rows = true
    ∧ X0 = index_columns PAR_INDEX (take R rows).
Proof.
  unfold load_lhc_first_n, file_exists, np_loadtxt.
  destruct (stat fs p) as [f|] eqn:Hs.
  2:{ rewrite bool_decide_false by (intros [x Hx]; discriminate). discriminate. }
  rewrite bool_decide_true by eauto. simpl. unfold mbind, result_bind.
  destruct (parsed_rows f) as [rows|] eqn:Hp; [| discriminate].
  destruct (squeeze rows) as [v|v|m] eqn:Hq; try discriminate.
  pose proof (squeeze_narrow _ _ Hq) as ->.
  destruct (Nat.ltb (shape1 rows) 55) eqn:Hw; [discriminate |].
  destruct (Nat.ltb (shape0 rows) R) eqn:HR; [discriminate |].
  intros [= <-]. apply Nat.ltb_ge in Hw, HR. unfold shape0 in HR.
  exists f, rows. split; [reflexivity |]. split; [exact Hp |].
  split.
  { destruct (Nat.lt_ge_cases (length rows) 2) as [Hshort | Hlong]; [| exact Hlong].
    exfalso. apply (squeeze_not_matrix rows Hshort). rewrite Hq. reflexivity. }
  split; [exact Hw |]. split; [exact HR |]. split; [| reflexivity].
  unfold parsed_rows in Hp. unfold mbind, option_bind in Hp.
  destruct (all_some _) as [rows0|]; [| discriminate]. simpl in Hp.
  destruct (rectangular rows0) eqn:Hrect; [| discriminate]. congruence.
Qed.

Lemma load_lhc_first_n_rows fs p R f rows :
  stat fs p = Some f → parsed_rows f = Some rows →
  (2 ≤ length rows)%nat → (55 ≤ shape1 rows)%nat → (R ≤ length rows)%nat →
  load_lhc_first_n fs p R = Ok (index_columns PAR_INDEX (take R rows)).
Proof.
  intros Hs Hp H2 H55 HR.
  unfold load_lhc_first_n, file_exists, np_loadtxt. rewrite Hs, Hp.
  rewrite bool_decide_true by eauto. simpl. unfold mbind, result_bind.
  rewrite squeeze_matrix by lia.
  assert (Hw : Nat.ltb (shape1 rows) 55 = false) by (apply Nat.ltb_ge, H55).
  assert (Hn : Nat.ltb (shape0 rows) R = false) by (apply Nat.ltb_ge, HR).
  rewrite Hw, Hn. reflexivity.
Qed.

(** X10.  Asking for fewer rows gives the first rows of what asking for more
    gives.  When the file has too few rows for a count it has too few
    for every larger count, and every other failure does not depend on
    the count. *)
Theorem loader_prefix fs p R R' :
  (R' ≤ R)%nat →
  (∀ X0, load_lhc_first_n fs p R = Ok X0 →
     load_lhc_first_n fs p R' = Ok (take R' X0))
  ∧ (load_lhc_first_n fs p R' = Raise TooFewRows →
     load_lhc_first_n fs p R = Raise TooFewRows)
  ∧ (∀ e, e ≠ TooFewRows →
     load_lhc_first_n fs p R' = Raise e → load_lhc_first_n fs p R = Raise e).
Proof.
  intros Hle. split; [| split].
  - intros X0 H.
    destruct (load_lhc_first_n_ok _ _ _ _ H)
      as (f & rows & Hs & Hp & H2 & H55 & HR & _ & ->).
    rewrite (load_lhc_first_n_rows fs p R' f rows Hs Hp H2 H55 ltac:(lia)).
    rewrite <- index_columns_take, take_take. do 3 f_equal. lia.
  - unfold load_lhc_first_n. destruct (negb (file_exists fs p)); [discriminate |].
    unfold mbind, result_bind.
    destruct (np_loadtxt fs p) as [[v|v|rows]|e]; try discriminate; [| auto].
    destruct (Nat.ltb (shape1 rows) 55); [discriminate |].
    destruct (Nat.ltb (shape0 rows) R') eqn:E'; [| discriminate]. intros _.
    apply Nat.ltb_lt in E'.
    assert (E : Nat.ltb (shape0 rows) R = true) by (apply Nat.ltb_lt; lia).
    rewrite E. reflexivity.
  - intros e He. unfold load_lhc_first_n.
    destruct (negb (file_exists fs p)); [auto |].
    unfold mbind, result_bind.
    destruct (np_loadtxt fs p) as [[v|v|rows]|e']; auto.
    destruct (Nat.ltb (shape1 rows) 55); [auto |].
    destruct (Nat.ltb (shape0 rows) R') eqn:E'; [congruence | discriminate].
Qed.

Lemma rectangular_width rows :
  rectangular rows = true → Forall (fun r => length r = shape1 rows) rows.
Proof.
  unfold rectangular. intros H. apply Forall_forall. intros r Hr.
  rewrite forallb_forall in H. apply Nat.eqb_eq, H, list_elem_of_In, Hr.
Qed.

(** X11.  Row [k] of what the loader returns is made of the entries of row
    [k] of the file at the 37 positions of [PAR_INDEX], in the order
    they have in the file; and the loader gives the same for every file
    that has these entries in its first [R] rows, whatever it holds in
    the other columns and in the rows that follow. *)
Theorem loader_reads_subset_only fs p R X0 :
  load_lhc_first_n fs p R = Ok X0 →
  ∃ f rows,
    stat fs p = Some f ∧ parsed_rows f = Some rows
    ∧ Forall2 (fun out raw =>
                 sublist out raw
                 ∧ ∀ k j, PAR_INDEX !! k = Some j → out !! k = raw !! j)
        X0 (take R rows)
    ∧ ∀ fs' p' f' rows',
        stat fs' p' = Some f' → parsed_rows f' = Some rows' →
        (2 ≤ length rows')%nat → (55 ≤ shape1 rows')%nat → (R ≤ length rows')%nat →
        Forall2 (fun raw raw' => ∀ j, In j PAR_INDEX → raw !! j = raw' !! j)
          (take R rows) (take R rows') →
        load_lhc_first_n fs' p' R = Ok X0.
Proof.
  intros H.
  destruct (load_lhc_first_n_ok _ _ _ _ H)
    as (f & rows & Hs & Hp & H2 & H55 & HR & Hrect & ->).
  exists f, rows. split; [exact Hs |]. split; [exact Hp |].
  pose proof (rectangular_width rows Hrect) as Hw.
  assert (Hwide : Forall (fun r => 55 ≤ length r)%nat (take R rows)).
  { apply Forall_take. eapply Forall_impl; [exact Hw |]. simpl. intros r ->. exact H55. }
  split.
  - clear H. unfold index_columns. revert Hwide. generalize (take R rows).
    intros t Hwide. induction Hwide as [|r rs Hr _ IH]; [constructor |].
    rewrite map_cons. constructor; [| exact IH].
    split; [apply subset_row_sublist, Hr |].
    intros k j Hk. rewrite lookup_map, Hk. simpl.
    assert (Hj : (j < 55)%nat).
    { pose proof PAR_INDEX_bound as Hb. rewrite Forall_forall in Hb.
      apply Hb. eapply list_elem_of_lookup_2, Hk. }
    destruct (lookup_lt_is_Some_2 r j ltac:(lia)) as [x Hx].
    rewrite Hx. f_equal. apply nth_lookup_Some, Hx.
  - intros fs' p' f' rows' Hs' Hp' H2' H55' HR' Hsame.
    rewrite (load_lhc_first_n_rows fs' p' R f' rows' Hs' Hp' H2' H55' HR').
    f_equal. unfold index_columns. clear -Hsame. revert Hsame.
    generalize (take R rows) (take R rows'). intros t t' Hsame.
    induction Hsame as [|r r' rs rs' Hr _ IH]; [reflexivity |].
    rewrite !map_cons, IH. f_equal. apply map_ext_in. intros j Hj.
    rewrite !nth_lookup, (Hr j Hj). reflexivity.
Qed.

End LoaderMore.

Lemma loader_prefix_witness :
  load_lhc_first_n (RT := Demo.runtime) Demo.world (default_samples Demo.repo) 2
  = Ok (take 2 Demo.sample_matrix).
Proof.
  destruct (loader_prefix (RT := Demo.runtime) Demo.world
              (default_samples Demo.repo) 3 2 ltac:(lia)) as (H & _).
  apply H. vm_compute. reflexivity.
Defined.

Lemma loader_reads_subset_only_witness :
  ∃ f rows,
    stat Demo.world (default_samples Demo.repo) = Some f
    ∧ parsed_rows (RT := Demo.runtime) f = Some rows
    ∧ Forall2 (fun out raw =>
                 sublist out raw
                 ∧ ∀ k j, PAR_INDEX !! k = Some j → out !! k = raw !! j)
        Demo.sample_matrix (take 3 rows).
Proof.
  destruct (loader_reads_subset_only (RT := Demo.runtime) Demo.world
              (default_samples Demo.repo) 3 Demo.sample_matrix)
    as (f & rows & Hs & Hp & Hrows & _).
  - vm_compute. reflexivity.
  - exists f, rows. exact (conj Hs (conj Hp Hrows)).
Defined.

(* ================================================================== *)
(** * More on the estimator *)
(* ================================================================== *)

Section ExactMore.
Local Open Scope Q_scope.








End ExactMore.


Section EstimatorMore.
Context {RT : Runtime}.




End EstimatorMore.




(* ================================================================== *)
(** * Runs and the file system *)
(* ================================================================== *)

Lemma stat_mkdir d fs p : stat (mkdir d fs) p = stat fs p.
Proof.
  unfold stat. destruct (decide (pdir p = d)) as [E | E].
  - rewrite E, mkdir_lookup. destruct (fs !! d); reflexivity.
  - rewrite mkdir_lookup_ne by congruence. reflexivity.
Qed.

Section RunsMore.
Context {RT : Runtime}.

Lemma find_gp_file_stat fs repo ilat ilon month p :
  find_gp_file fs repo ilat ilon month = Ok p → is_Some (stat fs p).
Proof.
  intros H.
  destruct (find_gp_file_cases _ _ _ _ _ _ H)
    as (precise & r1 & r2 & _ & _ & _ & [(_ & -> & Hraw) | (Hne & root & f & rest & Hs & ->)]).
  - unfold file_exists in Hraw. apply bool_decide_eq_true in Hraw. exact Hraw.
  - assert (Hin : In (root, f)
                    (winners fs precise [r1; r2] month (format_f 3 ilat)
                       (format_f 3 ilon) (search_roots repo ilat))).
    { apply sort_newest_first_In. rewrite Hs. left. reflexivity. }
    apply winner_file in Hin as (Hroot & l & Hl & Hf & _).
    unfold stat. cbn [pdir pname]. rewrite Hl. simpl.
    apply lookup_file_In, Hf.
Qed.

(** What [find_gp_file] can raise. *)
Lemma find_gp_file_raises fs repo ilat ilon month e :
  find_gp_file fs repo ilat ilon month = Raise e →
  e = ReError ∨ e = GPFileNotFound.
Proof.
  intros H.
  destruct (gp_pattern month (format_f 3 ilat) (format_f 4 ilon)) as [precise|] eqn:Hp.
  2:{ unfold find_gp_file in H. rewrite Hp in H. injection H as <-. auto. }
  destruct (gp_pattern month (format_f 3 ilat) (format_f 3 ilon)) as [r1|] eqn:H1.
  2:{ unfold find_gp_file in H. rewrite Hp, H1 in H. injection H as <-. auto. }
  destruct (gp_pattern month (py_repr ilat) (py_repr ilon)) as [r2|] eqn:H2.
  2:{ unfold find_gp_file in H. rewrite Hp, H1, H2 in H. injection H as <-. auto. }
  rewrite (find_gp_file_winners fs repo ilat ilon month _ _ _ Hp H1 H2) in H.
  destruct (winners fs precise [r1; r2] month _ _ _) as [|c cs] eqn:Ecs.
  - destruct (file_exists fs _); [discriminate |]. injection H as <-. auto.
  - destruct (newest_candidate (c :: cs)) as ([root f] & rest & Hs & _); [discriminate |].
    rewrite Hs in H. discriminate.
Qed.

Lemma np_loadtxt_raises fs p e :
  np_loadtxt fs p = Raise e → is_Some (stat fs p) → e = LoadError.
Proof.
  unfold np_loadtxt. intros H [f Hf]. rewrite Hf in H.
  destruct (parsed_rows f); [discriminate |]. injection H as <-. reflexivity.
Qed.

Lemma load_lhc_first_n_raises fs p R e :
  load_lhc_first_n fs p R = Raise e →
  e = SampleNotFound ∨ e = LoadError ∨ e = ShapeError ∨ e = TooFewRows.
Proof.
  unfold load_lhc_first_n, file_exists.
  destruct (stat fs p) as [f|] eqn:Hs.
  2:{ rewrite bool_decide_false by (intros [x Hx]; discriminate).
      intros [= <-]. auto. }
  rewrite bool_decide_true by eauto. simpl. unfold mbind, result_bind.
  destruct (np_loadtxt fs p) as [[v|v|rows]|e'] eqn:Hl.
  - intros [= <-]. auto.
  - intros [= <-]. auto.
  - destruct (Nat.ltb (shape1 rows) 55); [intros [= <-]; auto |].
    destruct (Nat.ltb (shape0 rows) R); [intros [= <-]; auto | discriminate].
  - intros [= <-]. right. left. apply (np_loadtxt_raises fs p); [exact Hl | eauto].
Qed.

(** What the loading of the inputs can raise, and when. *)
Lemma load_inputs_raises script a fs fs1 e :
  load_inputs script a fs = (fs1, Raise e) →
  (e = IndexError ∧ repo_root script = Raise IndexError ∧ fs1 = fs)
  ∨ (e ≠ IndexError ∧ e ≠ NoSuchFile ∧ e ≠ NoFiniteRows ∧ e ≠ FitError
     ∧ ∃ REPO, repo_root script = Ok REPO ∧ fs1 = mkdir (GAM_DIR_of REPO a) fs).
Proof.
  unfold load_inputs.
  unfold mbind, M_bind, mret, M_ret, pure, reading, modify, raise.
  unfold repo_root. destruct (Nat.leb 4 (length script)) eqn:Hlen.
  2:{ intros [= <- <-]. left. auto. }
  intros H. right.
  set (REPO := take (length script - 4) script) in *.
  set (fs0 := mkdir (GAM_DIR_of REPO a) fs) in *.
  destruct (find_gp_file fs0 REPO (ilat a) (ilon a) (month a)) as [gp|e0] eqn:Eg.
  2:{ injection H as <- <-. destruct (find_gp_file_raises _ _ _ _ _ _ Eg) as [-> | ->];
        repeat split; try discriminate; exists REPO; auto. }
  destruct (np_loadtxt fs0 gp) as [y0|e0] eqn:Ey.
  2:{ injection H as <- <-.
      rewrite (np_loadtxt_raises _ _ _ Ey (find_gp_file_stat _ _ _ _ _ _ Eg)).
      repeat split; try discriminate; exists REPO; auto. }
  destruct (load_lhc_first_n fs0 _ _) as [X0|e0] eqn:EX; [discriminate |].
  injection H as <- <-.
  destruct (load_lhc_first_n_raises _ _ _ _ EX) as [-> | [-> | [-> | ->]]];
    repeat split; try discriminate; exists REPO; auto.
Qed.

(** [analyse] on a file system in which the output directory exists:
    it raises only for want of finite rows or when the fit raises, and
    then writes nothing. *)
Lemma analyse_raises a now REPO gp y0 X0 fs1 fs' e :
  is_Some (fs1 !! GAM_DIR_of REPO a) →
  analyse a now REPO gp y0 X0 fs1 = (fs', Raise e) →
  fs' = fs1 ∧ (e = NoFiniteRows ∨ e = FitError).
Proof.
  intros [l Hl]. unfold analyse.
  destruct (np_any (clean_mask X0 y0)) eqn:Hany; simpl.
  2:{ intros [= <- <-]. auto. }
  destruct (LinearGAM_fit _ _) as [g|] eqn:Hfit.
  2:{ intros [= <- <-]. auto. }
  intros H. exfalso. revert H.
  unfold mbind, M_bind, np_savetxt, write_file, mret, M_ret. simpl.
  rewrite Hl. rewrite lookup_insert_eq. discriminate.
Qed.

(** X15.  A run that raises leaves every file as it was: no output file is
    written, and no file is changed or removed; at most the output
    directory has been created, empty.  It does not fail for a missing
    GP file it has just found, and it raises [IndexError] only when the
    path of the script is too short for [repo_root], before anything is
    touched. *)
Theorem failed_run_writes_nothing script a now fs fs' e :
  main script a now fs = (fs', Raise e) →
  (∀ p, stat fs' p = stat fs p)
  ∧ (∀ d l, fs !! d = Some l → fs' !! d = Some l)
  ∧ (∀ d, fs' !! d = fs !! d ∨ (fs !! d = None ∧ fs' !! d = Some []))
  ∧ e ≠ NoSuchFile
  ∧ (e = IndexError ↔ (length script < 4)%nat)
  ∧ (e = IndexError → fs' = fs).
Proof.
  intros H.
  assert (Hcases : (e = IndexError ∧ repo_root script = Raise IndexError ∧ fs' = fs)
                   ∨ (e ≠ IndexError ∧ e ≠ NoSuchFile
                      ∧ ∃ REPO, repo_root script = Ok REPO
                          ∧ fs' = mkdir (GAM_DIR_of REPO a) fs)).
  { rewrite main_phases in H.
    destruct (load_inputs script a fs) as [fs1 [[[[REPO gp] y0] X0]|e0]] eqn:E.
    - destruct (load_inputs_ok _ _ _ _ _ _ _ _ E) as (Hroot & -> & _).
      destruct (analyse_raises _ _ _ _ _ _ _ _ _
                  (ex_intro _ _ (mkdir_lookup _ fs)) H) as (-> & He).
      right. split; [destruct He as [-> | ->]; discriminate |].
      split; [destruct He as [-> | ->]; discriminate |]. exists REPO. auto.
    - injection H as <- <-.
      destruct (load_inputs_raises _ _ _ _ _ E) as [? | (? & ? & _ & _ & ?)]; auto. }
  assert (Hroot : repo_root script = Raise IndexError ↔ (length script < 4)%nat).
  { unfold repo_root. destruct (Nat.leb 4 (length script)) eqn:Hl.
    - apply Nat.leb_le in Hl. split; [discriminate | lia].
    - apply Nat.leb_gt in Hl. split; [intros _; exact Hl | reflexivity]. }
  destruct Hcases as [(-> & Hr & ->) | (Hne & Hnf & REPO & Hr & ->)].
  - split; [reflexivity |]. split; [auto |]. split; [auto |].
    split; [discriminate |]. split; [| reflexivity].
    split; [intros _; apply Hroot, Hr | reflexivity].
  - split; [intros p; apply stat_mkdir |]. split; [| split; [| split; [exact Hnf |]]].
    + intros d l Hd. destruct (decide (GAM_DIR_of REPO a = d)) as [<- | Hd'].
      * rewrite mkdir_lookup, Hd. reflexivity.
      * rewrite mkdir_lookup_ne by exact Hd'. exact Hd.
    + intros d. destruct (decide (GAM_DIR_of REPO a = d)) as [<- | Hd'].
      * rewrite mkdir_lookup. destruct (fs !! GAM_DIR_of REPO a); auto.
      * left. apply mkdir_lookup_ne, Hd'.
    + split; [| intros E; contradiction].
      split; [intros E; contradiction |].
      intros Hlen. apply Hroot in Hlen. congruence.
Qed.

(** X16.  A run that succeeds changes two files and nothing else: the file
    behind every path other than the two outputs is as it was, the GP
    file among them, and the two outputs are distinct files written at
    the time of the run. *)
Theorem run_changes_two_files_only script a now fs fs' r :
  main script a now fs = (fs', Ok r) →
  (∀ p, p ≠ out_var r → p ≠ out_sign r → stat fs' p = stat fs p)
  ∧ out_var r ≠ out_sign r
  ∧ stat fs' (gp_file r) = stat fs (gp_file r)
  ∧ is_Some (stat fs (gp_file r))
  ∧ ∃ fv fg, stat fs' (out_var r) = Some fv ∧ stat fs' (out_sign r) = Some fg
             ∧ st_mtime fv = now ∧ st_mtime fg = now.
Proof.
  intros H.
  destruct (main_ok _ _ _ _ _ _ H) as (REPO & g & Hin & _ & _ & Hr & Hfs').
  destruct (load_inputs_ok _ _ _ _ _ _ _ _ Hin) as (_ & _ & Hgp & _).
  destruct (main_files _ _ _ _ _ _ H) as (Hfv & Hfg & _ & _).
  set (G := GAM_DIR_of REPO a) in *.
  assert (Hv : out_var r
               = Path G (out_name "GAM_variances" (month a) (N_out r) (ilat a) (ilon a)))
    by (rewrite Hr; reflexivity).
  assert (Hs : out_sign r
               = Path G (out_name "GAM_gradient_signs" (month a) (N_out r)
                           (ilat a) (ilon a)))
    by (rewrite Hr; reflexivity).
  assert (Hframe : ∀ p, p ≠ out_var r → p ≠ out_sign r → stat fs' p = stat fs p).
  { intros [d n] Hpv Hps. rewrite Hfs'. unfold stat. cbn [pdir pname].
    destruct (decide (d = G)) as [-> | Hd].
    - rewrite lookup_insert_eq. simpl.
      rewrite !lookup_put_other.
      + destruct (fs !! G); reflexivity.
      + unfold var_file. cbn [fname]. rewrite Hv. cbn [pname].
        intros E. apply Hpv. rewrite Hv, E. reflexivity.
      + unfold sign_file. cbn [fname]. rewrite Hs. cbn [pname].
        intros E. apply Hps. rewrite Hs, E. reflexivity.
    - rewrite lookup_insert_ne by congruence.
      rewrite mkdir_lookup_ne by congruence. reflexivity. }
  assert (Hgpdir : pdir (gp_file r) ≠ G).
  { destruct (GAM_DIR_not_searched REPO a) as (Hns & Hnt & _). fold G in Hns, Hnt.
    destruct (find_gp_file_dir _ _ _ _ _ _ Hgp) as [Hd | Hd].
    - intros E. rewrite E in Hd. contradiction.
    - congruence. }
  assert (Hgpstat : stat fs' (gp_file r) = stat fs (gp_file r)).
  { apply Hframe; intros E; apply Hgpdir; rewrite E.
    - rewrite Hv. reflexivity.
    - rewrite Hs. reflexivity. }
  split; [exact Hframe |]. split.
  { rewrite Hv, Hs. intros E. apply (f_equal pname) in E. cbn [pname] in E.
    symmetry in E. exact (out_names_differ _ _ _ _ E). }
  split; [exact Hgpstat |]. split.
  { apply find_gp_file_stat in Hgp. rewrite stat_mkdir in Hgp. exact Hgp. }
  exists (var_file now r), (sign_file now r). auto.
Qed.

(** X17.  The two files of a run that succeeds.  Each has 37 lines, one per
    parameter in the order of [PAR_INDEX]: the variance file holds the
    importances formatted with [%.8e]; a line of the sign file is [1],
    [-1] or [0], and tells the sign: it is [1] exactly when the sign is
    1.0, and [-1] exactly when it is -1.0. *)
Theorem output_files_layout script a now fs fs' r :
  main script a now fs = (fs', Ok r) →
  ∃ fv fg,
    stat fs' (out_var r) = Some fv ∧ stat fs' (out_sign r) = Some fg
    ∧ flines fv = List.map fmt_e8 (variances (final r))
    ∧ length (flines fv) = 37%nat
    ∧ length (flines fg) = 37%nat
    ∧ Forall (fun s => s = "1" ∨ s = "-1" ∨ s = "0") (flines fg)
    ∧ ∀ i, (flines fg !! i = Some "1" ↔ grad_sign (final r) !! i = Some fone)
           ∧ (flines fg !! i = Some "-1" ↔ grad_sign (final r) !! i = Some fmone)
           ∧ (flines fg !! i = Some "0" ↔ grad_sign (final r) !! i = Some fzero).
Proof.
  intros H.
  destruct (main_files _ _ _ _ _ _ H) as (Hfv & Hfg & _ & _).
  destruct (run_columns _ _ _ _ _ _ H) as (Hlv & Hlg & _ & Hcol).
  assert (Hsigns : Forall (fun s => s = fone ∨ s = fmone ∨ s = fzero)
                     (grad_sign (final r))).
  { apply Forall_lookup. intros i v Hv.
    assert (Hi : (i < 37)%nat) by (rewrite <- Hlg; eapply lookup_lt_Some; exact Hv).
    destruct (Hcol i Hi) as (_ & Hg). rewrite Hv in Hg. injection Hg as ->.
    apply column_outcome_sign. }
  exists (var_file now r), (sign_file now r).
  split; [exact Hfv |]. split; [exact Hfg |]. split; [reflexivity |].
  unfold var_file, sign_file. cbn [flines].
  split; [rewrite length_map; exact Hlv |].
  split; [rewrite length_map; exact Hlg |]. split.
  - clear -Hsigns. induction Hsigns as [|s l Hs _ IH]; simpl; constructor;
      [| exact IH].
    destruct Hs as [-> | [-> | ->]]; auto.
  - intros i. rewrite lookup_map.
    destruct (grad_sign (final r) !! i) as [s|] eqn:Es; simpl.
    + rewrite Forall_forall in Hsigns.
      assert (Hs : s = fone ∨ s = fmone ∨ s = fzero).
      { apply Hsigns. eapply list_elem_of_lookup_2. exact Es. }
      destruct Hs as [-> | [-> | ->]];
        (split; [| split]); split; intros E; try reflexivity; try discriminate E.
    + (split; [| split]); split; discriminate.
Qed.

(** X18.  Where a run puts its outputs.  [repo_root] gives the directory
    three levels above the directory of the script, and fails when the
    path is too short.  A script at
    [<repo>/scripts/gam/baseline/GAM_baseline.py] writes into
    [<repo>/examples/tiny_sample_outputs/gam_variance/baseline/lat<lat>],
    the latitude with three decimals; a script whose path has fewer than
    four components raises [IndexError] and touches nothing. *)
Theorem outputs_land_under_repo :
  (∀ repo d1 d2 d3 file, repo_root (repo ++ [d1; d2; d3; file]) = Ok repo)
  ∧ (∀ script, (length script < 4)%nat ↔ repo_root script = Raise IndexError)
  ∧ (∀ script a now fs, (length script < 4)%nat →
       main script a now fs = (fs, Raise IndexError))
  ∧ (∀ repo d1 d2 d3 file a now fs fs' r,
       main (repo ++ [d1; d2; d3; file]) a now fs = (fs', Ok r) →
       let dir := repo ++ ["examples"; "tiny_sample_outputs"; "gam_variance";
                           "baseline"; "lat" +:+ format_f 3 (ilat a)] in
       pdir (out_var r) = dir ∧ pdir (out_sign r) = dir
       ∧ is_Some (fs' !! dir)).
Proof.
  assert (Hroot : ∀ repo d1 d2 d3 file,
            repo_root (repo ++ [d1; d2; d3; file]) = Ok repo).
  { intros repo d1 d2 d3 file. unfold repo_root.
    rewrite length_app. cbn [length].
    assert (Hl : Nat.leb 4 (length repo + 4) = true) by (apply Nat.leb_le; lia).
    rewrite Hl. f_equal.
    replace (length repo + 4 - 4)%nat with (length repo) by lia.
    apply take_app_length. }
  assert (Hshort : ∀ script, (length script < 4)%nat ↔ repo_root script = Raise IndexError).
  { intros script. unfold repo_root. destruct (Nat.leb 4 (length script)) eqn:Hl.
    - apply Nat.leb_le in Hl. split; [lia | discriminate].
    - apply Nat.leb_gt in Hl. split; [reflexivity | intros _; exact Hl]. }
  split; [exact Hroot |]. split; [exact Hshort |]. split.
  - intros script a now fs Hlen. apply Hshort in Hlen.
    unfold main. unfold mbind at 1. unfold M_bind, pure. rewrite Hlen. reflexivity.
  - intros repo d1 d2 d3 file a now fs fs' r H dir.
    destruct (main_ok _ _ _ _ _ _ H) as (REPO & g & Hin & _ & _ & Hr & Hfs').
    destruct (load_inputs_ok _ _ _ _ _ _ _ _ Hin) as (HR & _).
    rewrite Hroot in HR. injection HR as <-.
    assert (Hdir : GAM_DIR_of repo a = dir).
    { unfold GAM_DIR_of, tiny_gam_out_dir, dir. rewrite <- app_assoc. reflexivity. }
    assert (Hv : pdir (out_var r) = GAM_DIR_of repo a) by (rewrite Hr; reflexivity).
    assert (Hs : pdir (out_sign r) = GAM_DIR_of repo a) by (rewrite Hr; reflexivity).
    rewrite Hv, Hs, Hdir.
    split; [reflexivity |]. split; [reflexivity |].
    rewrite Hfs', Hdir, lookup_insert_eq. eauto.
Qed.

End RunsMore.

Lemma outcome_from_result {A} (m : fsys * result A) (res : result A) :
  snd m = res → m = (fst m, res).
Proof. destruct m as [fs' r']. simpl. congruence. Qed.

Lemma failed_run_writes_nothing_witness :
  snd (main (RT := Demo.runtime) Demo.script Demo.argv Demo.noon Demo.world_raw4)
    = Raise GPFileNotFound
  ∧ ∀ p, stat (fst (main (RT := Demo.runtime) Demo.script Demo.argv Demo.noon
                      Demo.world_raw4)) p
         = stat Demo.world_raw4 p.
Proof.
  assert (E : snd (main (RT := Demo.runtime) Demo.script Demo.argv Demo.noon
                     Demo.world_raw4) = Raise GPFileNotFound)
    by (vm_compute; reflexivity).
  split; [exact E |].
  exact (proj1 (failed_run_writes_nothing (RT := Demo.runtime) _ _ _ _ _ _
                  (outcome_from_result _ _ E))).
Defined.

Lemma run_changes_two_files_only_witness :
  snd (main (RT := Demo.runtime) Demo.script Demo.argv Demo.noon Demo.world)
    = Ok Demo.the_run
  ∧ stat (fst (main (RT := Demo.runtime) Demo.script Demo.argv Demo.noon Demo.world))
      Demo.gp_path
    = stat Demo.world Demo.gp_path
  ∧ stat (fst (main (RT := Demo.runtime) Demo.script Demo.argv Demo.noon Demo.world))
      (default_samples Demo.repo)
    = stat Demo.world (default_samples Demo.repo).
Proof.
  assert (E : snd (main (RT := Demo.runtime) Demo.script Demo.argv Demo.noon Demo.world)
              = Ok Demo.the_run)
    by (vm_compute; reflexivity).
  destruct (run_changes_two_files_only (RT := Demo.runtime) _ _ _ _ _ _
              (run_from_result _ _ _ _ _ E)) as (Hframe & _ & Hgp & _).
  split; [exact E |]. split; [exact Hgp |].
  apply Hframe; intros Hp; vm_compute in Hp; discriminate Hp.
Defined.

Lemma output_files_layout_witness :
  snd (main (RT := Demo.runtime) Demo.script Demo.argv Demo.noon Demo.world)
    = Ok Demo.the_run
  ∧ ∃ fv fg,
      stat (fst (main (RT := Demo.runtime) Demo.script Demo.argv Demo.noon Demo.world))
        (out_var Demo.the_run) = Some fv
      ∧ stat (fst (main (RT := Demo.runtime) Demo.script Demo.argv Demo.noon Demo.world))
          (out_sign Demo.the_run) = Some fg
      ∧ take 3 (flines fv) = ["0.00000000e+00"; "0.00000000e+00"; "2.10000000e+01"]
      ∧ take 3 (flines fg) = ["0"; "0"; "1"].
Proof.
  assert (E : snd (main (RT := Demo.runtime) Demo.script Demo.argv Demo.noon Demo.world)
              = Ok Demo.the_run)
    by (vm_compute; reflexivity).
  split; [exact E |].
  destruct (output_files_layout (RT := Demo.runtime) _ _ _ _ _ _
              (run_from_result _ _ _ _ _ E))
    as (fv & fg & Hfv & Hfg & Hlines & _ & _ & _ & Hsign).
  exists fv, fg. split; [exact Hfv |]. split; [exact Hfg |]. split.
  - rewrite Hlines. vm_compute. reflexivity.
  - destruct (Hsign 0%nat) as (_ & _ & H0). destruct (Hsign 1%nat) as (_ & _ & H1).
    destruct (Hsign 2%nat) as (H2 & _ & _).
    assert (L0 : flines fg !! 0%nat = Some "0") by (apply H0; vm_compute; reflexivity).
    assert (L1 : flines fg !! 1%nat = Some "0") by (apply H1; vm_compute; reflexivity).
    assert (L2 : flines fg !! 2%nat = Some "1") by (apply H2; vm_compute; reflexivity).
    destruct (flines fg) as [|s0 [|s1 [|s2 l]]];
      [discriminate L0 | discriminate L1 | discriminate L2 |].
    simpl in L0, L1, L2. injection L0 as ->. injection L1 as ->. injection L2 as ->.
    reflexivity.
Defined.

Lemma outputs_land_under_repo_witness :
  snd (main (RT := Demo.runtime) Demo.script Demo.argv Demo.noon Demo.world)
    = Ok Demo.the_run
  ∧ pdir (out_var Demo.the_run)
    = ["srv"; "gp-gam-optimisation-pipeline"; "examples"; "tiny_sample_outputs";
       "gam_variance"; "baseline"; "lat34.375"].
Proof.
  assert (E : snd (main (RT := Demo.runtime) Demo.script Demo.argv Demo.noon Demo.world)
              = Ok Demo.the_run)
    by (vm_compute; reflexivity).
  split; [exact E |].
  destruct (outputs_land_under_repo (RT := Demo.runtime)) as (_ & _ & _ & H).
  destruct (H Demo.repo "scripts" "gam" "baseline" "GAM_baseline.py" _ _ _ _ _
              (run_from_result _ _ _ _ _ E)) as (Hv & _).
  rewrite Hv. vm_compute. reflexivity.
Defined.

(* ================================================================== *)
(** * More on the label *)
(* ================================================================== *)

Section LabelMore.
Context {RT : Runtime}.

(** X19.  The label of the output files lies between the number of rows the
    fit used and the number of responses read.  At least one row is
    used, and as many sample rows are read as there are responses.
    When the label is not the number of rows used, it is the count
    recovered from the name of the GP file, this count is the number of
    responses, and the cleaning has dropped a row: the label then
    overstates the rows behind the outputs. *)
Theorem label_between_used_and_raw script a now fs fs' r :
  main script a now fs = (fs', Ok r) →
  (1 ≤ length (yn r) ≤ length (y r))%nat
  ∧ length (X r) = length (y r)
  ∧ length (Xn r) = length (yn r)
  ∧ (N.of_nat (length (yn r)) <= N_out r <= N.of_nat (length (y r)))%N
  ∧ (N_out r ≠ N.of_nat (length (yn r)) →
     N_gp r = Some (N.of_nat (length (y r)))
     ∧ N_out r = N.of_nat (length (y r))
     ∧ (length (yn r) < length (y r))%nat).
Proof.
  intros H.
  destruct (run_shape _ _ _ _ _ _ H) as (HX & _ & _ & _ & Hyn & Hlen & Hne & _).
  destruct (main_ok _ _ _ _ _ _ H) as (REPO & g & _ & _ & _ & Hr & _).
  assert (Hout : N_out r = N_out_of (N_gp r) (length (y r)) (length (yn r)))
    by (rewrite Hr; reflexivity).
  assert (Hle : (length (yn r) ≤ length (y r))%nat).
  { rewrite Hyn. apply sublist_length, select_sublist. }
  assert (Hpos : (1 ≤ length (yn r))%nat).
  { rewrite Hlen. destruct (Xn r); [congruence | simpl; lia]. }
  split; [lia |]. split; [exact HX |]. split; [congruence |].
  unfold N_out_of in Hout. destruct (N_gp r) as [n|].
  - destruct (N.eqb n (N.of_nat (length (y r)))) eqn:E.
    + apply N.eqb_eq in E. subst n. rewrite Hout. split; [lia |].
      intros Hdiff. split; [reflexivity |]. split; [reflexivity |].
      destruct (decide (length (yn r) = length (y r))) as [Heq | Hneq]; [| lia].
      rewrite Heq in Hdiff. congruence.
    + rewrite Hout. split; [lia |]. intros Hdiff. congruence.
  - rewrite Hout. split; [lia |]. intros Hdiff. congruence.
Qed.

End LabelMore.

Lemma label_between_used_and_raw_witness :
  snd (main (RT := Demo.runtime) Demo.script Demo.argv Demo.noon Demo.world_dropped)
    = Ok Demo.the_run_dropped
  ∧ length (yn Demo.the_run_dropped) = 2%nat
  ∧ N_out Demo.the_run_dropped = 3%N
  ∧ N_gp Demo.the_run_dropped = Some (N.of_nat (length (y Demo.the_run_dropped))).
Proof.
  assert (E : snd (main (RT := Demo.runtime) Demo.script Demo.argv Demo.noon
                     Demo.world_dropped) = Ok Demo.the_run_dropped)
    by (vm_compute; reflexivity).
  destruct (label_between_used_and_raw (RT := Demo.runtime) _ _ _ _ _ _
              (outcome_from_result _ _ E)) as (_ & _ & _ & _ & Hdiff).
  assert (Hout : N_out Demo.the_run_dropped = 3%N) by (vm_compute; reflexivity).
  destruct Hdiff as (Hgp & _ & _).
  - rewrite Hout. intros Hn. vm_compute in Hn. discriminate Hn.
  - split; [exact E |]. split; [vm_compute; reflexivity |].
    split; [exact Hout | exact Hgp].
Defined.
